(** * nba_prop_analyzer: edge discovery, matching, minutes gate and ranking

    A shallow embedding of the decision logic of the analyzer:

    - [analysis/edge_discovery/injury_edges.py], [scheme_edges.py],
      [role_edges.py]: the strength formulas of the edge detectors;
    - [analysis/matchup_engine.py]: matching of edges to props, the
      projection range and the betting direction;
    - [analysis/validation/minutes_gate.py]: the boolean gate and the
      continuous minutes-security score;
    - [output/ranker.py] and the tail of [main.py]: quality floor,
      diversification and final truncation.

    Numbers.  Python floats are read as exact rationals ([Q]); Python ints
    are [Z].  [statistics.stdev] computes the sample variance exactly (it
    works on fractions) and takes a square root at the very end, so a test
    [stdev l > t] with [0 <= t] is decided on the exact variance,
    [variance l > t * t]; where the value of the deviation itself is used
    the square root is a parameter of the development.

    Objects.  [Prop] objects are mutable and shared between the caller's
    list, the engine's index and the analyses it builds; they live in a
    store and are named by their position in it.  Everything else is only
    ever read after construction and is passed by value. *)

From Stdlib Require Import ZArith QArith Qminmax Qround Lqa List Bool Lia Floats Sorted.
From stdpp Require Import gmap strings list pretty.

Open Scope Q_scope.

Set Warnings "-inexact-float".

(** ** Python arithmetic on rationals *)

Definition Qleb (a b : Q) : bool := Qle_bool a b.
Definition Qgeb (a b : Q) : bool := Qle_bool b a.
Definition Qltb (a b : Q) : bool := negb (Qle_bool b a).
Definition Qgtb (a b : Q) : bool := negb (Qle_bool a b).
Definition Qeqb (a b : Q) : bool := Qeq_bool a b.

(** [min(a, b)] and [max(a, b)] return the first argument on ties. *)
Definition py_min (a b : Q) : Q := if Qltb b a then b else a.
Definition py_max (a b : Q) : Q := if Qgtb b a then b else a.

Definition py_abs (a : Q) : Q := if Qltb a 0 then - a else a.

Definition Qsum (l : list Q) : Q := fold_left Qplus l 0.
Definition Zsum (l : list Z) : Z := fold_left Z.add l 0%Z.
Definition Qlen {A} (l : list A) : Q := inject_Z (Z.of_nat (length l)).

(** [sum(l) / len(l)]; the callers guard against the empty list. *)
Definition mean (l : list Q) : Q := Qsum l / Qlen l.

(** The exact sample variance that [statistics.stdev] takes the root of:
    the sum of squared deviations from the mean over [n - 1]. *)
Definition variance (l : list Q) : Q :=
  let m := mean l in
  Qsum (map (fun x => (x - m) * (x - m)) l) / (Qlen l - 1).

(** [statistics.stdev(l) > t] and [statistics.stdev(l) < t] for a
    threshold [0 <= t], decided on the exact variance. *)
Definition stdev_gt (l : list Q) (t : Q) : bool := Qgtb (variance l) (t * t).
Definition stdev_lt (l : list Q) (t : Q) : bool := Qltb (variance l) (t * t).

(** [l[:n]] for a Python int [n], negative bounds included. *)
Definition py_take {A} (n : Z) (l : list A) : list A :=
  if (0 <=? n)%Z then take (Z.to_nat n) l
  else take (length l - Z.to_nat (- n)) l.

(** [l[a:b]] for non-negative literal bounds. *)
Definition py_slice {A} (a b : nat) (l : list A) : list A :=
  drop a (take b l).

(** [x in l] and [any(x in l for x in xs)] over strings. *)
Definition str_in (x : string) (l : list string) : bool :=
  existsb (String.eqb x) l.
Definition any_in (xs l : list string) : bool :=
  existsb (fun x => str_in x l) xs.

(** ** data/models/schemas.py *)

(** Values of the [Dict[str, Any]] payloads. *)
Inductive PyValue : Type :=
  | PyStr (s : string)
  | PyNum (q : Q)
  | PyInt (z : Z).

Record Game := {
  game_id : string;
  home_team_id : Z;
  away_team_id : Z;
  home_team_abbr : string;
  away_team_abbr : string;
  spread : option Q
}.

Record Player := {
  id : Z;
  name : string;
  team_id : Z;
  player_team_abbr : string;
  position : string
}.

Record TeamDefenseStats := {
  def_team_id : Z;
  def_team_abbr : string;
  pts_allowed : Q;
  reb_allowed : Q;
  ast_allowed : Q;
  fg3m_allowed : Q;
  pts_rank : Z;
  reb_rank : Z;
  ast_rank : Z;
  fg3m_rank : Z
}.

Record Team := {
  tm_id : Z;
  abbr : string;
  tm_name : string;
  opp_ppg : Q;
  opp_rpg : Q;
  opp_apg : Q;
  def_rank_pts : Z;
  def_rank_reb : Z;
  def_rank_ast : Z
}.

(** The [Prop] dataclass (a sportsbook line). *)
Record PlayerProp := {
  player_id : Z;
  player_name : string;
  team_abbr : string;
  prop_game_id : string;
  opponent_abbr : string;
  prop_type : string;
  line : Q;
  over_odds : Z;
  under_odds : Z;
  book : string;
  is_home : bool;
  fetched_at : Z
}.

Record Edge := {
  edge_type : string;
  description : string;
  affected_stats : list string;
  strength : Q;
  supporting_data : list (string * PyValue);
  benefiting_player_ids : list Z;
  edge_game_id : option string;
  edge_team_abbr : option string;
  is_primary : bool
}.

Record Injury := {
  inj_player_name : string;
  inj_team_abbr : string;
  status : string;
  injury_type : string;
  usage_rate : Q;
  minutes_per_game : Q;
  notes : string
}.

Record PlayerGameLog := {
  log_game_id : string;
  log_is_home : bool;
  minutes : Q;
  points : Z;
  rebounds : Z;
  assists : Z;
  fg3m : Z;
  fga : Z;
  started : bool
}.

Definition pra (g : PlayerGameLog) : Z := (points g + rebounds g + assists g)%Z.
Definition pts_asts (g : PlayerGameLog) : Z := (points g + assists g)%Z.
Definition pts_rebs (g : PlayerGameLog) : Z := (points g + rebounds g)%Z.
Definition rebs_asts (g : PlayerGameLog) : Z := (rebounds g + assists g)%Z.

(** [PropAnalysis.prop] is a reference to the shared [Prop] object. *)
Record PropAnalysis := {
  prop : nat;
  player : Player;
  opponent : Team;
  game : Game;
  edges : list Edge;
  player_game_logs : list PlayerGameLog;
  projected_low : Q;
  projected_high : Q;
  projected_mid : Q;
  direction : string;
  confidence_score : Q;
  minutes_security_score : Q;
  edge_strength_score : Q;
  risk_notes : list string
}.

(** ** config/settings.py and config/constants.py *)

Record Settings := {
  max_picks : Z;
  min_minutes_threshold : Q;
  min_minutes_last_n : Z;
  min_edge_strength : Q
}.

Definition default_settings : Settings :=
  {| max_picks := 4;
     min_minutes_threshold := 24.0;
     min_minutes_last_n := 5;
     min_edge_strength := 0.5 |}.

Module EdgeType.
Definition INJURY : string := "injury".
Definition SCHEME : string := "scheme".
Definition PACE : string := "pace".
Definition ROLE : string := "role".
End EdgeType.

Definition TEAM_IDS : list (string * Z) :=
  [ ("ATL", 1610612737); ("BOS", 1610612738); ("BKN", 1610612751);
    ("CHA", 1610612766); ("CHI", 1610612741); ("CLE", 1610612739);
    ("DAL", 1610612742); ("DEN", 1610612743); ("DET", 1610612765);
    ("GSW", 1610612744); ("HOU", 1610612745); ("IND", 1610612754);
    ("LAC", 1610612746); ("LAL", 1610612747); ("MEM", 1610612763);
    ("MIA", 1610612748); ("MIL", 1610612749); ("MIN", 1610612750);
    ("NOP", 1610612740); ("NYK", 1610612752); ("OKC", 1610612760);
    ("ORL", 1610612753); ("PHI", 1610612755); ("PHX", 1610612756);
    ("POR", 1610612757); ("SAC", 1610612758); ("SAS", 1610612759);
    ("TOR", 1610612761); ("UTA", 1610612762); ("WAS", 1610612764) ]%Z.

(** ** analysis/edge_discovery/injury_edges.py *)

Definition _calculate_injury_edge_strength (injury : Injury) : Q :=
  let base_strength := 0.3 in
  let base_strength :=
    if Qgeb (usage_rate injury) 30.0 then base_strength + 0.3
    else if Qgeb (usage_rate injury) 25.0 then base_strength + 0.2
    else if Qgeb (usage_rate injury) 20.0 then base_strength + 0.1
    else base_strength in
  let base_strength :=
    if Qgeb (minutes_per_game injury) 35.0 then base_strength + 0.2
    else if Qgeb (minutes_per_game injury) 30.0 then base_strength + 0.1
    else base_strength in
  let base_strength :=
    if String.eqb (status injury) "out" then base_strength + 0.1
    else base_strength in
  py_min base_strength 1.0.

Definition _calculate_teammate_out_strength (injury : Injury) : Q :=
  let base_strength := 0.2 in
  let base_strength :=
    if Qgeb (usage_rate injury) 30.0 then base_strength + 0.25
    else if Qgeb (usage_rate injury) 25.0 then base_strength + 0.15
    else if Qgeb (usage_rate injury) 20.0 then base_strength + 0.1
    else base_strength in
  let base_strength :=
    if Qgeb (minutes_per_game injury) 35.0 then base_strength + 0.15
    else if Qgeb (minutes_per_game injury) 30.0 then base_strength + 0.1
    else base_strength in
  py_min base_strength 0.8.

(** The same formula on IEEE binary64 numbers, for the arithmetic of the
    documented example. *)
Definition _calculate_injury_edge_strength_float
    (usage mpg : float) (st : string) : float :=
  let base_strength := 0.3%float in
  let base_strength :=
    if PrimFloat.leb 30.0 usage then (base_strength + 0.3)%float
    else if PrimFloat.leb 25.0 usage then (base_strength + 0.2)%float
    else if PrimFloat.leb 20.0 usage then (base_strength + 0.1)%float
    else base_strength in
  let base_strength :=
    if PrimFloat.leb 35.0 mpg then (base_strength + 0.2)%float
    else if PrimFloat.leb 30.0 mpg then (base_strength + 0.1)%float
    else base_strength in
  let base_strength :=
    if String.eqb st "out" then (base_strength + 0.1)%float
    else base_strength in
  if PrimFloat.ltb 1.0 base_strength then 1.0%float else base_strength.

(** ** String rendering of numbers

    [format_f k x] is the f-string conversion [{x:.kf}]: [k] decimals,
    ties to even. *)

Definition round_half_even (q : Q) : Z :=
  let f := Qfloor q in
  match Qcompare (q - inject_Z f) (1 # 2) with
  | Lt => f
  | Gt => (f + 1)%Z
  | Eq => if Z.even f then f else (f + 1)%Z
  end.

Definition pad_zeros (k : nat) (s : string) : string :=
  String.concat "" (replicate (k - String.length s) "0"%string) +:+ s.

Definition format_f (k : nat) (q : Q) : string :=
  let scale := (10 ^ Z.of_nat k)%Z in
  let scaled := round_half_even (py_abs q * inject_Z scale) in
  let sign := if Qltb q 0 then "-"%string else ""%string in
  let whole := pretty (scaled / scale)%Z in
  match k with
  | O => sign +:+ whole
  | _ => sign +:+ whole +:+ "." +:+ pad_zeros k (pretty (scaled mod scale)%Z)
  end.

(** ** The external collaborators

    Everything the core reads from providers during one run, frozen: the
    league table used to back-fill teams, the static player list, the
    game-log and defence providers, the team statistics frame, the
    settings, and the square root of the floating-point library. *)

Record TeamStatsRow := {
  TEAM_ID : Z;
  PACE : option Q
}.

Record Env := {
  settings : Settings;
  fsqrt : Q -> Q;
  get_league_player_stats : list (string * string);
  get_players : list (string * Z);
  get_player_game_logs : Z -> list PlayerGameLog;
  get_team_defensive_stats : Z -> option TeamDefenseStats;
  get_team_stats : list TeamStatsRow;
  get_injury_report : string -> list Injury
}.

(** [statistics.stdev]: the root of the exact sample variance. *)
Definition stdev (env : Env) (l : list Q) : Q := fsqrt env (variance l).

(** ** analysis/edge_discovery/scheme_edges.py *)

(** [0.4 + ((rank - 20) * 0.03)], shared by the four rank tests. *)
Definition weakness_strength (rank : Z) : Q :=
  0.4 + (inject_Z (rank - 20) * 0.03).

Definition weakness_edge (stat : string) (rank : Z) (allowed : Q)
    (what unit opportunity : string) (affected : list string)
    (attacking_team defending_team : string) (game : Game) : Edge :=
  let strength := weakness_strength rank in
  {| edge_type := EdgeType.SCHEME;
     description :=
       defending_team +:+ " ranks " +:+ pretty rank +:+ "th in " +:+ what
       +:+ " allowed (" +:+ format_f 1 allowed +:+ " " +:+ unit +:+ ") - "
       +:+ opportunity +:+ " opportunity for " +:+ attacking_team;
     affected_stats := affected;
     strength := py_min strength 0.8;
     supporting_data :=
       [ ("defensive_stat", PyStr stat); ("rank", PyInt rank);
         ("allowed", PyNum allowed); ("defending_team", PyStr defending_team);
         ("attacking_team", PyStr attacking_team) ];
     benefiting_player_ids := [];
     edge_game_id := Some (game_id game);
     edge_team_abbr := Some attacking_team;
     is_primary := true |}.

Definition _find_defensive_weakness_edges (defense : TeamDefenseStats)
    (attacking_team defending_team : string) (game : Game) : list Edge :=
  let edges := [] in
  let edges :=
    if (pts_rank defense >=? 16)%Z then
      edges ++ [weakness_edge "points" (pts_rank defense) (pts_allowed defense)
                  "points" "PPG" "scoring"
                  ["points"; "pts_rebs_asts"; "pts_asts"; "pts_rebs"]
                  attacking_team defending_team game]
    else edges in
  let edges :=
    if (reb_rank defense >=? 16)%Z then
      edges ++ [weakness_edge "rebounds" (reb_rank defense) (reb_allowed defense)
                  "rebounds" "RPG" "rebounding"
                  ["rebounds"; "pts_rebs_asts"; "pts_rebs"; "rebs_asts";
                   "double_double"]
                  attacking_team defending_team game]
    else edges in
  let edges :=
    if (ast_rank defense >=? 16)%Z then
      edges ++ [weakness_edge "assists" (ast_rank defense) (ast_allowed defense)
                  "assists" "APG" "playmaking"
                  ["assists"; "pts_rebs_asts"; "pts_asts"; "rebs_asts";
                   "double_double"]
                  attacking_team defending_team game]
    else edges in
  let edges :=
    if (fg3m_rank defense >=? 16)%Z then
      edges ++ [weakness_edge "threes" (fg3m_rank defense) (fg3m_allowed defense)
                  "3PM" "per game" "3PT"
                  ["threes"; "points"]
                  attacking_team defending_team game]
    else edges in
  edges.

Definition find_scheme_edges (env : Env) (games : list Game) : list Edge :=
  fold_left (fun edges game =>
    match get_team_defensive_stats env (home_team_id game),
          get_team_defensive_stats env (away_team_id game) with
    | Some home_defense, Some away_defense =>
        (edges
         ++ _find_defensive_weakness_edges home_defense
              (away_team_abbr game) (home_team_abbr game) game)
         ++ _find_defensive_weakness_edges away_defense
              (home_team_abbr game) (away_team_abbr game) game
    | _, _ => edges
    end) games [].

(** The first row of the frame for a team and its [PACE] (100.0 when the
    column is absent). *)
Definition team_row (env : Env) (team : Z) : option TeamStatsRow :=
  List.find (fun r => (TEAM_ID r =? team)%Z) (get_team_stats env).

Definition row_pace (r : TeamStatsRow) : Q :=
  match PACE r with Some p => p | None => 100.0 end.

Definition high_pace_edge (game : Game) (home_pace away_pace avg_pace : Q) : Edge :=
  let strength := 0.3 + ((avg_pace - 100) * 0.05) in
  {| edge_type := EdgeType.PACE;
     description :=
       "High pace environment (" +:+ format_f 1 avg_pace
       +:+ ") - increased counting stat opportunities";
     affected_stats :=
       ["points"; "rebounds"; "assists"; "threes";
        "pts_rebs_asts"; "pts_asts"; "pts_rebs"; "rebs_asts"];
     strength := py_min strength 0.6;
     supporting_data :=
       [ ("home_pace", PyNum home_pace); ("away_pace", PyNum away_pace);
         ("combined_pace", PyNum avg_pace); ("pace_type", PyStr "high") ];
     benefiting_player_ids := [];
     edge_game_id := Some (game_id game);
     edge_team_abbr := Some (home_team_abbr game);
     is_primary := false |}.

Definition pace_mismatch_edge (game : Game) (home_pace away_pace pace_diff : Q)
    : Edge :=
  let fast_team :=
    if Qgtb home_pace away_pace then home_team_abbr game else away_team_abbr game in
  let slow_team :=
    if Qgtb home_pace away_pace then away_team_abbr game else home_team_abbr game in
  {| edge_type := EdgeType.PACE;
     description :=
       "Pace mismatch: " +:+ fast_team +:+ " ("
       +:+ format_f 1 (py_max home_pace away_pace) +:+ ") vs " +:+ slow_team
       +:+ " (" +:+ format_f 1 (py_min home_pace away_pace) +:+ ")";
     affected_stats := ["points"; "rebounds"; "assists"];
     strength := 0.3 + (pace_diff * 0.05);
     supporting_data :=
       [ ("fast_team", PyStr fast_team); ("slow_team", PyStr slow_team);
         ("pace_difference", PyNum pace_diff) ];
     benefiting_player_ids := [];
     edge_game_id := Some (game_id game);
     edge_team_abbr := Some fast_team;
     is_primary := false |}.

(** The body of the loop of [find_pace_edges] once both paces are known. *)
Definition pace_edges_for_game (game : Game) (home_pace away_pace : Q)
    : list Edge :=
  let avg_pace := (home_pace + away_pace) / 2 in
  let edges := [] in
  let edges :=
    if Qgeb avg_pace 102.0
    then edges ++ [high_pace_edge game home_pace away_pace avg_pace]
    else edges in
  let pace_diff := py_abs (home_pace - away_pace) in
  let edges :=
    if Qgeb pace_diff 3.0
    then edges ++ [pace_mismatch_edge game home_pace away_pace pace_diff]
    else edges in
  edges.

Definition find_pace_edges (env : Env) (games : list Game) : list Edge :=
  match get_team_stats env with
  | [] => []
  | _ =>
    fold_left (fun edges game =>
      match team_row env (home_team_id game), team_row env (away_team_id game) with
      | Some home_row, Some away_row =>
          edges ++ pace_edges_for_game game (row_pace home_row) (row_pace away_row)
      | _, _ => edges
      end) games []
  end.

Definition positional_edge (player : Player) (opponent_defense : TeamDefenseStats)
    (game : Game) (position letter : string) (rank : Z)
    (what number_of matchup_type rank_key : string) (affected : list string)
    : Edge :=
  {| edge_type := EdgeType.SCHEME;
     description :=
       name player +:+ " (" +:+ letter +:+ ") vs "
       +:+ def_team_abbr opponent_defense +:+ "'s weak " +:+ what
       +:+ " defense (#" +:+ pretty rank +:+ " " +:+ number_of +:+ " allowed)";
     affected_stats := affected;
     strength := 0.5 + (inject_Z (rank - 20) * 0.03);
     supporting_data :=
       [ ("player", PyStr (name player)); ("position", PyStr position);
         ("matchup_type", PyStr matchup_type); (rank_key, PyInt rank) ];
     benefiting_player_ids := [id player];
     edge_game_id := Some (game_id game);
     edge_team_abbr := Some (player_team_abbr player);
     is_primary := true |}.

(** ** analysis/edge_discovery/injury_edges.py, the detectors *)

Definition lower_ascii (c : Ascii.ascii) : Ascii.ascii :=
  let n := Ascii.nat_of_ascii c in
  if (65 <=? n)%nat && (n <=? 90)%nat then Ascii.ascii_of_nat (n + 32) else c.

Fixpoint lower (s : string) : string :=
  match s with
  | EmptyString => EmptyString
  | String c s' => String (lower_ascii c) (lower s')
  end.

(** [kw in text] on strings. *)
Fixpoint is_substring (kw text : string) : bool :=
  String.prefix kw text
  || match text with
     | EmptyString => false
     | String _ text' => is_substring kw text'
     end.

(** [list(set(l))]: each element once.  The order in which a set is
    listed is not fixed by the language; first occurrences are kept in
    place here, and only membership is read downstream. *)
Fixpoint unique (l : list string) : list string :=
  match l with
  | [] => []
  | x :: l' => x :: List.filter (fun y => negb (String.eqb x y)) (unique l')
  end.

Definition _get_affected_stats_from_injury (injury : Injury) : list string :=
  let affected := [] in
  let affected :=
    if Qgeb (usage_rate injury) 20.0
    then affected ++ ["points"; "pts_rebs_asts"; "pts_asts"]
    else affected in
  let injury_notes := lower (notes injury) in
  let big_man_keywords := ["center"; "forward"; "big"; "rim"; "paint"] in
  let affected :=
    if existsb (fun kw => is_substring kw injury_notes) big_man_keywords
    then affected ++ ["rebounds"; "pts_rebs_asts"; "pts_rebs"; "rebs_asts"]
    else affected in
  let playmaker_keywords := ["guard"; "point"; "playmaker"; "ball-handler"] in
  let affected :=
    if existsb (fun kw => is_substring kw injury_notes) playmaker_keywords
    then affected ++ ["assists"; "pts_rebs_asts"; "pts_asts"; "rebs_asts"]
    else affected in
  let affected :=
    match affected with
    | [] => if Qgeb (usage_rate injury) 15.0
            then ["points"; "pts_rebs_asts"] else affected
    | _ => affected
    end in
  unique affected.

Definition _find_opponent_injury_edges (env : Env) (injured_team : string)
    (injuries : list Injury) (benefiting_team : string) (game : Game)
    : list Edge :=
  fold_left (fun edges injury =>
    if negb (str_in (status injury) ["out"; "doubtful"]) then edges
    else
      let affected_stats := _get_affected_stats_from_injury injury in
      match affected_stats with
      | [] => edges
      | _ =>
        let strength := _calculate_injury_edge_strength injury in
        if Qltb strength (min_edge_strength (settings env)) then edges
        else
          edges ++
          [ {| edge_type := EdgeType.INJURY;
               description :=
                 inj_player_name injury +:+ " (" +:+ injured_team +:+ ") is "
                 +:+ status injury +:+ " - " +:+ benefiting_team
                 +:+ " players benefit";
               affected_stats := affected_stats;
               strength := strength;
               supporting_data :=
                 [ ("injured_player", PyStr (inj_player_name injury));
                   ("injured_team", PyStr injured_team);
                   ("injury_type", PyStr (injury_type injury));
                   ("injury_status", PyStr (status injury));
                   ("benefiting_team", PyStr benefiting_team);
                   ("usage_lost", PyNum (usage_rate injury));
                   ("minutes_lost", PyNum (minutes_per_game injury)) ];
               benefiting_player_ids := [];
               edge_game_id := Some (game_id game);
               edge_team_abbr := Some benefiting_team;
               is_primary := true |} ]
      end) injuries [].

Definition _find_teammate_out_edges (env : Env) (team : string)
    (injuries : list Injury) (game : Game) : list Edge :=
  fold_left (fun edges injury =>
    if negb (str_in (status injury) ["out"; "doubtful"]) then edges
    else if Qltb (usage_rate injury) 15.0 && Qltb (minutes_per_game injury) 25.0
    then edges
    else
      let affected_stats := _get_affected_stats_from_injury injury in
      let strength := _calculate_teammate_out_strength injury in
      if Qltb strength (min_edge_strength (settings env)) then edges
      else
        edges ++
        [ {| edge_type := EdgeType.INJURY;
             description :=
               "With " +:+ inj_player_name injury +:+ " out, " +:+ team
               +:+ " teammates get increased opportunity";
             affected_stats := affected_stats;
             strength := strength;
             supporting_data :=
               [ ("injured_player", PyStr (inj_player_name injury));
                 ("team", PyStr team);
                 ("usage_available", PyNum (usage_rate injury));
                 ("minutes_available", PyNum (minutes_per_game injury));
                 ("edge_subtype", PyStr "teammate_out") ];
             benefiting_player_ids := [];
             edge_game_id := Some (game_id game);
             edge_team_abbr := Some team;
             is_primary := true |} ]) injuries [].

(** [injury_report.get(team, [])] is [get_injury_report env team]. *)
Definition find_injury_edges (env : Env) (games : list Game) : list Edge :=
  fold_left (fun edges game =>
    let home_injuries := get_injury_report env (home_team_abbr game) in
    let away_injuries := get_injury_report env (away_team_abbr game) in
    (((edges
       ++ _find_opponent_injury_edges env (home_team_abbr game) home_injuries
            (away_team_abbr game) game)
      ++ _find_opponent_injury_edges env (away_team_abbr game) away_injuries
           (home_team_abbr game) game)
     ++ _find_teammate_out_edges env (home_team_abbr game) home_injuries game)
    ++ _find_teammate_out_edges env (away_team_abbr game) away_injuries game)
    games [].

(** ** analysis/edge_discovery/role_edges.py *)

Definition Zavg (l : list Z) : Q := inject_Z (Zsum l) / Qlen l.

Definition _check_usage_trend (player : Player) (logs : list PlayerGameLog)
    : option Edge :=
  if (length logs <? 10)%nat then None
  else
    let recent_5 := py_slice 0 5 logs in
    let previous_5 := py_slice 5 10 logs in
    let recent_fga := Zavg (map fga recent_5) in
    let previous_fga := Zavg (map fga previous_5) in
    let recent_pts := Zavg (map points recent_5) in
    let previous_pts := Zavg (map points previous_5) in
    let fga_increase := (recent_fga - previous_fga) / py_max previous_fga 1 * 100 in
    let pts_increase := recent_pts - previous_pts in
    if Qgeb fga_increase 20 || Qgeb pts_increase 3 then
      let strength := py_min (0.3 + (fga_increase / 100)) 0.7 in
      Some
        {| edge_type := EdgeType.ROLE;
           description :=
             name player +:+ "'s usage trending up: "
             +:+ format_f 1 previous_fga +:+ " → " +:+ format_f 1 recent_fga
             +:+ " FGA, " +:+ format_f 1 previous_pts +:+ " → "
             +:+ format_f 1 recent_pts +:+ " PPG";
           affected_stats :=
             ["points"; "threes"; "pts_rebs_asts"; "pts_asts"; "pts_rebs"];
           strength := strength;
           supporting_data :=
             [ ("player", PyStr (name player));
               ("recent_fga", PyNum recent_fga);
               ("previous_fga", PyNum previous_fga);
               ("fga_increase_pct", PyNum fga_increase);
               ("recent_pts", PyNum recent_pts);
               ("previous_pts", PyNum previous_pts);
               ("pts_increase", PyNum pts_increase);
               ("edge_subtype", PyStr "usage_increase") ];
           benefiting_player_ids := [id player];
           edge_game_id := None;
           edge_team_abbr := Some (player_team_abbr player);
           is_primary := true |}
    else None.

Definition _check_minutes_trend (player : Player) (logs : list PlayerGameLog)
    : option Edge :=
  if (length logs <? 10)%nat then None
  else
    let recent_5 := py_slice 0 5 logs in
    let previous_5 := py_slice 5 10 logs in
    let recent_mins := mean (map minutes recent_5) in
    let previous_mins := mean (map minutes previous_5) in
    let mins_increase := recent_mins - previous_mins in
    if Qgeb mins_increase 3 then
      let strength := py_min (0.3 + (mins_increase / 10)) 0.6 in
      Some
        {| edge_type := EdgeType.ROLE;
           description :=
             name player +:+ "'s minutes trending up: "
             +:+ format_f 1 previous_mins +:+ " → " +:+ format_f 1 recent_mins
             +:+ " MPG (+" +:+ format_f 1 mins_increase +:+ ")";
           affected_stats :=
             ["points"; "rebounds"; "assists"; "threes";
              "pts_rebs_asts"; "pts_asts"; "pts_rebs"; "rebs_asts"];
           strength := strength;
           supporting_data :=
             [ ("player", PyStr (name player));
               ("recent_mins", PyNum recent_mins);
               ("previous_mins", PyNum previous_mins);
               ("mins_increase", PyNum mins_increase);
               ("edge_subtype", PyStr "minutes_increase") ];
           benefiting_player_ids := [id player];
           edge_game_id := None;
           edge_team_abbr := Some (player_team_abbr player);
           is_primary := true |}
    else None.

Definition count_if {A} (f : A -> bool) (l : list A) : Z :=
  Z.of_nat (length (List.filter f l)).

Definition _check_starter_change (player : Player) (logs : list PlayerGameLog)
    : option Edge :=
  if (length logs <? 10)%nat then None
  else
    let recent_5 := py_slice 0 5 logs in
    let previous_5 := py_slice 5 10 logs in
    let recent_starts := count_if started recent_5 in
    let previous_starts := count_if started previous_5 in
    if (recent_starts >=? 4)%Z && (previous_starts <=? 1)%Z then
      Some
        {| edge_type := EdgeType.ROLE;
           description :=
             name player +:+ " has moved into starting lineup (started "
             +:+ pretty recent_starts +:+ "/5 recent games vs "
             +:+ pretty previous_starts +:+ "/5 before)";
           affected_stats :=
             ["points"; "rebounds"; "assists"; "threes";
              "pts_rebs_asts"; "pts_asts"; "pts_rebs"; "rebs_asts"];
           strength := 0.6;
           supporting_data :=
             [ ("player", PyStr (name player));
               ("recent_starts", PyInt recent_starts);
               ("previous_starts", PyInt previous_starts);
               ("edge_subtype", PyStr "new_starter") ];
           benefiting_player_ids := [id player];
           edge_game_id := None;
           edge_team_abbr := Some (player_team_abbr player);
           is_primary := true |}
    else None.

Definition opt_to_list {A} (o : option A) : list A :=
  match o with Some x => [x] | None => [] end.

Definition _analyze_player_role (env : Env) (player : Player) : list Edge :=
  let logs := get_player_game_logs env (id player) in
  if (Z.of_nat (length logs) <? min_minutes_last_n (settings env))%Z then []
  else
    opt_to_list (_check_usage_trend player logs)
    ++ opt_to_list (_check_minutes_trend player logs)
    ++ opt_to_list (_check_starter_change player logs).

Definition find_role_edges (env : Env) (games : list Game)
    (players : option (list Player)) : list Edge :=
  match players with
  | None | Some [] => []
  | Some players =>
      fold_left (fun edges player => edges ++ _analyze_player_role env player)
        players []
  end.

Fixpoint upper (s : string) : string :=
  match s with
  | EmptyString => EmptyString
  | String c s' =>
      let n := Ascii.nat_of_ascii c in
      String (if (97 <=? n)%nat && (n <=? 122)%nat
              then Ascii.ascii_of_nat (n - 32) else c) (upper s')
  end.

Definition find_positional_edges (player : Player)
    (opponent_defense : TeamDefenseStats) (game : Game) : list Edge :=
  let edges := [] in
  let position := upper (position player) in
  let edges :=
    if is_substring "C" position && (reb_rank opponent_defense >=? 16)%Z then
      edges ++ [positional_edge player opponent_defense game position "C"
                  (reb_rank opponent_defense) "interior" "reb"
                  "center_vs_weak_interior" "opponent_reb_rank"
                  ["rebounds"; "points"; "pts_rebs"; "double_double"]]
    else edges in
  let edges :=
    if is_substring "G" position && (fg3m_rank opponent_defense >=? 16)%Z then
      edges ++ [positional_edge player opponent_defense game position "G"
                  (fg3m_rank opponent_defense) "perimeter" "3PM"
                  "guard_vs_weak_perimeter" "opponent_3pm_rank"
                  ["threes"; "points"]]
    else edges in
  edges.

(** ** Equality of dataclass instances ([==], used by [in] on lists) *)

Definition PyValue_eqb (a b : PyValue) : bool :=
  match a, b with
  | PyStr s, PyStr t => String.eqb s t
  | PyNum p, PyNum q => Qeqb p q
  | PyInt x, PyInt y => (x =? y)%Z
  | PyNum p, PyInt y => Qeqb p (inject_Z y)
  | PyInt x, PyNum q => Qeqb (inject_Z x) q
  | _, _ => false
  end.

Fixpoint list_eqb {A} (eqb : A -> A -> bool) (l1 l2 : list A) : bool :=
  match l1, l2 with
  | [], [] => true
  | x :: l1', y :: l2' => eqb x y && list_eqb eqb l1' l2'
  | _, _ => false
  end.

Definition option_eqb {A} (eqb : A -> A -> bool) (a b : option A) : bool :=
  match a, b with
  | Some x, Some y => eqb x y
  | None, None => true
  | _, _ => false
  end.

(** [d.get(k)] on a dictionary given by the list of its items.  The keys
    of a [dict] are distinct; should a list repeat a key, its first item
    counts. *)
Fixpoint dict_lookup (k : string) (d : list (string * PyValue)) : option PyValue :=
  match d with
  | [] => None
  | (k', v) :: d' => if String.eqb k' k then Some v else dict_lookup k d'
  end.

(** [==] on dictionaries: the same keys with equal values, in whatever
    order the items were inserted. *)
Definition dict_eqb (a b : list (string * PyValue)) : bool :=
  forallb (fun k => option_eqb PyValue_eqb (dict_lookup k a) (dict_lookup k b))
          (map fst a ++ map fst b).

Definition Edge_eqb (a b : Edge) : bool :=
  String.eqb (edge_type a) (edge_type b)
  && String.eqb (description a) (description b)
  && list_eqb String.eqb (affected_stats a) (affected_stats b)
  && Qeqb (strength a) (strength b)
  && dict_eqb (supporting_data a) (supporting_data b)
  && list_eqb Z.eqb (benefiting_player_ids a) (benefiting_player_ids b)
  && option_eqb String.eqb (edge_game_id a) (edge_game_id b)
  && option_eqb String.eqb (edge_team_abbr a) (edge_team_abbr b)
  && Bool.eqb (is_primary a) (is_primary b).

(** [edge in matching]. *)
Definition edge_in (e : Edge) (l : list Edge) : bool := existsb (Edge_eqb e) l.

(** ** The object store and its monad

    The store holds the two argument lists of the engine: the [Prop]
    objects, addressed by position, and the [Edge] objects.  A computation
    either faults (a dangling reference) or returns a value and the next
    store. *)

Record Store := {
  store_props : list PlayerProp;
  store_edges : list Edge
}.

Definition M (A : Type) : Type := Store -> option (A * Store).

Definition ret {A} (a : A) : M A := fun s => Some (a, s).

Definition bind {A B} (m : M A) (f : A -> M B) : M B :=
  fun s => match m s with
           | Some (a, s') => f a s'
           | None => None
           end.

Notation "'do' x <- m ; k" := (bind m (fun x => k))
  (at level 10, x name, m at level 100, k at level 200).
Notation "'run' m ; k" := (bind m (fun _ => k))
  (at level 10, m at level 100, k at level 200).

Definition get_prop (r : nat) : M PlayerProp :=
  fun s => match store_props s !! r with
           | Some p => Some (p, s)
           | None => None
           end.

Definition put_prop (r : nat) (p : PlayerProp) : M unit :=
  fun s => match store_props s !! r with
           | Some _ => Some (tt, {| store_props := <[r := p]> (store_props s);
                                    store_edges := store_edges s |})
           | None => None
           end.

Definition read_edges : M (list Edge) := fun s => Some (store_edges s, s).

Definition prop_refs : M (list nat) :=
  fun s => Some (seq 0 (length (store_props s)), s).

Definition with_team_abbr (p : PlayerProp) (v : string) : PlayerProp :=
  {| player_id := player_id p; player_name := player_name p; team_abbr := v;
     prop_game_id := prop_game_id p; opponent_abbr := opponent_abbr p;
     prop_type := prop_type p; line := line p; over_odds := over_odds p;
     under_odds := under_odds p; book := book p; is_home := is_home p;
     fetched_at := fetched_at p |}.

Definition with_player_id (p : PlayerProp) (v : Z) : PlayerProp :=
  {| player_id := v; player_name := player_name p; team_abbr := team_abbr p;
     prop_game_id := prop_game_id p; opponent_abbr := opponent_abbr p;
     prop_type := prop_type p; line := line p; over_odds := over_odds p;
     under_odds := under_odds p; book := book p; is_home := is_home p;
     fetched_at := fetched_at p |}.

(** [prop.team_abbr = v] and [prop.player_id = v]. *)
Definition set_team_abbr (r : nat) (v : string) : M unit :=
  do p <- get_prop r; put_prop r (with_team_abbr p v).

Definition set_player_id (r : nat) (v : Z) : M unit :=
  do p <- get_prop r; put_prop r (with_player_id p v).

Fixpoint foldM {A B} (f : B -> A -> M B) (l : list A) (b : B) : M B :=
  match l with
  | [] => ret b
  | x :: l' => do b' <- f b x; foldM f l' b'
  end.

Fixpoint mapM {A B} (f : A -> M B) (l : list A) : M (list B) :=
  match l with
  | [] => ret []
  | x :: l' => do y <- f x; do ys <- mapM f l'; ret (y :: ys)
  end.

Fixpoint filterM {A} (f : A -> M bool) (l : list A) : M (list A) :=
  match l with
  | [] => ret []
  | x :: l' =>
      do b <- f x; do ys <- filterM f l'; ret (if b then x :: ys else ys)
  end.

(** ** Insertion-ordered dictionaries of lists

    [if k not in d: d[k] = []] followed by [d[k].append(x)]; iteration
    follows the order in which the keys were first inserted. *)

Fixpoint dict_append {K V} (eqb : K -> K -> bool) (k : K) (x : V)
    (d : list (K * list V)) : list (K * list V) :=
  match d with
  | [] => [(k, [x])]
  | (k', vs) :: d' =>
      if eqb k' k then (k', vs ++ [x]) :: d'
      else (k', vs) :: dict_append eqb k x d'
  end.

(** ** data/collectors/nba_stats.py: windowed averages *)

(** The per-game values [calculate_weighted_averages] averages. *)
Definition stat_values (stat : string) (subset : list PlayerGameLog) : list Q :=
  if String.eqb stat "points" then map (fun g => inject_Z (points g)) subset
  else if String.eqb stat "rebounds" then map (fun g => inject_Z (rebounds g)) subset
  else if String.eqb stat "assists" then map (fun g => inject_Z (assists g)) subset
  else if String.eqb stat "fg3m" || String.eqb stat "threes"
       then map (fun g => inject_Z (fg3m g)) subset
  else if String.eqb stat "pra" || String.eqb stat "pts_rebs_asts"
       then map (fun g => inject_Z (pra g)) subset
  else if String.eqb stat "pts_asts" then map (fun g => inject_Z (pts_asts g)) subset
  else if String.eqb stat "pts_rebs" then map (fun g => inject_Z (pts_rebs g)) subset
  else if String.eqb stat "rebs_asts" then map (fun g => inject_Z (rebs_asts g)) subset
  else if String.eqb stat "minutes" then map minutes subset
  else [0].

(** [sum(values) / len(values) if values else 0.0]. *)
Definition avg_or_zero (values : list Q) : Q :=
  match values with
  | [] => 0.0
  | _ => mean values
  end.

Definition window_key (w : Z) : string := "last_" +:+ pretty w.

Definition calculate_weighted_averages (game_logs : list PlayerGameLog)
    (stat : string) (windows : list Z) : gmap string Q :=
  match game_logs with
  | [] => fold_left (fun d w => <[window_key w := 0.0]> d) windows ∅
  | _ =>
    let averages :=
      fold_left (fun averages window =>
        let subset := py_take window game_logs in
        match subset with
        | [] => <[window_key window := 0.0]> averages
        | _ => <[window_key window := avg_or_zero (stat_values stat subset)]> averages
        end) windows ∅ in
    <["season" := avg_or_zero (stat_values stat game_logs)]> averages
  end.

(** ** analysis/matchup_engine.py *)

(** [a == b] where [b] may be [None]. *)
Definition str_eq_opt (a : string) (b : option string) : bool :=
  match b with
  | Some s => String.eqb a s
  | None => false
  end.

Definition _find_game_for_team (team : option string) (games : list Game)
    : option Game :=
  List.find (fun game => str_eq_opt (home_team_abbr game) team
                         || str_eq_opt (away_team_abbr game) team) games.

(** The compound branches of [_find_edges_for_prop]: the component stats
    tested for a combo prop type, [None] for any other type. *)
Definition combo_components (ptype : string) : option (list string) :=
  if String.eqb ptype "pts_rebs_asts" then Some ["points"; "rebounds"; "assists"]
  else if String.eqb ptype "pts_asts" then Some ["points"; "assists"]
  else if String.eqb ptype "pts_rebs" then Some ["points"; "rebounds"]
  else if String.eqb ptype "rebs_asts" then Some ["rebounds"; "assists"]
  else None.

(** One turn of [for edge in edges]. *)
Definition find_edges_step (ptype : string) (matching : list Edge) (edge : Edge)
    : list Edge :=
  let matching :=
    if str_in ptype (affected_stats edge) then matching ++ [edge] else matching in
  match combo_components ptype with
  | Some stats =>
      if any_in stats (affected_stats edge) then
        if negb (edge_in edge matching) then matching ++ [edge] else matching
      else matching
  | None => matching
  end.

Definition _find_edges_for_prop (p : PlayerProp) (edges : list Edge) : list Edge :=
  fold_left (find_edges_step (prop_type p)) edges [].

Definition _get_team_id (abbr : string) : option Z :=
  option_map snd (List.find (fun kv => String.eqb (fst kv) abbr) TEAM_IDS).

Definition _get_stat_values (logs : list PlayerGameLog) (ptype : string) : list Q :=
  fold_left (fun values log =>
    if String.eqb ptype "points" then values ++ [inject_Z (points log)]
    else if String.eqb ptype "rebounds" then values ++ [inject_Z (rebounds log)]
    else if String.eqb ptype "assists" then values ++ [inject_Z (assists log)]
    else if str_in ptype ["threes"; "fg3m"] then values ++ [inject_Z (fg3m log)]
    else if str_in ptype ["pra"; "pts_rebs_asts"] then values ++ [inject_Z (pra log)]
    else if String.eqb ptype "pts_asts" then values ++ [inject_Z (pts_asts log)]
    else if String.eqb ptype "pts_rebs" then values ++ [inject_Z (pts_rebs log)]
    else if String.eqb ptype "rebs_asts" then values ++ [inject_Z (rebs_asts log)]
    else values) logs [].

(** [d.get(k, default)]. *)
Definition dict_get (d : gmap string Q) (k : string) (dflt : Q) : Q :=
  match d !! k with
  | Some v => v
  | None => dflt
  end.

Definition edge_adjustment_loop (edges : list Edge) : Q :=
  fold_left (fun edge_adjustment edge =>
    if Qgtb (strength edge) 0.5
    then edge_adjustment + (strength edge - 0.5) * 2
    else edge_adjustment) edges 0.0.

Definition _calculate_projection_range (env : Env) (p : PlayerProp)
    (logs : list PlayerGameLog) (edges : list Edge) : Q * Q :=
  match logs with
  | [] => (line p - 2, line p + 2)
  | _ =>
    let ptype := prop_type p in
    let averages := calculate_weighted_averages logs ptype [5; 10; 15]%Z in
    let recent := dict_get averages "last_5" (line p) in
    let medium := dict_get averages "last_10" (line p) in
    let season := dict_get averages "season" (line p) in
    let baseline := (recent * 0.5) + (medium * 0.3) + (season * 0.2) in
    let edge_adjustment := edge_adjustment_loop edges in
    let edge_adjustment := py_min (py_max edge_adjustment (-2)) 4 in
    let adjusted_baseline := baseline + edge_adjustment in
    let std :=
      if (5 <=? length logs)%nat then
        let values := _get_stat_values (py_take 10 logs) ptype in
        match values with
        | [] => 2.0
        | _ => if (1 <? length values)%nat then stdev env values else 2.0
        end
      else 2.0 in
    (adjusted_baseline - std, adjusted_baseline + std)
  end.

Definition _determine_direction (p : PlayerProp) (projected_low projected_high : Q)
    : string :=
  let projected_mid := (projected_low + projected_high) / 2 in
  if Qgtb projected_mid (line p) then "over" else "under".

Definition with_id (pl : Player) (v : Z) : Player :=
  {| id := v; name := name pl; team_id := team_id pl;
     player_team_abbr := player_team_abbr pl; position := position pl |}.

(** The [Team] built for the opponent, with the defence figures when the
    provider has them. *)
Definition opponent_team (env : Env) (opponent_abbr : string) : Team :=
  let opponent_team_id := _get_team_id opponent_abbr in
  let opponent_defense :=
    match opponent_team_id with
    | Some tid => if (tid =? 0)%Z then None else get_team_defensive_stats env tid
    | None => None
    end in
  let opponent_id := match opponent_team_id with Some tid => tid | None => 0%Z end in
  match opponent_defense with
  | Some d =>
      {| tm_id := opponent_id; abbr := opponent_abbr; tm_name := opponent_abbr;
         opp_ppg := pts_allowed d; opp_rpg := reb_allowed d;
         opp_apg := ast_allowed d; def_rank_pts := pts_rank d;
         def_rank_reb := reb_rank d; def_rank_ast := ast_rank d |}
  | None =>
      {| tm_id := opponent_id; abbr := opponent_abbr; tm_name := opponent_abbr;
         opp_ppg := 0.0; opp_rpg := 0.0; opp_apg := 0.0;
         def_rank_pts := 15; def_rank_reb := 15; def_rank_ast := 15 |}
  end.

(** [_create_prop_analysis] from the game-log lookup on: logs, range,
    direction, mean edge strength and the record. *)
Definition finish_prop_analysis (env : Env) (r : nat) (pid : Z) (player : Player)
    (opponent : Team) (edges : list Edge) (game : Game)
    : M (option PropAnalysis) :=
  let game_logs :=
    if (pid =? 0)%Z then [] else get_player_game_logs env pid in
  do p <- get_prop r;
  let range := _calculate_projection_range env p game_logs edges in
  let projected_low := fst range in
  let projected_high := snd range in
  let direction := _determine_direction p projected_low projected_high in
  let edge_strength :=
    match edges with
    | [] => 0.0
    | _ => Qsum (map strength edges) / Qlen edges
    end in
  ret (Some
    {| prop := r;
       player := player;
       opponent := opponent;
       game := game;
       edges := edges;
       player_game_logs := game_logs;
       projected_low := projected_low;
       projected_high := projected_high;
       projected_mid := (projected_low + projected_high) / 2;
       direction := direction;
       confidence_score := 0.0;
       minutes_security_score := 0.0;
       edge_strength_score := edge_strength;
       risk_notes := [] |}).

Definition _create_prop_analysis (env : Env) (r : nat) (edges : list Edge)
    (game : Game) (opponent_abbr : string) : M (option PropAnalysis) :=
  do p <- get_prop r;
  let player :=
    {| id := player_id p; name := player_name p; team_id := 0;
       player_team_abbr := team_abbr p; position := "" |} in
  let opponent := opponent_team env opponent_abbr in
  let pid := player_id p in
  do found <-
    (if (pid =? 0)%Z then
       match List.find (fun pl => String.eqb (fst pl) (player_name p))
                       (get_players env) with
       | Some (_, pid') =>
           run set_player_id r pid';
           ret (pid', with_id player pid')
       | None => ret (pid, player)
       end
     else ret (pid, player));
  finish_prop_analysis env r (fst found) (snd found) opponent edges game.

Definition nonempty (s : string) : bool :=
  match s with EmptyString => false | _ => true end.

(** The player-to-team index built from the league table. *)
Definition player_name_to_team (env : Env) : gmap string string :=
  fold_left (fun d row =>
    let name := fst row in
    let team := snd row in
    if nonempty name && nonempty team then <[name := team]> d else d)
    (get_league_player_stats env) ∅.

Definition group_edges_by_team (edges : list Edge)
    : list (option string * list Edge) :=
  fold_left (fun edges_by_team edge =>
    dict_append (option_eqb String.eqb) (edge_team_abbr edge) edge edges_by_team)
    edges [].

(** One turn of the loop that groups props by player and back-fills the
    team of a prop whose team is unknown. *)
Definition group_prop (env : Env) (props_by_player : list (string * list nat))
    (r : nat) : M (list (string * list nat)) :=
  do p <- get_prop r;
  let name := player_name p in
  run (if String.eqb (team_abbr p) "UNK" then
         match player_name_to_team env !! name with
         | Some team => set_team_abbr r team
         | None => ret tt
         end
       else ret tt);
  ret (dict_append String.eqb name r props_by_player).

(** [any(p.team_abbr == team_abbr for p in player_props)]. *)
Definition any_on_team (team : option string) (player_props : list nat) : M bool :=
  do ps <- mapM get_prop player_props;
  ret (existsb (fun p => str_eq_opt (team_abbr p) team) ps).

(** The body of [for prop in player_props]. *)
Definition match_prop (env : Env) (team_edges : list Edge) (game : Game)
    (opponent_abbr : string) (analyses : list PropAnalysis) (r : nat)
    : M (list PropAnalysis) :=
  do p <- get_prop r;
  let matching_edges := _find_edges_for_prop p team_edges in
  match matching_edges with
  | [] => ret analyses
  | _ =>
      do analysis <- _create_prop_analysis env r matching_edges game opponent_abbr;
      match analysis with
      | Some a => ret (analyses ++ [a])
      | None => ret analyses
      end
  end.

(** The body of [for team_abbr, team_edges in edges_by_team.items()]. *)
Definition match_team (env : Env) (games : list Game)
    (props_by_player : list (string * list nat))
    (analyses : list PropAnalysis) (entry : option string * list Edge)
    : M (list PropAnalysis) :=
  let team := fst entry in
  let team_edges := snd entry in
  match _find_game_for_team team games with
  | None => ret analyses
  | Some game =>
      let opponent_abbr :=
        if str_eq_opt (home_team_abbr game) team
        then away_team_abbr game else home_team_abbr game in
      do team_players_with_props <-
        filterM (fun entry => any_on_team team (snd entry)) props_by_player;
      foldM (fun analyses entry =>
               foldM (match_prop env team_edges game opponent_abbr)
                     (snd entry) analyses)
            team_players_with_props analyses
  end.

Definition match_edges_to_props (env : Env) (games : list Game)
    : M (list PropAnalysis) :=
  do edges <- read_edges;
  do props <- prop_refs;
  let edges_by_team := group_edges_by_team edges in
  do props_by_player <- foldM (group_prop env) props [];
  foldM (match_team env games props_by_player) edges_by_team [].

(** ** analysis/validation/minutes_gate.py *)

Definition with_risk_note (a : PropAnalysis) (note : string) : PropAnalysis :=
  {| prop := prop a; player := player a; opponent := opponent a; game := game a;
     edges := edges a; player_game_logs := player_game_logs a;
     projected_low := projected_low a; projected_high := projected_high a;
     projected_mid := projected_mid a; direction := direction a;
     confidence_score := confidence_score a;
     minutes_security_score := minutes_security_score a;
     edge_strength_score := edge_strength_score a;
     risk_notes := risk_notes a ++ [note] |}.

(** [min(xs)] over a non-empty list. *)
Definition py_min_list (xs : list Q) : Q :=
  match xs with
  | [] => 0
  | x :: xs' => fold_left (fun m y => if Qltb y m then y else m) xs' x
  end.

(** [validate_minutes_security].  The result is [None] when the call
    raises (a division by zero on an empty window), otherwise the verdict
    and the analysis with the risk notes the call appended. *)
Definition validate_minutes_security (env : Env) (analysis : PropAnalysis)
    : option (bool * PropAnalysis) :=
  let logs := player_game_logs analysis in
  match logs with
  | [] => Some (false, analysis)
  | _ =>
    if (Z.of_nat (length logs) <? min_minutes_last_n (settings env))%Z
    then Some (false, analysis)
    else
      let recent_logs := py_take (min_minutes_last_n (settings env)) logs in
      match recent_logs with
      | [] => None
      | _ =>
        let avg_minutes := mean (map minutes recent_logs) in
        if Qltb avg_minutes (min_minutes_threshold (settings env))
        then Some (false, analysis)
        else
          let minutes_list := map minutes recent_logs in
          if (1 <? length minutes_list)%nat && stdev_gt minutes_list 7.0
          then Some (false, analysis)
          else
            let dnp_count := count_if (fun g => Qeqb (minutes g) 0) recent_logs in
            if (dnp_count >? 0)%Z then Some (false, analysis)
            else
              let min_minutes := py_min_list (map minutes recent_logs) in
              let analysis :=
                if Qltb min_minutes 15 && Qgtb avg_minutes 25 then
                  with_risk_note analysis
                    ("Had " +:+ format_f 0 min_minutes
                     +:+ " min game recently (avg " +:+ format_f 1 avg_minutes
                     +:+ ")")
                else analysis in
              let analysis :=
                if (10 <=? length logs)%nat then
                  let recent_5 := Qsum (map minutes (py_slice 0 5 logs)) / 5 in
                  let previous_5 := Qsum (map minutes (py_slice 5 10 logs)) / 5 in
                  if Qltb recent_5 (previous_5 - 5) then
                    with_risk_note analysis
                      ("Minutes trending down: " +:+ format_f 1 previous_5
                       +:+ " → " +:+ format_f 1 recent_5)
                  else analysis
                else analysis in
              Some (true, analysis)
      end
  end.

Definition nat_min (a b : nat) : nat := if (b <? a)%nat then b else a.

Definition calculate_minutes_security_score (env : Env) (analysis : PropAnalysis)
    : Q :=
  let logs := player_game_logs analysis in
  if (length logs <? 3)%nat then 0.0
  else
    let recent_logs := take (nat_min 10 (length logs)) logs in
    let score := 0.5 in
    let avg_minutes := mean (map minutes recent_logs) in
    let score :=
      if Qgeb avg_minutes 35 then score + 0.2
      else if Qgeb avg_minutes 30 then score + 0.15
      else if Qgeb avg_minutes 28 then score + 0.1
      else if Qgeb avg_minutes (min_minutes_threshold (settings env))
           then score + 0.05
      else score - 0.1 in
    let minutes_list := map minutes recent_logs in
    let score :=
      if (1 <? length minutes_list)%nat then
        if stdev_lt minutes_list 3 then score + 0.2
        else if stdev_lt minutes_list 5 then score + 0.1
        else if stdev_gt minutes_list 8 then score - 0.1
        else score
      else score in
    let starts := count_if started recent_logs in
    let start_rate := inject_Z starts / Qlen recent_logs in
    let score :=
      if Qgeb start_rate 0.8 then score + 0.1
      else if Qgeb start_rate 0.5 then score + 0.05
      else if Qeqb start_rate 0 then score - 0.05
      else score in
    let dnps := count_if (fun g => Qeqb (minutes g) 0) recent_logs in
    let score :=
      if (dnps =? 0)%Z then score + 0.05
      else score - 0.1 * inject_Z dnps in
    py_max 0.0 (py_min 1.0 score).

(** ** output/ranker.py *)

Definition select_top_picks (env : Env) (analyses : list PropAnalysis)
    (max_picks_arg : option Z) : list PropAnalysis :=
  let max_picks :=
    match max_picks_arg with
    | Some n => n
    | None => max_picks (settings env)
    end in
  let quality_threshold := 0.4 in
  let quality_picks :=
    List.filter (fun a => Qgeb (confidence_score a) quality_threshold) analyses in
  py_take max_picks quality_picks.

(** [d.get(k, 0)]. *)
Definition count_get (d : gmap string Z) (k : string) : Z :=
  match d !! k with
  | Some n => n
  | None => 0%Z
  end.

Record DiversifyState := {
  selected : list PropAnalysis;
  player_counts : gmap string Z;
  game_counts : gmap string Z
}.

Definition diversify_step (max_per_player max_per_game : Z)
    (st : DiversifyState) (analysis : PropAnalysis) : DiversifyState :=
  let player := name (player analysis) in
  let game := game_id (game analysis) in
  if (count_get (player_counts st) player >=? max_per_player)%Z then st
  else if (count_get (game_counts st) game >=? max_per_game)%Z then st
  else
    {| selected := selected st ++ [analysis];
       player_counts :=
         <[player := (count_get (player_counts st) player + 1)%Z]> (player_counts st);
       game_counts :=
         <[game := (count_get (game_counts st) game + 1)%Z]> (game_counts st) |}.

Definition diversify_picks (analyses : list PropAnalysis)
    (max_per_player max_per_game : Z) : list PropAnalysis :=
  selected
    (fold_left (diversify_step max_per_player max_per_game) analyses
       {| selected := []; player_counts := ∅; game_counts := ∅ |}).

(** ** main.py: from the ranked list to the final picks

    [diversify_picks(ranked_analyses)] with its default caps, then
    [select_top_picks(diversified, settings.max_picks)]. *)
Definition run_analysis_picks (env : Env) (ranked_analyses : list PropAnalysis)
    : list PropAnalysis :=
  let diversified := diversify_picks ranked_analyses 1 2 in
  select_top_picks env diversified (Some (max_picks (settings env))).

(** * The specification's vocabulary *)

(** The enumerated stat categories of the data model. *)
Inductive StatCategory : Type :=
  | CatPoints | CatRebounds | CatAssists | CatThrees
  | CatPtsRebsAsts | CatPtsAsts | CatPtsRebs | CatRebsAsts
  | CatDoubleDouble.

Definition category_name (c : StatCategory) : string :=
  match c with
  | CatPoints => "points"
  | CatRebounds => "rebounds"
  | CatAssists => "assists"
  | CatThrees => "threes"
  | CatPtsRebsAsts => "pts_rebs_asts"
  | CatPtsAsts => "pts_asts"
  | CatPtsRebs => "pts_rebs"
  | CatRebsAsts => "rebs_asts"
  | CatDoubleDouble => "double_double"
  end.

(** The simple categories a compound category is made of. *)
Definition spec_components (c : StatCategory) : list StatCategory :=
  match c with
  | CatPtsRebsAsts => [CatPoints; CatRebounds; CatAssists]
  | CatPtsAsts => [CatPoints; CatAssists]
  | CatPtsRebs => [CatPoints; CatRebounds]
  | CatRebsAsts => [CatRebounds; CatAssists]
  | _ => []
  end.

(** An edge satisfies a prop category when its affected set contains the
    category itself or, for a compound category, any of its components. *)
Definition spec_edge_satisfies (c : StatCategory) (e : Edge) : Prop :=
  In (category_name c) (affected_stats e)
  \/ exists c', In c' (spec_components c) /\ In (category_name c') (affected_stats e).

(** The per-game value of a category; double-doubles have none. *)
Definition spec_stat (c : StatCategory) : option (PlayerGameLog -> Z) :=
  match c with
  | CatPoints => Some points
  | CatRebounds => Some rebounds
  | CatAssists => Some assists
  | CatThrees => Some fg3m
  | CatPtsRebsAsts => Some (fun g => (points g + rebounds g + assists g)%Z)
  | CatPtsAsts => Some (fun g => (points g + assists g)%Z)
  | CatPtsRebs => Some (fun g => (points g + rebounds g)%Z)
  | CatRebsAsts => Some (fun g => (rebounds g + assists g)%Z)
  | CatDoubleDouble => None
  end.

(** The average of a category over the most recent [k] games. *)
Definition spec_window_average (c : StatCategory) (k : nat)
    (logs : list PlayerGameLog) : Q :=
  match spec_stat c with
  | Some f => mean (map (fun g => inject_Z (f g)) (take k logs))
  | None => 0
  end.

(** The average of a category over the whole history. *)
Definition spec_history_average (c : StatCategory) (logs : list PlayerGameLog) : Q :=
  match spec_stat c with
  | Some f => mean (map (fun g => inject_Z (f g)) logs)
  | None => 0
  end.

Definition clamp (lo hi x : Q) : Q :=
  if Qltb x lo then lo else if Qltb hi x then hi else x.

(** The bounded edge adjustment: the sum of [(strength - 0.5) * 2] over
    the edges stronger than 0.5, clamped to [[-2, 4]]. *)
Definition spec_edge_adjustment (edges : list Edge) : Q :=
  clamp (-2) 4
    (Qsum (map (fun e => (strength e - 0.5) * 2)
               (List.filter (fun e => Qgtb (strength e) 0.5) edges))).

(** The data points of the deviation: the category's values over the
    trailing ten games. *)
Definition spec_trailing_values (c : StatCategory) (logs : list PlayerGameLog)
    : list Q :=
  match spec_stat c with
  | Some f => map (fun g => inject_Z (f g)) (take 10 logs)
  | None => []
  end.

(** The projection as the specification words it: the deviation is the
    sample deviation of the trailing ten games, 2.0 when fewer than two
    data points exist; the three averages are taken over windows of 5, 10
    and 15 games. *)
Definition spec_projection_range (env : Env) (c : StatCategory) (p : PlayerProp)
    (logs : list PlayerGameLog) (edges : list Edge) : Q * Q :=
  match logs with
  | [] => (line p - 2, line p + 2)
  | _ =>
    let baseline :=
      0.5 * spec_window_average c 5 logs
      + 0.3 * spec_window_average c 10 logs
      + 0.2 * spec_window_average c 15 logs in
    let values := spec_trailing_values c logs in
    let std := if (length values <? 2)%nat then 2.0 else stdev env values in
    let centre := baseline + spec_edge_adjustment edges in
    (centre - std, centre + std)
  end.

(** What the engine computes: the third average runs over the whole
    history, and the deviation is measured only when at least five games
    exist. *)
Definition engine_projection_range (env : Env) (c : StatCategory) (p : PlayerProp)
    (logs : list PlayerGameLog) (edges : list Edge) : Q * Q :=
  match logs with
  | [] => (line p - 2, line p + 2)
  | _ =>
    let baseline :=
      0.5 * spec_window_average c 5 logs
      + 0.3 * spec_window_average c 10 logs
      + 0.2 * spec_history_average c logs in
    let values := spec_trailing_values c logs in
    let std :=
      if (length logs <? 5)%nat || (length values <? 2)%nat
      then 2.0 else stdev env values in
    let centre := baseline + spec_edge_adjustment edges in
    (centre - std, centre + std)
  end.

(** Ranges are compared up to equality of rationals. *)
Definition range_eq (a b : Q * Q) : Prop := fst a == fst b /\ snd a == snd b.

(** The four fatal conditions of the minutes gate over the recent window
    of [n] games.  The sample deviation exists for two games or more and
    exceeds 7.0 exactly when the sample variance exceeds 49. *)
Definition spec_gate_fatal (n : nat) (floor : Q) (logs : list PlayerGameLog)
    : Prop :=
  let recent := map minutes (take n logs) in
  (length logs < n)%nat
  \/ mean recent < floor
  \/ ((2 <= length recent)%nat /\ 7 * 7 < variance recent)
  \/ Exists (fun m => m == 0) recent.

(** Greedy diversification worded over the admitted entries themselves. *)
Definition admitted_for_player (admitted : list PropAnalysis) (a : PropAnalysis)
    : Z :=
  count_if (fun b => String.eqb (name (player b)) (name (player a))) admitted.

Definition admitted_for_game (admitted : list PropAnalysis) (a : PropAnalysis)
    : Z :=
  count_if (fun b => String.eqb (game_id (game b)) (game_id (game a))) admitted.

Fixpoint spec_diversify_from (admitted rest : list PropAnalysis)
    (max_per_player max_per_game : Z) : list PropAnalysis :=
  match rest with
  | [] => admitted
  | a :: rest' =>
      if (admitted_for_player admitted a >=? max_per_player)%Z
         || (admitted_for_game admitted a >=? max_per_game)%Z
      then spec_diversify_from admitted rest' max_per_player max_per_game
      else spec_diversify_from (admitted ++ [a]) rest' max_per_player max_per_game
  end.

Definition spec_diversify (ranked : list PropAnalysis)
    (max_per_player max_per_game : Z) : list PropAnalysis :=
  spec_diversify_from [] ranked max_per_player max_per_game.

(** The test [_find_edges_for_prop] applies to one edge: the prop type is
    among the affected stats, or the prop is a combo and one of its
    components is. *)
Definition edge_applies (ptype : string) (e : Edge) : bool :=
  str_in ptype (affected_stats e)
  || match combo_components ptype with
     | Some stats => any_in stats (affected_stats e)
     | None => false
     end.

(** ** Reasoning about store computations *)

(** [wp m Q s]: run from [s], [m] returns without a fault and its result
    and final store satisfy [Q]. *)
Definition wp {A} (m : M A) (Q : A -> Store -> Prop) (s : Store) : Prop :=
  match m s with
  | Some (a, s') => Q a s'
  | None => False
  end.

(** How far a [Prop] object may differ from its state at call time: the
    team may have been back-filled from the league table when it was
    "UNK", the player id may have been cached from the static player list
    when it was 0; every other field is as it was. *)
Definition prop_evolves (env : Env) (p p' : PlayerProp) : Prop :=
  player_name p' = player_name p
  /\ prop_game_id p' = prop_game_id p
  /\ opponent_abbr p' = opponent_abbr p
  /\ prop_type p' = prop_type p
  /\ line p' = line p
  /\ over_odds p' = over_odds p
  /\ under_odds p' = under_odds p
  /\ book p' = book p
  /\ is_home p' = is_home p
  /\ fetched_at p' = fetched_at p
  /\ (team_abbr p' = team_abbr p
      \/ (team_abbr p = "UNK"
          /\ player_name_to_team env !! player_name p = Some (team_abbr p')))
  /\ (player_id p' = player_id p
      \/ (player_id p = 0%Z
          /\ In (player_name p, player_id p') (get_players env))).

Definition evolves (env : Env) (s s' : Store) : Prop :=
  store_edges s' = store_edges s
  /\ Forall2 (prop_evolves env) (store_props s) (store_props s').

(** What holds of every analysis the engine has built, read against the
    store: its prop exists; its matched edges are a non-empty selection
    of the input edges, all benefiting one team that plays in the
    analysis's game, all applying to the prop's type; range, midpoint and
    direction are the functions of prop, logs and edges. *)
Definition analysis_ok (env : Env) (games : list Game) (s : Store)
    (a : PropAnalysis) : Prop :=
  exists p,
    store_props s !! prop a = Some p
    /\ edges a <> []
    /\ Forall (fun e => In e (store_edges s)
                        /\ edge_applies (prop_type p) e = true) (edges a)
    /\ (exists team, _find_game_for_team team games = Some (game a)
                     /\ Forall (fun e => edge_team_abbr e = team) (edges a))
    /\ (projected_low a, projected_high a)
       = _calculate_projection_range env p (player_game_logs a) (edges a)
    /\ projected_mid a = (projected_low a + projected_high a) / 2
    /\ direction a = _determine_direction p (projected_low a) (projected_high a).

Definition refs_valid {K} (s : Store) (d : list (K * list nat)) : Prop :=
  Forall (fun entry => Forall (fun r => (r < length (store_props s))%nat)
                              (snd entry)) d.

(** The quality floor of [select_top_picks]. *)
Definition above_floor (a : PropAnalysis) : bool := Qgeb (confidence_score a) 0.4.

(** The two counters hold, for every key, the number of admitted entries
    with that player name and with that game id. *)
Definition counts_agree (st : DiversifyState) : Prop :=
  (forall k, count_get (player_counts st) k
             = count_if (fun b => String.eqb (name (player b)) k) (selected st))
  /\ (forall k, count_get (game_counts st) k
                = count_if (fun b => String.eqb (game_id (game b)) k) (selected st)).

(** * Sample inputs *)

Definition sample_game : Game :=
  {| game_id := "0022400001"; home_team_id := 1610612747;
     away_team_id := 1610612738; home_team_abbr := "LAL";
     away_team_abbr := "BOS"; spread := None |}.

(** An exact root on squares of rationals, for running the samples. *)
Definition sample_sqrt (q : Q) : Q :=
  Z.sqrt (Qnum q * Zpos (Qden q)) # Qden q.

Definition sample_env : Env :=
  {| settings := default_settings;
     fsqrt := sample_sqrt;
     get_league_player_stats := [("LeBron James", "LAL"); ("Jayson Tatum", "BOS")];
     get_players := [("LeBron James", 2544%Z); ("Jayson Tatum", 1628369%Z)];
     get_player_game_logs := fun _ => [];
     get_team_defensive_stats := fun _ => None;
     get_team_stats :=
       [ {| TEAM_ID := 1610612747; PACE := Some 120.0 |};
         {| TEAM_ID := 1610612738; PACE := Some 100.0 |} ];
     get_injury_report := fun _ => [] |}.

Definition sample_injury : Injury :=
  {| inj_player_name := "Jayson Tatum"; inj_team_abbr := "BOS";
     status := "out"; injury_type := "ankle";
     usage_rate := 28; minutes_per_game := 33; notes := "" |}.

Definition sample_log (mins : Q) (pts : Z) (start : bool) : PlayerGameLog :=
  {| log_game_id := "0022400001"; log_is_home := true; minutes := mins;
     points := pts; rebounds := 5; assists := 4; fg3m := 2; fga := 15;
     started := start |}.

Definition sample_player (who : string) : Player :=
  {| id := 2544; name := who; team_id := 0; player_team_abbr := "LAL";
     position := "" |}.

Definition sample_team : Team :=
  {| tm_id := 1610612738; abbr := "BOS"; tm_name := "BOS";
     opp_ppg := 0.0; opp_rpg := 0.0; opp_apg := 0.0;
     def_rank_pts := 15; def_rank_reb := 15; def_rank_ast := 15 |}.

Definition sample_analysis (who : string) (g : Game) (conf : Q)
    (logs : list PlayerGameLog) : PropAnalysis :=
  {| prop := 0; player := sample_player who; opponent := sample_team;
     game := g; edges := []; player_game_logs := logs;
     projected_low := 20; projected_high := 26; projected_mid := 23;
     direction := "over"; confidence_score := conf;
     minutes_security_score := 0.0; edge_strength_score := 0.0;
     risk_notes := [] |}.

Definition steady_logs : list PlayerGameLog :=
  map (fun m => sample_log m 20 true) [31; 33; 30; 32; 29].

Definition dnp_logs : list PlayerGameLog :=
  map (fun m => sample_log m 20 true) [0; 30; 31; 29; 30].

Definition sample_game_2 : Game :=
  {| game_id := "0022400002"; home_team_id := 1610612744;
     away_team_id := 1610612743; home_team_abbr := "GSW";
     away_team_abbr := "DEN"; spread := None |}.

(** A ranked list: two lines of the same player at the top, an entry
    below the quality floor at the bottom. *)
Definition sample_ranked : list PropAnalysis :=
  [ sample_analysis "LeBron James" sample_game 0.9 steady_logs;
    sample_analysis "LeBron James" sample_game 0.85 steady_logs;
    sample_analysis "Jayson Tatum" sample_game 0.8 steady_logs;
    sample_analysis "Stephen Curry" sample_game_2 0.75 steady_logs;
    sample_analysis "Nikola Jokic" sample_game_2 0.7 steady_logs;
    sample_analysis "Jamal Murray" sample_game_2 0.3 steady_logs ].

Definition sample_prop : PlayerProp :=
  {| player_id := 2544; player_name := "LeBron James"; team_abbr := "LAL";
     prop_game_id := "0022400001"; opponent_abbr := "BOS";
     prop_type := "points"; line := 25.5; over_odds := -110;
     under_odds := -110; book := "FanDuel"; is_home := true; fetched_at := 0 |}.

(** Three games of 7, 10 and 13 points: sample deviation 3. *)
Definition short_history : list PlayerGameLog :=
  map (fun pts => sample_log 30 pts true) [7; 10; 13]%Z.

(** Sixteen games: fifteen of 10 points, then one of 26. *)
Definition long_history : list PlayerGameLog :=
  map (fun pts => sample_log 30 pts true) (repeat 10 15 ++ [26])%Z.

Definition sample_edge : Edge :=
  {| edge_type := EdgeType.SCHEME;
     description := "BOS ranks 24th in assists allowed";
     affected_stats := ["assists"];
     strength := 0.7;
     supporting_data := [("defensive_stat", PyStr "assists"); ("rank", PyInt 24)];
     benefiting_player_ids := [];
     edge_game_id := Some "0022400001";
     edge_team_abbr := Some "LAL";
     is_primary := true |}.

(** The store of a call: a points-plus-assists line whose team and player
    id are still unknown, a rebounds line of the same player, and a line
    of an opponent; one edge, for LAL, affecting assists only. *)
Definition sample_store : Store :=
  {| store_props :=
       [ {| player_id := 0; player_name := "LeBron James"; team_abbr := "UNK";
            prop_game_id := "0022400001"; opponent_abbr := "BOS";
            prop_type := "pts_asts"; line := 33.5; over_odds := -110;
            under_odds := -110; book := "FanDuel"; is_home := true;
            fetched_at := 0 |};
         {| player_id := 2544; player_name := "LeBron James"; team_abbr := "LAL";
            prop_game_id := "0022400001"; opponent_abbr := "BOS";
            prop_type := "rebounds"; line := 7.5; over_odds := -115;
            under_odds := -105; book := "FanDuel"; is_home := true;
            fetched_at := 0 |};
         {| player_id := 1628369; player_name := "Jayson Tatum";
            team_abbr := "BOS"; prop_game_id := "0022400001";
            opponent_abbr := "LAL"; prop_type := "assists"; line := 4.5;
            over_odds := -120; under_odds := 100; book := "DraftKings";
            is_home := false; fetched_at := 0 |} ];
     store_edges := [sample_edge] |}.

(** Ten games: five recent ones with 6 attempts and 24 points, five
    earlier ones with 10 attempts and 20 points. *)
Definition fewer_shots_more_points : list PlayerGameLog :=
  map (fun g =>
         {| log_game_id := "0022400001"; log_is_home := true; minutes := 30;
            points := snd g; rebounds := 5; assists := 4; fg3m := 2;
            fga := fst g; started := true |})
      (repeat (6, 24) 5 ++ repeat (10, 20) 5)%Z.

(** * Further vocabulary *)

(** A game involves a team when the team is its home or its away side. *)
Definition involves (t : string) (g : Game) : Prop :=
  home_team_abbr g = t \/ away_team_abbr g = t.

(** The team written back into a prop by the grouping loop of
    [match_edges_to_props]. *)
Definition backfill (env : Env) (p : PlayerProp) : PlayerProp :=
  if String.eqb (team_abbr p) "UNK" then
    match player_name_to_team env !! player_name p with
    | Some team => with_team_abbr p team
    | None => p
    end
  else p.

(** The providers of [env] with an empty league table. *)
Definition no_league (env : Env) : Env :=
  {| settings := settings env;
     fsqrt := fsqrt env;
     get_league_player_stats := [];
     get_players := get_players env;
     get_player_game_logs := get_player_game_logs env;
     get_team_defensive_stats := get_team_defensive_stats env;
     get_team_stats := get_team_stats env;
     get_injury_report := get_injury_report env |}.

(** A line for a player the static list does not know. *)
Definition unlisted_prop : PlayerProp :=
  {| player_id := 0; player_name := "Two-Way Rookie"; team_abbr := "LAL";
     prop_game_id := "0022400001"; opponent_abbr := "BOS";
     prop_type := "assists"; line := 3.5; over_odds := -110;
     under_odds := -110; book := "FanDuel"; is_home := true; fetched_at := 0 |}.

Definition unlisted_store : Store :=
  {| store_props := [unlisted_prop]; store_edges := [sample_edge] |}.

(** The entry [calculate_weighted_averages] files for a window. *)
Definition window_average (logs : list PlayerGameLog) (stat : string) (w : Z) : Q :=
  match logs with
  | [] => 0.0
  | _ =>
      match py_take w logs with
      | [] => 0.0
      | subset => avg_or_zero (stat_values stat subset)
      end
  end.

(** An edge found for a game: it carries the game's id and credits one of
    the game's two sides. *)
Definition for_side_of (game : Game) (e : Edge) : Prop :=
  edge_game_id e = Some (game_id game)
  /\ (edge_team_abbr e = Some (home_team_abbr game)
      \/ edge_team_abbr e = Some (away_team_abbr game)).

(** The injuries for which [_find_teammate_out_edges] emits an edge under
    the default strength threshold. *)
Definition teammate_out_qualifies (injury : Injury) : bool :=
  str_in (status injury) ["out"; "doubtful"]
  && ((Qgeb (usage_rate injury) 30.0 && Qgeb (minutes_per_game injury) 30.0)
      || (Qgeb (usage_rate injury) 25.0 && Qgeb (minutes_per_game injury) 35.0)).

(** The slate's edges as [run_analysis] collects them. *)
Definition all_edges (env : Env) (games : list Game) : list Edge :=
  (find_injury_edges env games ++ find_scheme_edges env games)
  ++ find_pace_edges env games.

(** A role player's injury: doubtful, modest usage. *)
Definition bench_injury : Injury :=
  {| inj_player_name := "Sixth Man"; inj_team_abbr := "BOS";
     status := "doubtful"; injury_type := "knee";
     usage_rate := 18; minutes_per_game := 24; notes := "" |}.

(** A star's injury that clears the teammate-out thresholds. *)
Definition star_injury : Injury :=
  {| inj_player_name := "Jayson Tatum"; inj_team_abbr := "BOS";
     status := "out"; injury_type := "ankle";
     usage_rate := 31; minutes_per_game := 36; notes := "starting forward" |}.

(** ** analysis/validation/minutes_gate.py, the advisory checks *)

(** [check_injury_return_restriction]: the verdict and the analysis with
    the note the call appended.  [injury_status] is accepted and not read. *)
Definition check_injury_return_restriction (analysis : PropAnalysis)
    (injury_status : option string) : bool * PropAnalysis :=
  let logs := player_game_logs analysis in
  match logs with
  | [] => (false, analysis)
  | first_log :: _ =>
    if (length logs <? 3)%nat then (false, analysis)
    else
      let recent_3 := py_take 3 logs in
      let minutes_recent := map minutes recent_3 in
      let m0 := nth 0 minutes_recent 0 in
      let m1 := nth 1 minutes_recent 0 in
      let m2 := nth 2 minutes_recent 0 in
      let low_last_game :=
        if (10 <=? length logs)%nat then
          let season_avg := Qsum (map minutes logs) / Qlen logs in
          let last_game := minutes first_log in
          if Qltb last_game (season_avg - 10) then
            (true,
             with_risk_note analysis
               ("Last game minutes (" +:+ format_f 0 last_game
                +:+ ") well below season average (" +:+ format_f 1 season_avg
                +:+ ")"))
          else (false, analysis)
        else (false, analysis) in
      if Qgtb m0 m1 && Qgtb m1 m2 then
        if Qltb m2 20 then
          (true,
           with_risk_note analysis
             ("Possible minutes ramp: " +:+ format_f 0 m2 +:+ " → "
              +:+ format_f 0 m1 +:+ " → " +:+ format_f 0 m0 +:+ " min"))
        else low_last_game
      else low_last_game
  end.

(** [get_blowout_risk]: a spread of [None] or of zero is falsy. *)
Definition get_blowout_risk (analysis : PropAnalysis) : string :=
  let game := game analysis in
  match spread game with
  | Some s =>
      if Qeqb s 0 then "low"
      else if Qgeb (py_abs s) 12 then "high"
      else if Qgeb (py_abs s) 8 then "medium"
      else "low"
  | None => "low"
  end.

(** The analysis with further risk notes appended. *)
Definition with_risk_notes (a : PropAnalysis) (notes : list string) : PropAnalysis :=
  fold_left with_risk_note notes a.

(** The number of entries of a list for a player, and for a game. *)
Definition picks_of_player (k : string) (l : list PropAnalysis) : Z :=
  count_if (fun b => String.eqb (name (player b)) k) l.

Definition picks_of_game (k : string) (l : list PropAnalysis) : Z :=
  count_if (fun b => String.eqb (game_id (game b)) k) l.

(** ** output/ranker.py: the confidence score

    [analysis.prop] is a reference into the store; the scoring functions
    that read the prop take the prop it denotes.  The dictionary
    [conditional_splits] of an analysis is carried beside it. *)

Record SplitStats := { split_games : Z; split_avg : Q }.

Record Candidate := {
  cand_analysis : PropAnalysis;
  conditional_splits : gmap string SplitStats
}.

Definition _calculate_edge_score (analysis : PropAnalysis) : Q :=
  let edges := edges analysis in
  match edges with
  | [] => 0.0
  | _ =>
    let avg_strength := Qsum (map strength edges) / Qlen edges in
    let multi_edge_bonus := py_min (Qlen edges * 0.1) 0.3 in
    let primary_edges := List.filter is_primary edges in
    let primary_bonus := Qlen primary_edges * 0.05 in
    let score := avg_strength + multi_edge_bonus + primary_bonus in
    py_min score 1.0
  end.

Definition _calculate_sample_quality_score (analysis : PropAnalysis)
    (splits : gmap string SplitStats) : Q :=
  let logs := player_game_logs analysis in
  match logs with
  | [] => 0.0
  | _ =>
    let score := 0.0 in
    let score :=
      if (30 <=? length logs)%nat then score + 0.4
      else if (20 <=? length logs)%nat then score + 0.3
      else if (10 <=? length logs)%nat then score + 0.2
      else if (5 <=? length logs)%nat then score + 0.1
      else score in
    let score := if (0 <? size splits)%nat then score + 0.2 else score in
    let score :=
      match splits !! "vs_opponent" with
      | Some h2h => if (split_games h2h >=? 2)%Z then score + 0.2 else score
      | None => score
      end in
    let score := if (5 <=? length logs)%nat then score + 0.2 else score in
    py_min score 1.0
  end.

Definition _calculate_odds_value_score (p : PlayerProp) (analysis : PropAnalysis)
    : Q :=
  let odds :=
    if String.eqb (direction analysis) "over" then over_odds p else under_odds p in
  if (odds >? 0)%Z then 0.8 + py_min (inject_Z odds / 500) 0.2
  else if (odds >=? -115)%Z then 0.7
  else if (odds >=? -130)%Z then 0.5
  else if (odds >=? -140)%Z then 0.3
  else 0.0.

Definition _calculate_alignment_score (p : PlayerProp) (analysis : PropAnalysis)
    : Q :=
  let line := line p in
  let over := String.eqb (direction analysis) "over" in
  let edge :=
    if over then projected_mid analysis - line else line - projected_mid analysis in
  let floor_edge :=
    if over then projected_low analysis - line
    else line - projected_high analysis in
  let score :=
    if Qgeb edge 2 then 0.8
    else if Qgeb edge 1 then 0.6
    else if Qgeb edge 0.5 then 0.4
    else if Qgtb edge 0 then 0.2
    else 0.0 in
  let score := if Qgtb floor_edge 0 then score + 0.2 else score in
  py_min score 1.0.

Definition calculate_confidence_score (env : Env) (p : PlayerProp)
    (analysis : PropAnalysis) (splits : gmap string SplitStats) : Q :=
  let score := 0.0 in
  let edge_score := _calculate_edge_score analysis in
  let score := score + edge_score * 0.35 in
  let minutes_score := calculate_minutes_security_score env analysis in
  let score := score + minutes_score * 0.25 in
  let sample_score := _calculate_sample_quality_score analysis splits in
  let score := score + sample_score * 0.15 in
  let odds_score := _calculate_odds_value_score p analysis in
  let score := score + odds_score * 0.15 in
  let alignment_score := _calculate_alignment_score p analysis in
  let score := score + alignment_score * 0.10 in
  py_min score 1.0.

Definition with_confidence_score (a : PropAnalysis) (v : Q) : PropAnalysis :=
  {| prop := prop a; player := player a; opponent := opponent a; game := game a;
     edges := edges a; player_game_logs := player_game_logs a;
     projected_low := projected_low a; projected_high := projected_high a;
     projected_mid := projected_mid a; direction := direction a;
     confidence_score := v;
     minutes_security_score := minutes_security_score a;
     edge_strength_score := edge_strength_score a;
     risk_notes := risk_notes a |}.

Definition with_minutes_security_score (a : PropAnalysis) (v : Q) : PropAnalysis :=
  {| prop := prop a; player := player a; opponent := opponent a; game := game a;
     edges := edges a; player_game_logs := player_game_logs a;
     projected_low := projected_low a; projected_high := projected_high a;
     projected_mid := projected_mid a; direction := direction a;
     confidence_score := confidence_score a;
     minutes_security_score := v;
     edge_strength_score := edge_strength_score a;
     risk_notes := risk_notes a |}.

(** ** Stable sorting, highest key first

    [l.sort(key=..., reverse=True)]: entries with equal keys keep their
    order.  [lt x y] reads "the key of [x] is below the key of [y]". *)

Fixpoint insert_desc {A} (lt : A -> A -> bool) (x : A) (l : list A) : list A :=
  match l with
  | [] => [x]
  | y :: l' => if lt x y then y :: insert_desc lt x l' else x :: y :: l'
  end.

Definition sort_desc {A} (lt : A -> A -> bool) (l : list A) : list A :=
  foldr (insert_desc lt) [] l.

(** ** output/ranker.py: [rank_props] *)

(** An exception, as a fault of the computation. *)
Definition raise {A} : M A := fun _ => None.

(** The body of the first loop: the minutes gate. *)
Definition gate_step (env : Env) (valid_analyses : list Candidate) (c : Candidate)
    : M (list Candidate) :=
  match validate_minutes_security env (cand_analysis c) with
  | None => raise
  | Some (true, analysis) =>
      ret (valid_analyses
           ++ [{| cand_analysis := analysis;
                  conditional_splits := conditional_splits c |}])
  | Some (false, _) => ret valid_analyses
  end.

(** The body of the second loop: both scores are written. *)
Definition score_step (env : Env) (c : Candidate) : M Candidate :=
  let analysis := cand_analysis c in
  do p <- get_prop (prop analysis);
  let analysis :=
    with_confidence_score analysis
      (calculate_confidence_score env p analysis (conditional_splits c)) in
  let analysis :=
    with_minutes_security_score analysis
      (calculate_minutes_security_score env analysis) in
  ret {| cand_analysis := analysis; conditional_splits := conditional_splits c |}.

Definition confidence_below (c1 c2 : Candidate) : bool :=
  Qltb (confidence_score (cand_analysis c1)) (confidence_score (cand_analysis c2)).

Definition rank_props (env : Env) (analyses : list Candidate) : M (list Candidate) :=
  do valid_analyses <- foldM (gate_step env) analyses [];
  do valid_analyses <- mapM (score_step env) valid_analyses;
  ret (sort_desc confidence_below valid_analyses).

(** ** analysis/matchup_engine.py: [enrich_analysis_with_context]

    [history] stands for [get_player_vs_opponent_history]. *)

Definition _calculate_avg_from_logs (logs : list PlayerGameLog) (ptype : string) : Q :=
  avg_or_zero (_get_stat_values logs ptype).

Definition enrich_analysis_with_context
    (history : Z -> string -> list PlayerGameLog) (c : Candidate) : M Candidate :=
  let analysis := cand_analysis c in
  do p <- get_prop (prop analysis);
  let splits := conditional_splits c in
  let splits :=
    if negb (id (player analysis) =? 0)%Z then
      let h2h_logs := history (id (player analysis)) (abbr (opponent analysis)) in
      match h2h_logs with
      | [] => splits
      | _ =>
        <["vs_opponent" :=
            {| split_games := Z.of_nat (length h2h_logs);
               split_avg := _calculate_avg_from_logs h2h_logs (prop_type p) |}]>
          splits
      end
    else splits in
  let splits :=
    match player_game_logs analysis with
    | [] => splits
    | logs =>
      let home_games := List.filter log_is_home logs in
      let away_games := List.filter (fun g => negb (log_is_home g)) logs in
      let splits :=
        match home_games with
        | [] => splits
        | _ =>
          <["home" :=
              {| split_games := Z.of_nat (length home_games);
                 split_avg := _calculate_avg_from_logs home_games (prop_type p) |}]>
            splits
        end in
      match away_games with
      | [] => splits
      | _ =>
        <["away" :=
            {| split_games := Z.of_nat (length away_games);
               split_avg := _calculate_avg_from_logs away_games (prop_type p) |}]>
          splits
      end
    end in
  ret {| cand_analysis := analysis; conditional_splits := splits |}.

(** ** main.py: from the engine's analyses to the picks

    Steps 5 and 6 of [run_analysis]: every analysis is enriched, the list
    is ranked, diversified and truncated. *)
Definition new_candidate (a : PropAnalysis) : Candidate :=
  {| cand_analysis := a; conditional_splits := ∅ |}.

Definition rank_and_pick (env : Env) (history : Z -> string -> list PlayerGameLog)
    (prop_analyses : list PropAnalysis) : M (list PropAnalysis) :=
  do candidates <-
    mapM (enrich_analysis_with_context history) (map new_candidate prop_analyses);
  do ranked_analyses <- rank_props env candidates;
  match ranked_analyses with
  | [] => ret []
  | _ => ret (run_analysis_picks env (map cand_analysis ranked_analyses))
  end.

(** ** data/collectors/props_scraper.py *)

Definition filter_props_by_games (props : list PlayerProp) (games : list Game)
    : list PlayerProp :=
  let game_ids := map game_id games in
  let team_abbrs :=
    fold_left (fun team_abbrs g =>
                 (team_abbrs ++ [home_team_abbr g]) ++ [away_team_abbr g])
      games [] in
  fold_left (fun filtered prop =>
    if str_in (prop_game_id prop) game_ids then filtered ++ [prop]
    else if str_in (team_abbr prop) team_abbrs then filtered ++ [prop]
    else filtered) props [].

Definition filter_props_by_odds (props : list PlayerProp) (max_juice : Z)
    : list PlayerProp :=
  fold_left (fun filtered prop =>
    if (over_odds prop >=? max_juice)%Z || (under_odds prop >=? max_juice)%Z
    then filtered ++ [prop] else filtered) props [].

Definition filter_props_by_type (props : list PlayerProp) (allowed_types : list string)
    : list PlayerProp :=
  List.filter (fun p => str_in (prop_type p) allowed_types) props.



(** [_american_to_decimal]; [None] is the division by zero at odds of 0. *)
Definition _american_to_decimal (american : Z) : option Q :=
  if (american >? 0)%Z then Some (inject_Z american / 100 + 1)
  else if (Z.abs american =? 0)%Z then None
  else Some (100 / inject_Z (Z.abs american) + 1).

(** [config/constants.py]: the table of prop type names, in its order. *)
Definition PROP_TYPES : list (string * list string) :=
  [ ("points", ["points"; "pts"; "player_points"]);
    ("rebounds", ["rebounds"; "rebs"; "total_rebounds"; "player_rebounds"]);
    ("assists", ["assists"; "asts"; "player_assists"]);
    ("threes", ["threes"; "3pm"; "three_pointers_made"; "player_threes"]);
    ("pts_rebs_asts", ["pra"; "pts+rebs+asts"; "points_rebounds_assists"]);
    ("pts_asts", ["pa"; "pts+asts"; "points_assists"]);
    ("pts_rebs", ["pr"; "pts+rebs"; "points_rebounds"]);
    ("rebs_asts", ["ra"; "rebs+asts"; "rebounds_assists"]);
    ("double_double", ["double_double"; "dd"]) ].

(** [s.replace(a, b)] for single characters. *)
Fixpoint replace_char (a b : Ascii.ascii) (s : string) : string :=
  match s with
  | EmptyString => EmptyString
  | String c s' =>
      String (if Ascii.eqb c a then b else c) (replace_char a b s')
  end.

(** The characters " ", "-" and "_". *)
Definition space : Ascii.ascii := Ascii.ascii_of_nat 32.
Definition hyphen : Ascii.ascii := Ascii.ascii_of_nat 45.
Definition underscore : Ascii.ascii := Ascii.ascii_of_nat 95.

Definition _normalize_prop_type (raw_type : string) : option string :=
  let raw_lower :=
    replace_char hyphen underscore
      (replace_char space underscore (lower raw_type)) in
  option_map fst
    (List.find (fun row => str_in raw_lower (snd row)
                           || is_substring (fst row) raw_lower) PROP_TYPES).

(** The odds the odds score reads: those of the analysis's direction. *)
Definition chosen_odds (p : PlayerProp) (a : PropAnalysis) : Z :=
  if String.eqb (direction a) "over" then over_odds p else under_odds p.

Definition other_odds (p : PlayerProp) (a : PropAnalysis) : Z :=
  if String.eqb (direction a) "over" then under_odds p else over_odds p.

(** A line that passes the odds filter on its over price only. *)
Definition lopsided_prop : PlayerProp :=
  {| player_id := 2544; player_name := "LeBron James"; team_abbr := "LAL";
     prop_game_id := "0022400001"; opponent_abbr := "BOS";
     prop_type := "points"; line := 25.5; over_odds := 120;
     under_odds := -160; book := "FanDuel"; is_home := true; fetched_at := 0 |}.

Definition under_analysis : PropAnalysis :=
  {| prop := 0; player := sample_player "LeBron James"; opponent := sample_team;
     game := sample_game; edges := []; player_game_logs := steady_logs;
     projected_low := 20; projected_high := 26; projected_mid := 23;
     direction := "under"; confidence_score := 0.0;
     minutes_security_score := 0.0; edge_strength_score := 0.0;
     risk_notes := [] |}.

(** ** Reading [rank_props] *)

(** The analysis passes the minutes gate. *)
Definition gate_passes (env : Env) (c : Candidate) : bool :=
  match validate_minutes_security env (cand_analysis c) with
  | Some (true, _) => true
  | _ => false
  end.

(** [c'] is [c] after the gate has appended its notes and both scores
    have been written. *)
Definition scored_from (env : Env) (s : Store) (c c' : Candidate) : Prop :=
  exists a' p,
    validate_minutes_security env (cand_analysis c) = Some (true, a')
    /\ store_props s !! prop a' = Some p
    /\ c' = {| cand_analysis :=
                 with_minutes_security_score
                   (with_confidence_score a'
                      (calculate_confidence_score env p a' (conditional_splits c)))
                   (calculate_minutes_security_score env a');
               conditional_splits := conditional_splits c |}.

Definition confidence (c : Candidate) : Q := confidence_score (cand_analysis c).

(** Two analyses agree on everything the engine computed: all fields but
    the two scores the ranker writes and the risk notes. *)
Definition same_core (a0 a : PropAnalysis) : Prop :=
  prop a = prop a0 /\ player a = player a0 /\ opponent a = opponent a0
  /\ game a = game a0 /\ edges a = edges a0
  /\ player_game_logs a = player_game_logs a0
  /\ projected_low a = projected_low a0 /\ projected_high a = projected_high a0
  /\ projected_mid a = projected_mid a0 /\ direction a = direction a0
  /\ edge_strength_score a = edge_strength_score a0.

(** Candidates for a run of the ranker: one that passes the gate and one
    with a game of zero minutes. *)
Definition sample_candidates : list Candidate :=
  [ new_candidate (sample_analysis "LeBron James" sample_game 0.0 dnp_logs);
    new_candidate (sample_analysis "LeBron James" sample_game 0.0 steady_logs);
    new_candidate under_analysis ].

(** The number of games a split was computed from; 0 when the split is
    absent. *)
Definition split_count (splits : gmap string SplitStats) (k : string) : Z :=
  match splits !! k with
  | Some st => split_games st
  | None => 0%Z
  end.

(** No head-to-head history. *)
Definition no_history (pid : Z) (opponent_abbr : string) : list PlayerGameLog := [].

(** Analyses as the engine hands them on. *)
Definition sample_analyses : list PropAnalysis :=
  [ sample_analysis "LeBron James" sample_game 0.0 dnp_logs;
    sample_analysis "LeBron James" sample_game 0.0 steady_logs;
    under_analysis ].

(** The text [_normalize_prop_type] compares: lower case, with spaces and
    hyphens turned into underscores. *)
Definition canonical_text (raw_type : string) : string :=
  replace_char hyphen underscore (replace_char space underscore (lower raw_type)).

(** The long names of the compound markets, as the table and the odds
    feed spell them. *)
Definition compound_market_names : list string :=
  [ "points_rebounds_assists"; "points_assists"; "points_rebounds";
    "rebounds_assists"; "player_points_rebounds_assists" ].

(** ** Reading what the engine produces *)

(** [a] is the analysis built for the prop at [r] in game [g] from the
    matched edges [matched]. *)
Definition made_for (r : nat) (g : Game) (matched : list Edge) (a : PropAnalysis)
    : Prop :=
  prop a = r /\ game a = g /\ edges a = matched.

(** [x] is on file under the key [k]. *)
Definition filed {K V} (d : list (K * list V)) (k : K) (x : V) : Prop :=
  exists vs, In (k, vs) d /\ In x vs.

(** An edge with another listing of its supporting data. *)
Definition with_supporting_data (e : Edge) (d : list (string * PyValue)) : Edge :=
  {| edge_type := edge_type e; description := description e;
     affected_stats := affected_stats e; strength := strength e;
     supporting_data := d;
     benefiting_player_ids := benefiting_player_ids e;
     edge_game_id := edge_game_id e; edge_team_abbr := edge_team_abbr e;
     is_primary := is_primary e |}.

(** The analysis due for the prop at [r] once the loop over a team's
    edges [team_edges] has passed it, read against the store [s0]: when
    some edge is selected for the prop, the list [new] of appended
    analyses holds the one built from the selection. *)
Definition due (s0 : Store) (team_edges : list Edge) (g : Game) (r : nat)
    (new : list PropAnalysis) : Prop :=
  forall p0, store_props s0 !! r = Some p0 ->
    _find_edges_for_prop p0 team_edges <> [] ->
    exists a, In a new /\ made_for r g (_find_edges_for_prop p0 team_edges) a.

(** [any(p.team_abbr == team for p in player_props)], as a proposition. *)
Definition on_team (s : Store) (team : option string) (refs : list nat) : Prop :=
  exists r p, In r refs /\ store_props s !! r = Some p
              /\ str_eq_opt (team_abbr p) team = true.

(** What one turn of the loop over teams owes: when the team has a game
    on the slate, every prop of every player with a prop on the team has
    its due. *)
Definition team_due (s0 s : Store) (games : list Game)
    (props_by_player : list (string * list nat))
    (entry : option string * list Edge) (new : list PropAnalysis) : Prop :=
  forall g, _find_game_for_team (fst entry) games = Some g ->
  forall player, In player props_by_player ->
    on_team s (fst entry) (snd player) ->
    forall r, In r (snd player) -> due s0 (snd entry) g r new.

(** * Comparisons on rationals *)

Lemma Qleb_le a b : Qleb a b = true <-> a <= b.
Proof. apply Qle_bool_iff. Qed.

Lemma Qleb_gt a b : Qleb a b = false <-> b < a.
Proof.
  unfold Qleb. rewrite <- not_true_iff_false, Qle_bool_iff. split.
  - apply Qnot_le_lt.
  - apply Qlt_not_le.
Qed.

Lemma Qgeb_ge a b : Qgeb a b = true <-> b <= a.
Proof. apply Qleb_le. Qed.

Lemma Qgeb_lt a b : Qgeb a b = false <-> a < b.
Proof. apply Qleb_gt. Qed.

Lemma Qltb_lt a b : Qltb a b = true <-> a < b.
Proof. unfold Qltb. rewrite negb_true_iff. apply Qleb_gt. Qed.

Lemma Qltb_ge a b : Qltb a b = false <-> b <= a.
Proof. unfold Qltb. rewrite negb_false_iff. apply Qleb_le. Qed.

Lemma Qgtb_gt a b : Qgtb a b = true <-> b < a.
Proof. unfold Qgtb. rewrite negb_true_iff. apply Qleb_gt. Qed.

Lemma Qgtb_le a b : Qgtb a b = false <-> a <= b.
Proof. unfold Qgtb. rewrite negb_false_iff. apply Qleb_le. Qed.

Lemma Qeqb_eq a b : Qeqb a b = true <-> a == b.
Proof. apply Qeq_bool_iff. Qed.

Lemma Qeqb_neq a b : Qeqb a b = false <-> ~ a == b.
Proof. unfold Qeqb. rewrite <- not_true_iff_false, Qeq_bool_iff. tauto. Qed.

(** Case analysis on every rational test of the goal, leaving the order
    facts in the context. *)
Ltac qtest :=
  match goal with
  | |- context [Qgeb ?a ?b] =>
      let H := fresh "Hq" in
      destruct (Qgeb a b) eqn:H;
      [apply Qgeb_ge in H | apply Qgeb_lt in H]
  | |- context [Qltb ?a ?b] =>
      let H := fresh "Hq" in
      destruct (Qltb a b) eqn:H;
      [apply Qltb_lt in H | apply Qltb_ge in H]
  | |- context [Qgtb ?a ?b] =>
      let H := fresh "Hq" in
      destruct (Qgtb a b) eqn:H;
      [apply Qgtb_gt in H | apply Qgtb_le in H]
  | |- context [Qleb ?a ?b] =>
      let H := fresh "Hq" in
      destruct (Qleb a b) eqn:H;
      [apply Qleb_le in H | apply Qleb_gt in H]
  | |- context [Qeqb ?a ?b] =>
      let H := fresh "Hq" in
      destruct (Qeqb a b) eqn:H;
      [apply Qeqb_eq in H | apply Qeqb_neq in H]
  end.

Ltac qcases := repeat (qtest; cbv zeta).

(** [lra] does not read a division; quotients by a literal are turned
    into products first. *)
Ltac undiv :=
  unfold Qdiv in *;
  repeat match goal with
  | |- context [/ (Zpos ?n # ?d)] =>
      let v := eval vm_compute in (/ (Zpos n # d)) in
      change (/ (Zpos n # d)) with v
  | H : context [/ (Zpos ?n # ?d)] |- _ =>
      let v := eval vm_compute in (/ (Zpos n # d)) in
      change (/ (Zpos n # d)) with v in H
  end.

Ltac qlra := undiv; lra.

Lemma py_min_spec a b :
  (b < a /\ py_min a b = b) \/ (a <= b /\ py_min a b = a).
Proof. unfold py_min. qtest; auto. Qed.

Lemma py_max_spec a b :
  (a < b /\ py_max a b = b) \/ (b <= a /\ py_max a b = a).
Proof. unfold py_max. qtest; auto. Qed.

Lemma py_min_le_r a b : py_min a b <= b.
Proof. destruct (py_min_spec a b) as [[? ->]|[? ->]]; lra. Qed.

Lemma py_min_le_l a b : py_min a b <= a.
Proof. destruct (py_min_spec a b) as [[? ->]|[? ->]]; lra. Qed.

Lemma py_min_glb a b c : c <= a -> c <= b -> c <= py_min a b.
Proof. destruct (py_min_spec a b) as [[? ->]|[? ->]]; lra. Qed.

Lemma py_abs_nonneg a : 0 <= py_abs a.
Proof. unfold py_abs. qtest; lra. Qed.

(** * Edge strengths *)

Lemma injury_strength_bounds (injury : Injury) :
  0.3 <= _calculate_injury_edge_strength injury <= 0.9.
Proof.
  unfold _calculate_injury_edge_strength.
  destruct (String.eqb (status injury) "out"); cbv zeta;
    match goal with |- _ <= py_min ?a ?b <= _ =>
      destruct (py_min_spec a b) as [[Hm ->]|[Hm ->]]; revert Hm end;
    qcases; intros; lra.
Qed.

Lemma teammate_out_strength_bounds (injury : Injury) :
  0.2 <= _calculate_teammate_out_strength injury <= 0.6.
Proof.
  unfold _calculate_teammate_out_strength. cbv zeta.
  match goal with |- _ <= py_min ?a ?b <= _ =>
    destruct (py_min_spec a b) as [[Hm ->]|[Hm ->]]; revert Hm end;
  qcases; intros; lra.
Qed.

Lemma weakness_strength_bounds (rank : Z) :
  (16 <= rank)%Z -> 0.28 <= py_min (weakness_strength rank) 0.8 <= 0.8.
Proof.
  intros Hr. unfold weakness_strength.
  assert (Hq : -4 <= inject_Z (rank - 20)).
  { change (-4) with (inject_Z (-4)). rewrite <- Zle_Qle. lia. }
  destruct (py_min_spec (0.4 + inject_Z (rank - 20) * 0.03) 0.8)
    as [[Hm ->]|[Hm ->]]; lra.
Qed.

Lemma defensive_weakness_strengths (defense : TeamDefenseStats)
    (attacking defending : string) (game : Game) (e : Edge) :
  In e (_find_defensive_weakness_edges defense attacking defending game) ->
  0 <= strength e <= 1.
Proof.
  unfold _find_defensive_weakness_edges. cbv zeta.
  repeat match goal with
  | |- context [(?r >=? 16)%Z] =>
      let H := fresh "Hr" in
      destruct (Z.geb_spec r 16) as [H|H];
      [pose proof (weakness_strength_bounds r ltac:(lia)) | ]
  end;
  rewrite ?in_app_iff; simpl; intros Hin;
  repeat match type of Hin with
  | _ \/ _ => destruct Hin as [Hin|Hin]
  | False => destruct Hin
  | _ = e => subst e; simpl; lra
  end.
Qed.

Lemma high_pace_strength_bounds (game : Game) (home_pace away_pace avg : Q) :
  102.0 <= avg ->
  0.4 <= strength (high_pace_edge game home_pace away_pace avg) <= 0.6.
Proof.
  intros Ha. simpl.
  destruct (py_min_spec (0.3 + (avg - 100) * 0.05) 0.6) as [[Hm ->]|[Hm ->]]; lra.
Qed.

Lemma minutes_trend_strength (player : Player) (logs : list PlayerGameLog)
    (e : Edge) :
  _check_minutes_trend player logs = Some e -> strength e == 0.6.
Proof.
  unfold _check_minutes_trend. destruct (length logs <? 10)%nat; [discriminate|].
  cbv zeta.
  set (inc := mean (map minutes (py_slice 0 5 logs))
              - mean (map minutes (py_slice 5 10 logs))).
  qtest; [|discriminate]. intros [= <-]. cbn [strength].
  destruct (py_min_spec (0.3 + inc / 10) 0.6) as [[Hm ->]|[Hm ->]]; qlra.
Qed.

Lemma fold_left_Forall {A B} (P : B -> Prop) (step : list B -> A -> list B)
    (l : list A) (init : list B) :
  (forall acc x, Forall P acc -> Forall P (step acc x)) ->
  Forall P init -> Forall P (fold_left step l init).
Proof.
  intros Hstep. revert init. induction l as [|x l IH]; intros init Hinit; simpl;
    [exact Hinit | apply IH, Hstep, Hinit].
Qed.

Lemma Forall_snoc {A} (P : A -> Prop) (l : list A) (x : A) :
  Forall P l -> P x -> Forall P (l ++ [x]).
Proof. intros Hl Hx. apply Forall_app. split; [exact Hl | by constructor]. Qed.

(** Every edge of the injury detectors has its strength in [[0, 1]]. *)
Lemma opponent_injury_edges_strengths (env : Env) (injured_team : string)
    (injuries : list Injury) (benefiting_team : string) (game : Game) :
  Forall (fun e => 0 <= strength e <= 1)
    (_find_opponent_injury_edges env injured_team injuries benefiting_team game).
Proof.
  unfold _find_opponent_injury_edges.
  apply fold_left_Forall; [|constructor]. intros acc injury Hacc.
  destruct (negb _); [exact Hacc|].
  destruct (_get_affected_stats_from_injury injury); [exact Hacc|].
  destruct (Qltb _ _); [exact Hacc|].
  apply Forall_snoc; [exact Hacc|]. cbn [strength].
  pose proof (injury_strength_bounds injury). lra.
Qed.

Lemma teammate_out_edges_strengths (env : Env) (team : string)
    (injuries : list Injury) (game : Game) :
  Forall (fun e => 0 <= strength e <= 1)
    (_find_teammate_out_edges env team injuries game).
Proof.
  unfold _find_teammate_out_edges.
  apply fold_left_Forall; [|constructor]. intros acc injury Hacc.
  destruct (negb _); [exact Hacc|].
  destruct (_ && _); [exact Hacc|]. cbv zeta.
  destruct (Qltb _ _); [exact Hacc|].
  apply Forall_snoc; [exact Hacc|]. cbn [strength].
  pose proof (teammate_out_strength_bounds injury). lra.
Qed.

Lemma injury_edges_strengths (env : Env) (games : list Game) :
  Forall (fun e => 0 <= strength e <= 1) (find_injury_edges env games).
Proof.
  unfold find_injury_edges.
  apply fold_left_Forall; [|constructor]. intros acc game Hacc. cbv zeta.
  repeat (apply Forall_app; split);
    auto using opponent_injury_edges_strengths, teammate_out_edges_strengths.
Qed.

Lemma scheme_edges_strengths (env : Env) (games : list Game) :
  Forall (fun e => 0 <= strength e <= 1) (find_scheme_edges env games).
Proof.
  unfold find_scheme_edges.
  apply fold_left_Forall; [|constructor]. intros acc game Hacc.
  destruct (get_team_defensive_stats env (home_team_id game)); [|exact Hacc].
  destruct (get_team_defensive_stats env (away_team_id game)); [|exact Hacc].
  repeat (apply Forall_app; split); [exact Hacc | |];
    apply List.Forall_forall; intros e He;
    eapply defensive_weakness_strengths; exact He.
Qed.

(** A usage edge raised on the points test alone takes its strength from
    the change in attempts, which may be a drop: 40 per cent fewer
    attempts give 0.3 - 0.4. *)
Lemma usage_trend_strength_negative :
  exists e, _check_usage_trend (sample_player "LeBron James")
              fewer_shots_more_points = Some e
            /\ strength e == -0.1.
Proof. eexists. split; reflexivity. Qed.

(** When the root is exact the test on the variance is the test on the
    deviation. *)
Lemma stdev_gt_exact_root (l : list Q) (t root : Q) :
  0 <= t -> 0 <= root -> root * root == variance l ->
  (stdev_gt l t = true <-> t < root).
Proof.
  intros Ht Hr E. unfold stdev_gt. rewrite Qgtb_gt, <- E. split; intros H.
  - apply Qnot_le_lt. intros Hle.
    assert (root * root <= t * t) by nra. lra.
  - nra.
Qed.

(** The mismatch edge: strength [0.3 + 0.05 * |home - away|], with no cap. *)
Lemma pace_mismatch_strength (game : Game) (home_pace away_pace : Q) :
  3.0 <= py_abs (home_pace - away_pace) ->
  exists e, In e (pace_edges_for_game game home_pace away_pace)
            /\ strength e = 0.3 + py_abs (home_pace - away_pace) * 0.05.
Proof.
  intros Hd. unfold pace_edges_for_game. cbv zeta.
  apply Qgeb_ge in Hd. rewrite Hd.
  eexists. split; [apply in_app_iff; right; left; reflexivity|reflexivity].
Qed.

(** C2 does not hold of the code: paces of 120 and 100 differ by 20, and
    the mismatch edge [find_pace_edges] emits for that game has strength
    1.3, above the ceiling of 1 that the [Edge] schema documents and that
    every other detector formula keeps by a [min]. *)
Theorem pace_mismatch_strength_exceeds_one :
  exists e, In e (find_pace_edges sample_env [sample_game])
            /\ edge_type e = EdgeType.PACE
            /\ strength e == 1.3
            /\ ~ strength e <= 1.
Proof.
  eexists. split; [|split; [|split]].
  - vm_compute. right. left. reflexivity.
  - reflexivity.
  - reflexivity.
  - simpl. apply Qlt_not_le. reflexivity.
Qed.

(** C7: usage 28, 33 minutes per game and status "out" give
    0.3 + 0.2 + 0.1 + 0.1 = 0.7, under the cap of 1.0; the same sum on
    binary64 floats is the float 0.7. *)
Theorem injury_strength_example (who team kind note : string) :
  let injury :=
    {| inj_player_name := who; inj_team_abbr := team; status := "out";
       injury_type := kind; usage_rate := 28; minutes_per_game := 33;
       notes := note |} in
  _calculate_injury_edge_strength injury == 0.3 + 0.2 + 0.1 + 0.1
  /\ _calculate_injury_edge_strength injury == 0.7
  /\ _calculate_injury_edge_strength injury < 1.0
  /\ PrimFloat.eqb (_calculate_injury_edge_strength_float 28 33 "out")
       (0.3 + 0.2 + 0.1 + 0.1)%float = true
  /\ PrimFloat.eqb (_calculate_injury_edge_strength_float 28 33 "out") 0.7%float
     = true.
Proof.
  intros injury. repeat split; reflexivity.
Qed.

(** * The minutes gate *)

Lemma count_if_nonneg {A} (f : A -> bool) (l : list A) : (0 <= count_if f l)%Z.
Proof. unfold count_if. lia. Qed.

Lemma count_if_pos {A} (f : A -> bool) (l : list A) :
  (0 < count_if f l)%Z <-> Exists (fun x => f x = true) l.
Proof.
  unfold count_if. induction l as [|x l IH]; simpl.
  - split; [lia|]. intros H. inversion H.
  - destruct (f x) eqn:E; simpl.
    + split; [intros _; left; exact E | lia].
    + rewrite IH. split; [intros H; right; exact H|].
      intros H. inversion H; subst; [congruence | assumption].
Qed.

Lemma count_if_le_length {A} (f : A -> bool) (l : list A) :
  (count_if f l <= Z.of_nat (length l))%Z.
Proof.
  unfold count_if. apply inj_le. induction l as [|x l IH]; simpl; [lia|].
  destruct (f x); simpl; lia.
Qed.

Lemma py_take_nonneg {A} (n : Z) (l : list A) :
  (0 <= n)%Z -> py_take n l = take (Z.to_nat n) l.
Proof. intros H. unfold py_take. destruct (Z.leb_spec 0 n); [reflexivity|lia]. Qed.

Lemma exists_zero_minutes (logs : list PlayerGameLog) :
  Exists (fun g => Qeqb (minutes g) 0 = true) logs
  <-> Exists (fun m => m == 0) (map minutes logs).
Proof.
  induction logs as [|g logs IH]; simpl.
  - split; intros H; inversion H.
  - split; intros H; inversion H; subst.
    + left. apply Qeqb_eq. assumption.
    + right. apply IH. assumption.
    + left. apply Qeqb_eq. assumption.
    + right. apply IH. assumption.
Qed.

(** The verdict of the gate, without the notes. *)
Lemma validate_minutes_security_verdict (env : Env) (a : PropAnalysis) :
  (1 <= min_minutes_last_n (settings env))%Z ->
  let n := Z.to_nat (min_minutes_last_n (settings env)) in
  let floor := min_minutes_threshold (settings env) in
  (spec_gate_fatal n floor (player_game_logs a)
   /\ validate_minutes_security env a = Some (false, a))
  \/ (~ spec_gate_fatal n floor (player_game_logs a)
      /\ exists a', validate_minutes_security env a = Some (true, a')).
Proof.
  intros Hn n floor. unfold validate_minutes_security, spec_gate_fatal.
  fold floor. cbv zeta.
  destruct (player_game_logs a) as [|g logs] eqn:Hlogs.
  { left. split; [left; simpl; lia | reflexivity]. }
  destruct (Z.ltb_spec (Z.of_nat (length (g :: logs)))
              (min_minutes_last_n (settings env))) as [Hshort|Hlong].
  { left. split; [left; lia | reflexivity]. }
  rewrite py_take_nonneg by lia. fold n.
  destruct n as [|n'] eqn:Hn'; [lia|].
  assert (Hlen : ~ (length (g :: logs) < S n')%nat) by lia.
  rewrite firstn_cons.
  set (recent := g :: take n' logs) in *.
  set (avg := mean (map minutes recent)).
  destruct (Qltb avg floor) eqn:Havg.
  { apply Qltb_lt in Havg. left. split; [right; left; exact Havg | reflexivity]. }
  apply Qltb_ge in Havg.
  unfold stdev_gt.
  destruct ((1 <? length (map minutes recent))%nat
            && Qgtb (variance (map minutes recent)) (7.0 * 7.0)) eqn:Hvar.
  { apply andb_true_iff in Hvar as [Hl Hv]. apply Nat.ltb_lt in Hl.
    apply Qgtb_gt in Hv. left. split; [|reflexivity].
    right; right; left. split; [lia | lra]. }
  assert (Hvar' : ~ ((2 <= length (map minutes recent))%nat
                     /\ 7 * 7 < variance (map minutes recent))).
  { intros [Hl Hv]. apply andb_false_iff in Hvar as [Hvar|Hvar].
    - apply Nat.ltb_ge in Hvar. lia.
    - apply Qgtb_le in Hvar. lra. }
  destruct (Z.gtb_spec (count_if (fun g0 => Qeqb (minutes g0) 0) recent) 0)
    as [Hdnp|Hdnp].
  { left. split; [|reflexivity]. right; right; right.
    apply exists_zero_minutes, count_if_pos. lia. }
  right. split; [|eexists; reflexivity].
  intros [H|[H|[H|H]]]; [lia | lra | tauto |].
  apply exists_zero_minutes, count_if_pos in H. lia.
Qed.




(** A window of zero games is outside the theorem below: the average is
    then taken over an empty list and the call raises. *)
Lemma minutes_gate_zero_window_raises (env : Env) (a : PropAnalysis) :
  min_minutes_last_n (settings env) = 0%Z ->
  player_game_logs a <> [] ->
  validate_minutes_security env a = None.
Proof.
  intros Hn Hlogs. unfold validate_minutes_security. rewrite Hn.
  destruct (player_game_logs a) as [|g logs]; [contradiction|].
  destruct (Z.ltb_spec (Z.of_nat (length (g :: logs))) 0); [lia|].
  reflexivity.
Qed.



(** * The minutes-security score *)

Lemma unit_clamp_bounds (x : Q) : 0 <= py_max 0.0 (py_min 1.0 x) <= 1.
Proof.
  destruct (py_max_spec 0.0 (py_min 1.0 x)) as [[H ->]|[H ->]];
    [|lra].
  destruct (py_min_spec 1.0 x) as [[H' E]|[H' E]]; rewrite E in *; lra.
Qed.

(** The score before clamping, as the four factors leave it. *)
Lemma minutes_security_score_raw (env : Env) (a : PropAnalysis) :
  (3 <= length (player_game_logs a))%nat ->
  exists raw,
    calculate_minutes_security_score env a = py_max 0.0 (py_min 1.0 raw)
    /\ 0.5 - 1.25 <= raw <= 0.5 + 0.55.
Proof.
  intros Hlen. unfold calculate_minutes_security_score. cbv zeta.
  destruct (Nat.ltb_spec (length (player_game_logs a)) 3) as [H|_]; [lia|].
  set (recent := take (nat_min 10 (length (player_game_logs a)))
                      (player_game_logs a)).
  assert (Hrec : (length recent <= 10)%nat).
  { unfold recent. rewrite length_take. unfold nat_min.
    destruct (Nat.ltb_spec (length (player_game_logs a)) 10); lia. }
  set (dnps := count_if (fun g => Qeqb (minutes g) 0) recent).
  assert (Hd0 : 0 <= inject_Z dnps).
  { change 0 with (inject_Z 0). rewrite <- Zle_Qle. apply count_if_nonneg. }
  assert (Hd1 : inject_Z dnps <= 10).
  { change 10 with (inject_Z 10). rewrite <- Zle_Qle.
    pose proof (count_if_le_length (fun g => Qeqb (minutes g) 0) recent).
    fold dnps in H. lia. }
  eexists. split; [reflexivity|]. unfold stdev_lt, stdev_gt.
  destruct (1 <? length (map minutes recent))%nat;
  destruct (dnps =? 0)%Z;
  qcases; lra.
Qed.

(** C10: a history of fewer than three games (the empty one included)
    scores exactly 0.0; three games or more score the clamped sum that
    starts from 0.5; every score lies in [[0, 1]]. *)
Theorem minutes_security_score_short_history (env : Env) (a : PropAnalysis) :
  ((length (player_game_logs a) < 3)%nat ->
   calculate_minutes_security_score env a = 0.0)
  /\ ((3 <= length (player_game_logs a))%nat ->
      exists raw,
        calculate_minutes_security_score env a = py_max 0.0 (py_min 1.0 raw)
        /\ 0.5 - 1.25 <= raw <= 0.5 + 0.55)
  /\ 0 <= calculate_minutes_security_score env a <= 1.
Proof.
  split; [|split].
  - intros Hlen. unfold calculate_minutes_security_score.
    destruct (Nat.ltb_spec (length (player_game_logs a)) 3) as [_|H];
      [reflexivity | lia].
  - apply minutes_security_score_raw.
  - destruct (Nat.lt_ge_cases (length (player_game_logs a)) 3) as [Hlt|Hge].
    + unfold calculate_minutes_security_score.
      destruct (Nat.ltb_spec (length (player_game_logs a)) 3) as [_|H];
        [lra | lia].
    + destruct (minutes_security_score_raw env a Hge) as (raw & -> & _).
      apply unit_clamp_bounds.
Qed.

Lemma minutes_security_score_short_history_witness :
  (length (player_game_logs
     (sample_analysis "LeBron James" sample_game 0.6 (take 2 steady_logs))) < 3)%nat
  /\ calculate_minutes_security_score sample_env
       (sample_analysis "LeBron James" sample_game 0.6 (take 2 steady_logs)) = 0.0
  /\ calculate_minutes_security_score sample_env
       (sample_analysis "LeBron James" sample_game 0.6 []) = 0.0
  /\ calculate_minutes_security_score sample_env
       (sample_analysis "LeBron James" sample_game 0.6 steady_logs) == 1.
Proof.
  split; [simpl; lia|]. split; [|split].
  - apply (minutes_security_score_short_history sample_env
             (sample_analysis "LeBron James" sample_game 0.6 (take 2 steady_logs))).
    simpl; lia.
  - apply (minutes_security_score_short_history sample_env
             (sample_analysis "LeBron James" sample_game 0.6 [])).
    simpl; lia.
  - reflexivity.
Defined.

(** * Diversification *)

Lemma count_if_app {A} (f : A -> bool) (l1 l2 : list A) :
  count_if f (l1 ++ l2) = (count_if f l1 + count_if f l2)%Z.
Proof. unfold count_if. rewrite List.filter_app, length_app. lia. Qed.

Lemma count_if_single {A} (f : A -> bool) (x : A) :
  count_if f [x] = if f x then 1%Z else 0%Z.
Proof. unfold count_if. simpl. destruct (f x); reflexivity. Qed.

Lemma count_get_insert (d : gmap string Z) (k k' : string) (v : Z) :
  count_get (<[k := v]> d) k' = if String.eqb k k' then v else count_get d k'.
Proof.
  unfold count_get. destruct (String.eqb_spec k k') as [->|Hne].
  - by rewrite lookup_insert_eq.
  - by rewrite lookup_insert_ne.
Qed.

Lemma counts_agree_init :
  counts_agree {| selected := []; player_counts := ∅; game_counts := ∅ |}.
Proof. split; intros k; reflexivity. Qed.

Lemma diversify_step_selected (mpp mpg : Z) (st : DiversifyState)
    (a : PropAnalysis) :
  counts_agree st ->
  selected (diversify_step mpp mpg st a)
  = if (admitted_for_player (selected st) a >=? mpp)%Z
       || (admitted_for_game (selected st) a >=? mpg)%Z
    then selected st else selected st ++ [a].
Proof.
  intros [Hp Hg]. unfold diversify_step, admitted_for_player, admitted_for_game.
  cbv zeta. rewrite Hp, Hg.
  destruct (_ >=? mpp)%Z; [reflexivity|].
  destruct (_ >=? mpg)%Z; reflexivity.
Qed.

Lemma diversify_step_agree (mpp mpg : Z) (st : DiversifyState) (a : PropAnalysis) :
  counts_agree st -> counts_agree (diversify_step mpp mpg st a).
Proof.
  intros [Hp Hg]. unfold diversify_step. cbv zeta.
  destruct (_ >=? mpp)%Z; [split; assumption|].
  destruct (_ >=? mpg)%Z; [split; assumption|].
  split; intros k; cbn [selected player_counts game_counts];
    rewrite count_get_insert, count_if_app, count_if_single.
  - rewrite !Hp. destruct (String.eqb_spec (name (player a)) k) as [->|_];
      [reflexivity | lia].
  - rewrite !Hg. destruct (String.eqb_spec (game_id (game a)) k) as [->|_];
      [reflexivity | lia].
Qed.

Lemma diversify_fold_spec (mpp mpg : Z) (rest : list PropAnalysis)
    (st : DiversifyState) :
  counts_agree st ->
  selected (fold_left (diversify_step mpp mpg) rest st)
  = spec_diversify_from (selected st) rest mpp mpg.
Proof.
  revert st. induction rest as [|a rest IH]; intros st Hst; simpl; [reflexivity|].
  rewrite IH by (apply diversify_step_agree; exact Hst).
  rewrite diversify_step_selected by exact Hst.
  destruct (_ || _); reflexivity.
Qed.

Lemma diversify_picks_spec (ranked : list PropAnalysis) (mpp mpg : Z) :
  diversify_picks ranked mpp mpg = spec_diversify ranked mpp mpg.
Proof. apply diversify_fold_spec, counts_agree_init. Qed.

(** The pass extends the admitted list by a subsequence of what remains. *)
Lemma spec_diversify_from_sublist (mpp mpg : Z) (rest admitted : list PropAnalysis) :
  exists kept, spec_diversify_from admitted rest mpp mpg = admitted ++ kept
               /\ sublist kept rest.
Proof.
  revert admitted. induction rest as [|a rest IH]; intros admitted; simpl.
  - exists []. rewrite app_nil_r. split; [reflexivity|constructor].
  - destruct (_ || _).
    + destruct (IH admitted) as (kept & -> & Hs).
      exists kept. split; [reflexivity|]. by apply sublist_cons.
    + destruct (IH (admitted ++ [a])) as (kept & -> & Hs).
      exists (a :: kept). rewrite <- app_assoc. split; [reflexivity|].
      by apply sublist_skip.
Qed.

Lemma diversify_picks_spec_sublist (ranked : list PropAnalysis) (mpp mpg : Z) :
  sublist (diversify_picks ranked mpp mpg) ranked.
Proof.
  rewrite diversify_picks_spec. unfold spec_diversify.
  destruct (spec_diversify_from_sublist mpp mpg ranked []) as (kept & -> & Hs).
  exact Hs.
Qed.

(** One more ranked entry is decided on what was admitted before it. *)
Lemma spec_diversify_from_snoc (mpp mpg : Z) (rest admitted : list PropAnalysis)
    (a : PropAnalysis) :
  spec_diversify_from admitted (rest ++ [a]) mpp mpg
  = let before := spec_diversify_from admitted rest mpp mpg in
    if (admitted_for_player before a >=? mpp)%Z
       || (admitted_for_game before a >=? mpg)%Z
    then before else before ++ [a].
Proof.
  revert admitted. induction rest as [|b rest IH]; intros admitted; simpl.
  - destruct (_ || _); reflexivity.
  - destruct (_ || _); apply IH.
Qed.

Lemma same_player_keeps_top (a1 a2 a3 : PropAnalysis) (mpg : Z) :
  name (player a2) = name (player a1) ->
  name (player a3) = name (player a1) ->
  (1 <= mpg)%Z ->
  spec_diversify [a1; a2; a3] 1 mpg = [a1].
Proof.
  intros H2 H3 Hg. unfold spec_diversify. cbn [spec_diversify_from].
  unfold admitted_for_player at 1, admitted_for_game at 1.
  change (count_if _ []) with 0%Z.
  destruct (Z.geb_spec 0 1) as [H|_]; [lia|].
  destruct (Z.geb_spec 0 mpg) as [H|_]; [lia|].
  cbn [orb app]. unfold admitted_for_player.
  rewrite !count_if_single, H2, H3, !String.eqb_refl. reflexivity.
Qed.

(** C8: diversification is one greedy pass.  Its output is the
    subsequence of the ranked input in which an entry is skipped exactly
    when the entries admitted before it already hold [max_per_player]
    picks of its player or [max_per_game] picks of its game; the order of
    the input is kept.  Three analyses of one player with
    [max_per_player = 1] leave only the first. *)
Theorem diversify_picks_is_greedy_pass (ranked : list PropAnalysis) (mpp mpg : Z) :
  diversify_picks ranked mpp mpg = spec_diversify ranked mpp mpg
  /\ sublist (diversify_picks ranked mpp mpg) ranked
  /\ diversify_picks [] mpp mpg = []
  /\ (forall (pre : list PropAnalysis) (a : PropAnalysis),
        diversify_picks (pre ++ [a]) mpp mpg
        = let before := diversify_picks pre mpp mpg in
          if (admitted_for_player before a >=? mpp)%Z
             || (admitted_for_game before a >=? mpg)%Z
          then before else before ++ [a])
  /\ (forall a1 a2 a3 : PropAnalysis,
        name (player a2) = name (player a1) ->
        name (player a3) = name (player a1) ->
        (1 <= mpg)%Z ->
        diversify_picks [a1; a2; a3] 1 mpg = [a1]).
Proof.
  split; [apply diversify_picks_spec|]. split; [|split; [reflexivity|split]].
  - apply diversify_picks_spec_sublist.
  - intros pre a. rewrite !diversify_picks_spec. apply spec_diversify_from_snoc.
  - intros a1 a2 a3 H2 H3 Hg. rewrite diversify_picks_spec.
    by apply same_player_keeps_top.
Qed.

Lemma diversify_picks_is_greedy_pass_witness :
  diversify_picks
    [ sample_analysis "LeBron James" sample_game 0.9 steady_logs;
      sample_analysis "LeBron James" sample_game 0.8 steady_logs;
      sample_analysis "LeBron James" sample_game 0.7 steady_logs ] 1 2
  = [ sample_analysis "LeBron James" sample_game 0.9 steady_logs ].
Proof.
  apply (diversify_picks_is_greedy_pass [] 1 2); [reflexivity | reflexivity | lia].
Defined.

(** * Quality floor, diversification and truncation *)

Lemma py_take_sublist {A} (n : Z) (l : list A) : sublist (py_take n l) l.
Proof. unfold py_take. destruct (0 <=? n)%Z; apply sublist_take. Qed.

Lemma filter_sublist {A} (f : A -> bool) (l : list A) : sublist (List.filter f l) l.
Proof.
  induction l as [|x l IH]; simpl; [constructor|].
  destruct (f x); [by apply sublist_skip | by apply sublist_cons].
Qed.

Lemma Forall_filter_true {A} (f : A -> bool) (l : list A) :
  Forall (fun x => f x = true) (List.filter f l).
Proof.
  induction l as [|x l IH]; simpl; [constructor|].
  destruct (f x) eqn:E; [constructor; assumption | assumption].
Qed.

Lemma filter_all_true {A} (f : A -> bool) (l : list A) :
  Forall (fun x => f x = true) l -> List.filter f l = l.
Proof.
  induction 1 as [|x l Hx _ IH]; simpl; [reflexivity|].
  rewrite Hx, IH. reflexivity.
Qed.

Lemma filter_all_false {A} (f : A -> bool) (l : list A) :
  Forall (fun x => f x = false) l -> List.filter f l = [].
Proof.
  induction 1 as [|x l Hx _ IH]; simpl; [reflexivity|].
  rewrite Hx, IH. reflexivity.
Qed.

Lemma sublist_Forall {A} (P : A -> Prop) (l1 l2 : list A) :
  sublist l1 l2 -> Forall P l2 -> Forall P l1.
Proof.
  induction 1 as [|x l1 l2 _ IH|x l1 l2 _ IH]; intros H;
    [constructor | |]; inversion H; subst; [constructor|]; auto.
Qed.

Lemma spec_diversify_from_app (mpp mpg : Z) (l1 l2 admitted : list PropAnalysis) :
  spec_diversify_from admitted (l1 ++ l2) mpp mpg
  = spec_diversify_from (spec_diversify_from admitted l1 mpp mpg) l2 mpp mpg.
Proof.
  revert admitted. induction l1 as [|a l1 IH]; intros admitted; simpl;
    [reflexivity|]. destruct (_ || _); apply IH.
Qed.

(** A list ranked by descending confidence is the entries above the floor
    followed by the entries below it. *)
Lemma ranked_split (ranked : list PropAnalysis) :
  StronglySorted (fun a b => confidence_score b <= confidence_score a) ranked ->
  exists low, ranked = List.filter above_floor ranked ++ low
              /\ Forall (fun a => above_floor a = false) low.
Proof.
  induction 1 as [|a l Hs IH Ha]; simpl.
  - exists []. split; [reflexivity|constructor].
  - destruct (above_floor a) eqn:E.
    + destruct IH as (low & Hl & Hlow). exists low. split; [|exact Hlow].
      simpl. congruence.
    + assert (Hall : Forall (fun b => above_floor b = false) l).
      { eapply List.Forall_impl; [|exact Ha]. intros b Hb. cbv beta in Hb.
        unfold above_floor in *. apply Qgeb_lt in E. apply Qgeb_lt. lra. }
      rewrite (filter_all_false _ _ Hall). exists (a :: l).
      split; [reflexivity | constructor; assumption].
Qed.

(** On a ranked list the floor and the caps commute: capping first and
    dropping the entries below the floor afterwards admits exactly what
    capping the entries above the floor admits. *)
Lemma floor_after_diversify (ranked : list PropAnalysis) (mpp mpg : Z) :
  StronglySorted (fun a b => confidence_score b <= confidence_score a) ranked ->
  List.filter above_floor (diversify_picks ranked mpp mpg)
  = diversify_picks (List.filter above_floor ranked) mpp mpg.
Proof.
  intros Hs. destruct (ranked_split ranked Hs) as (low & Hr & Hlow).
  rewrite !diversify_picks_spec. unfold spec_diversify.
  rewrite Hr at 1. rewrite spec_diversify_from_app.
  destruct (spec_diversify_from_sublist mpp mpg (List.filter above_floor ranked) [])
    as (kept & -> & Hk). simpl.
  destruct (spec_diversify_from_sublist mpp mpg low kept) as (kept' & -> & Hk').
  rewrite List.filter_app.
  rewrite (filter_all_false above_floor kept')
    by (eapply sublist_Forall; eassumption).
  rewrite app_nil_r. apply filter_all_true.
  eapply sublist_Forall; [exact Hk | apply Forall_filter_true].
Qed.

(** C9: the pipeline caps the whole ranked list first and truncates last,
    so a capped entry is replaced by the next eligible one; no final pick
    is below the 0.4 floor, every final pick comes from the ranked list,
    and on a ranked list the caps admit nothing the floor excludes. *)
Theorem picks_diversified_before_truncation (env : Env)
    (ranked : list PropAnalysis) :
  let eligible := List.filter above_floor (diversify_picks ranked 1 2) in
  run_analysis_picks env ranked = py_take (max_picks (settings env)) eligible
  /\ Forall (fun a => 0.4 <= confidence_score a) (run_analysis_picks env ranked)
  /\ sublist (run_analysis_picks env ranked) ranked
  /\ ((0 <= max_picks (settings env))%Z ->
      length (run_analysis_picks env ranked)
      = Nat.min (Z.to_nat (max_picks (settings env))) (length eligible))
  /\ (StronglySorted (fun a b => confidence_score b <= confidence_score a) ranked ->
      eligible = diversify_picks (List.filter above_floor ranked) 1 2).
Proof.
  intros eligible.
  assert (Hrun : run_analysis_picks env ranked
                 = py_take (max_picks (settings env)) eligible) by reflexivity.
  split; [exact Hrun|]. split; [|split; [|split]].
  - rewrite Hrun. eapply sublist_Forall; [apply py_take_sublist|].
    eapply List.Forall_impl; [|apply Forall_filter_true].
    intros a Ha. apply Qgeb_ge in Ha. exact Ha.
  - rewrite Hrun. etransitivity; [apply py_take_sublist|].
    etransitivity; [apply filter_sublist|].
    apply (diversify_picks_spec_sublist ranked 1 2).
  - intros Hmax. rewrite Hrun, py_take_nonneg by exact Hmax.
    apply length_take.
  - apply floor_after_diversify.
Qed.

Lemma picks_diversified_before_truncation_witness :
  StronglySorted (fun a b => confidence_score b <= confidence_score a) sample_ranked
  /\ (0 <= max_picks (settings sample_env))%Z
  /\ List.filter above_floor (diversify_picks sample_ranked 1 2)
     = diversify_picks (List.filter above_floor sample_ranked) 1 2
  /\ length (run_analysis_picks sample_env sample_ranked) = 4%nat
  /\ map (fun a => name (player a)) (run_analysis_picks sample_env sample_ranked)
     = ["LeBron James"; "Jayson Tatum"; "Stephen Curry"; "Nikola Jokic"].
Proof.
  assert (Hs : StronglySorted
                 (fun a b => confidence_score b <= confidence_score a)
                 sample_ranked).
  { repeat constructor; vm_compute; discriminate. }
  split; [exact Hs|]. split; [vm_compute; discriminate|]. split; [|split].
  - apply (picks_diversified_before_truncation sample_env sample_ranked), Hs.
  - destruct (picks_diversified_before_truncation sample_env sample_ranked)
      as (_ & _ & _ & Hlen & _).
    rewrite Hlen; [reflexivity | vm_compute; discriminate].
  - reflexivity.
Defined.

(** * The projection range *)

Lemma fold_plus_acc (l : list Q) (acc : Q) :
  fold_left Qplus l acc == acc + Qsum l.
Proof.
  unfold Qsum. revert acc. induction l as [|x l IH]; intros acc; simpl.
  - ring.
  - rewrite (IH (acc + x)), (IH (0 + x)). ring.
Qed.

Lemma Qsum_cons (x : Q) (l : list Q) : Qsum (x :: l) == x + Qsum l.
Proof. unfold Qsum at 1. simpl. rewrite fold_plus_acc. ring. Qed.

(** The accumulation loop is the sum over the edges stronger than 0.5. *)
Lemma edge_adjustment_loop_from (edges : list Edge) (acc : Q) :
  fold_left (fun edge_adjustment edge =>
    if Qgtb (strength edge) 0.5
    then edge_adjustment + (strength edge - 0.5) * 2
    else edge_adjustment) edges acc
  == acc + Qsum (map (fun e => (strength e - 0.5) * 2)
                     (List.filter (fun e => Qgtb (strength e) 0.5) edges)).
Proof.
  revert acc. induction edges as [|e edges IH]; intros acc; simpl.
  - unfold Qsum. simpl. ring.
  - rewrite IH. destruct (Qgtb (strength e) 0.5); simpl.
    + rewrite Qsum_cons. ring.
    + reflexivity.
Qed.

Lemma edge_adjustment_loop_sum (edges : list Edge) :
  edge_adjustment_loop edges
  == Qsum (map (fun e => (strength e - 0.5) * 2)
               (List.filter (fun e => Qgtb (strength e) 0.5) edges)).
Proof. unfold edge_adjustment_loop. rewrite edge_adjustment_loop_from. ring. Qed.

Lemma edge_adjustment_loop_nonneg (edges : list Edge) :
  0 <= edge_adjustment_loop edges.
Proof.
  unfold edge_adjustment_loop.
  assert (H : forall acc, 0 <= acc ->
    0 <= fold_left (fun edge_adjustment edge =>
           if Qgtb (strength edge) 0.5
           then edge_adjustment + (strength edge - 0.5) * 2
           else edge_adjustment) edges acc).
  { induction edges as [|e edges IH]; intros acc Hacc; simpl; [exact Hacc|].
    apply IH. qtest; lra. }
  apply H. lra.
Qed.

Lemma clamp_min_max (x y : Q) :
  x == y -> py_min (py_max x (-2)) 4 == clamp (-2) 4 y.
Proof.
  intros E. unfold clamp.
  destruct (py_min_spec (py_max x (-2)) 4) as [[H ->]|[H ->]];
  destruct (py_max_spec x (-2)) as [[H' E']|[H' E']]; rewrite E' in *;
  qcases; lra.
Qed.

(** The adjustment the engine adds, and the reach of its clamp: the sum
    is never negative, so only the upper bound can act. *)
Lemma engine_edge_adjustment (edges : list Edge) :
  py_min (py_max (edge_adjustment_loop edges) (-2)) 4 == spec_edge_adjustment edges
  /\ 0 <= spec_edge_adjustment edges <= 4.
Proof.
  pose proof (clamp_min_max _ _ (edge_adjustment_loop_sum edges)) as E.
  split; [exact E|]. rewrite <- E.
  pose proof (edge_adjustment_loop_nonneg edges) as Hn.
  destruct (py_min_spec (py_max (edge_adjustment_loop edges) (-2)) 4)
    as [[H ->]|[H ->]]; [lra|].
  destruct (py_max_spec (edge_adjustment_loop edges) (-2)) as [[H' E']|[H' E']];
    rewrite E' in *; lra.
Qed.

Lemma fold_append_map {A B} (f : A -> B) (l : list A) (acc : list B) :
  fold_left (fun values x => values ++ [f x]) l acc = acc ++ map f l.
Proof.
  revert acc. induction l as [|x l IH]; intros acc; simpl.
  - by rewrite app_nil_r.
  - rewrite IH, <- app_assoc. reflexivity.
Qed.

Lemma fold_keep {A B} (l : list A) (acc : list B) :
  fold_left (fun values _ => values) l acc = acc.
Proof. revert acc. induction l as [|x l IH]; intros acc; simpl; auto. Qed.

(** The values the deviation is taken of. *)
Lemma _get_stat_values_category (c : StatCategory) (logs : list PlayerGameLog) :
  _get_stat_values logs (category_name c)
  = match spec_stat c with
    | Some f => map (fun g => inject_Z (f g)) logs
    | None => []
    end.
Proof.
  unfold _get_stat_values.
  destruct c; cbn; first [apply (fold_append_map _ logs []) | apply fold_keep].
Qed.

(** The values an average is taken of. *)
Lemma stat_values_category (c : StatCategory) (subset : list PlayerGameLog) :
  stat_values (category_name c) subset
  = match spec_stat c with
    | Some f => map (fun g => inject_Z (f g)) subset
    | None => [0]
    end.
Proof. destruct c; reflexivity. Qed.

Lemma avg_or_zero_category (c : StatCategory) (subset : list PlayerGameLog) :
  subset <> [] ->
  avg_or_zero (stat_values (category_name c) subset)
  == match spec_stat c with
     | Some f => mean (map (fun g => inject_Z (f g)) subset)
     | None => 0
     end.
Proof.
  intros Hne. rewrite stat_values_category.
  destruct (spec_stat c) as [f|].
  - destruct subset as [|g subset]; [contradiction|]. reflexivity.
  - reflexivity.
Qed.

(** The three entries of the averages dictionary the engine reads are
    always present once a history exists; the [prop.line] defaults of
    the lookups never apply. *)
Lemma weighted_averages_entries (logs : list PlayerGameLog) (stat : string) :
  logs <> [] ->
  let averages := calculate_weighted_averages logs stat [5; 10; 15]%Z in
  averages !! "last_5" = Some (avg_or_zero (stat_values stat (take 5 logs)))
  /\ averages !! "last_10" = Some (avg_or_zero (stat_values stat (take 10 logs)))
  /\ averages !! "season" = Some (avg_or_zero (stat_values stat logs)).
Proof.
  intros Hne. destruct logs as [|g logs]; [contradiction|].
  unfold calculate_weighted_averages. cbn [fold_left].
  change (window_key 5) with "last_5".
  change (window_key 10) with "last_10".
  change (window_key 15) with "last_15".
  change (py_take 5 (g :: logs)) with (g :: take 4 logs).
  change (py_take 10 (g :: logs)) with (g :: take 9 logs).
  change (py_take 15 (g :: logs)) with (g :: take 14 logs).
  cbv zeta. split; [|split].
  - rewrite !lookup_insert_ne by done. by rewrite lookup_insert_eq.
  - rewrite lookup_insert_ne by done. rewrite lookup_insert_ne by done.
    by rewrite lookup_insert_eq.
  - by rewrite lookup_insert_eq.
Qed.

Lemma take_nonempty {A} (n : nat) (l : list A) :
  l <> [] -> take (S n) l <> [].
Proof. destruct l; [contradiction | discriminate]. Qed.

(** What the engine computes, category by category. *)
Lemma projection_range_engine (env : Env) (c : StatCategory) (p : PlayerProp)
    (logs : list PlayerGameLog) (edges : list Edge) :
  prop_type p = category_name c ->
  range_eq (_calculate_projection_range env p logs edges)
           (engine_projection_range env c p logs edges).
Proof.
  intros Hc. unfold _calculate_projection_range, engine_projection_range.
  destruct logs as [|g logs'] eqn:Hlogs; [split; reflexivity|].
  rewrite <- Hlogs. assert (Hne : logs <> []) by (rewrite Hlogs; discriminate).
  clear Hlogs. cbv zeta. rewrite Hc.
  destruct (weighted_averages_entries logs (category_name c) Hne)
    as (H5 & H10 & Hall).
  unfold dict_get. rewrite H5, H10, Hall.
  rewrite !avg_or_zero_category by (try apply take_nonempty; exact Hne).
  destruct (engine_edge_adjustment edges) as [Hadj _].
  rewrite py_take_nonneg by lia. change (Z.to_nat 10) with 10%nat.
  rewrite _get_stat_values_category.
  unfold spec_window_average, spec_history_average, spec_trailing_values.
  set (adj := py_min (py_max (edge_adjustment_loop edges) (-2)) 4) in *.
  destruct (spec_stat c) as [f|].
  - set (values := map (fun g0 => inject_Z (f g0)) (take 10 logs)).
    assert (Hstd :
      (if (5 <=? length logs)%nat
       then match values with
            | [] => 2.0
            | _ :: _ => if (1 <? length values)%nat then stdev env values else 2.0
            end
       else 2.0)
      = (if (length logs <? 5)%nat || (length values <? 2)%nat
         then 2.0 else stdev env values)).
    { destruct (Nat.leb_spec 5 (length logs)) as [H|H];
      destruct (Nat.ltb_spec (length logs) 5) as [H'|H']; try lia; [|reflexivity].
      assert (Hv : (5 <= length values)%nat).
      { unfold values. rewrite length_map, length_take. lia. }
      destruct values as [|v values']; [simpl in Hv; lia|].
      destruct (Nat.ltb_spec 1 (length (v :: values')));
      destruct (Nat.ltb_spec (length (v :: values')) 2); try lia. reflexivity. }
    rewrite Hstd. split; cbn [fst snd]; rewrite <- Hadj; ring.
  - assert (Hstd :
      (if (5 <=? length logs)%nat then 2.0 else 2.0)
      = (if (length logs <? 5)%nat || (length (@nil Q) <? 2)%nat
         then 2.0 else stdev env [])).
    { rewrite orb_true_r. destruct (5 <=? length logs)%nat; reflexivity. }
    rewrite Hstd. split; cbn [fst snd]; rewrite <- Hadj; ring.
Qed.

(** Where the wording and the engine meet: between five and fifteen
    games of history. *)
Lemma projection_range_spec_agrees (env : Env) (c : StatCategory) (p : PlayerProp)
    (logs : list PlayerGameLog) (edges : list Edge) :
  (5 <= length logs <= 15)%nat ->
  engine_projection_range env c p logs edges
  = spec_projection_range env c p logs edges.
Proof.
  intros [Hlo Hhi]. unfold engine_projection_range, spec_projection_range.
  destruct logs as [|g logs'] eqn:Hlogs; [reflexivity|]. rewrite <- Hlogs in *.
  clear Hlogs. cbv zeta.
  assert (Hs : spec_window_average c 15 logs = spec_history_average c logs).
  { unfold spec_window_average, spec_history_average.
    rewrite take_ge by lia. reflexivity. }
  rewrite Hs. destruct (Nat.ltb_spec (length logs) 5) as [H|_]; [lia|].
  reflexivity.
Qed.

(** C6, as worded, fails: with three games of 7, 10 and 13 points the
    engine widens the baseline by the default 2.0, the wording by the
    sample deviation 3; with sixteen games the engine's third average
    runs over all sixteen, the wording's over fifteen. *)
Lemma projection_range_claim_counterexample :
  prop_type sample_prop = category_name CatPoints
  /\ range_eq (_calculate_projection_range sample_env sample_prop short_history [])
              (8, 12)
  /\ range_eq (spec_projection_range sample_env CatPoints sample_prop
                 short_history []) (7, 13)
  /\ ~ range_eq (_calculate_projection_range sample_env sample_prop short_history [])
                (spec_projection_range sample_env CatPoints sample_prop
                   short_history [])
  /\ ~ range_eq (_calculate_projection_range sample_env sample_prop long_history [])
                (spec_projection_range sample_env CatPoints sample_prop
                   long_history []).
Proof.
  split; [reflexivity|]. split; [split; reflexivity|].
  split; [split; reflexivity|]. split.
  - intros [H _]. vm_compute in H. discriminate H.
  - intros [H _]. vm_compute in H. discriminate H.
Qed.

(** C6, amended: for a prop of category [c] the range is
    [centre - std, centre + std] with
    [centre = 0.5 * avg5 + 0.3 * avg10 + 0.2 * avg_all + adjustment], the
    adjustment being the sum of [(strength - 0.5) * 2] over the matched
    edges stronger than 0.5 clamped to [[-2, 4]], and [std] the sample
    deviation of the trailing ten games when the history has at least
    five games (and the category has values), 2.0 otherwise; without
    history the range is [line - 2, line + 2].  Between five and fifteen
    games this is the range of the original wording. *)
Theorem projection_range_formula (env : Env) (c : StatCategory) (p : PlayerProp)
    (logs : list PlayerGameLog) (edges : list Edge) :
  prop_type p = category_name c ->
  range_eq (_calculate_projection_range env p logs edges)
           (engine_projection_range env c p logs edges)
  /\ (logs = [] ->
      _calculate_projection_range env p logs edges = (line p - 2, line p + 2))
  /\ ((5 <= length logs <= 15)%nat ->
      range_eq (_calculate_projection_range env p logs edges)
               (spec_projection_range env c p logs edges))
  /\ 0 <= spec_edge_adjustment edges <= 4.
Proof.
  intros Hc. split; [by apply projection_range_engine|]. split; [|split].
  - intros ->. reflexivity.
  - intros Hlen. rewrite <- projection_range_spec_agrees by exact Hlen.
    by apply projection_range_engine.
  - apply engine_edge_adjustment.
Qed.

Lemma projection_range_formula_witness :
  prop_type sample_prop = category_name CatPoints
  /\ range_eq (_calculate_projection_range sample_env sample_prop long_history [])
              (engine_projection_range sample_env CatPoints sample_prop
                 long_history [])
  /\ _calculate_projection_range sample_env sample_prop [] []
     = (line sample_prop - 2, line sample_prop + 2).
Proof.
  split; [reflexivity|]. split.
  - apply (projection_range_formula sample_env CatPoints sample_prop
             long_history []). reflexivity.
  - apply (projection_range_formula sample_env CatPoints sample_prop [] []);
      reflexivity.
Defined.

(** * Store computations *)

Lemma wp_ret {A} (a : A) (Q : A -> Store -> Prop) (s : Store) :
  Q a s -> wp (ret a) Q s.
Proof. intros H. exact H. Qed.

Lemma wp_bind {A B} (m : M A) (f : A -> M B) (Q : B -> Store -> Prop) (s : Store) :
  wp m (fun a s' => wp (f a) Q s') s -> wp (bind m f) Q s.
Proof.
  unfold wp, bind. destruct (m s) as [[a s']|]; [intros H; exact H | intros []].
Qed.

Lemma wp_mono {A} (m : M A) (Q Q' : A -> Store -> Prop) (s : Store) :
  wp m Q s -> (forall a s', Q a s' -> Q' a s') -> wp m Q' s.
Proof.
  unfold wp. destruct (m s) as [[a s']|]; [intros H HQ; apply HQ, H | intros []].
Qed.

Lemma wp_run {A} (m : M A) (Q : A -> Store -> Prop) (s : Store) :
  wp m Q s -> exists a s', m s = Some (a, s') /\ Q a s'.
Proof.
  unfold wp. destruct (m s) as [[a s']|]; [intros H; eauto | intros []].
Qed.

Lemma wp_of_run {A} (m : M A) (Q : A -> Store -> Prop) (s s' : Store) (a : A) :
  m s = Some (a, s') -> wp m Q s -> Q a s'.
Proof. unfold wp. intros ->. auto. Qed.

Lemma wp_get_prop (r : nat) (p : PlayerProp) (Q : PlayerProp -> Store -> Prop)
    (s : Store) :
  store_props s !! r = Some p -> Q p s -> wp (get_prop r) Q s.
Proof. intros Hr HQ. unfold wp, get_prop. rewrite Hr. exact HQ. Qed.

Lemma wp_put_prop (r : nat) (p p' : PlayerProp) (Q : unit -> Store -> Prop)
    (s : Store) :
  store_props s !! r = Some p ->
  Q tt {| store_props := <[r := p']> (store_props s);
          store_edges := store_edges s |} ->
  wp (put_prop r p') Q s.
Proof. intros Hr HQ. unfold wp, put_prop. rewrite Hr. exact HQ. Qed.

(** Loops: an invariant over the entries still to be visited. *)
Lemma wp_foldM {A B} (f : B -> A -> M B) (I : list A -> B -> Store -> Prop)
    (l : list A) (b : B) (s : Store) :
  I l b s ->
  (forall x rest b s, I (x :: rest) b s ->
                      wp (f b x) (fun b' s' => I rest b' s') s) ->
  wp (foldM f l b) (fun b' s' => I [] b' s') s.
Proof.
  intros HI Hstep. revert b s HI.
  induction l as [|x l IH]; intros b s HI; simpl.
  - apply wp_ret, HI.
  - apply wp_bind. eapply wp_mono; [apply Hstep, HI|].
    intros b' s' HI'. apply IH, HI'.
Qed.

(** * How props evolve *)

Lemma prop_evolves_refl (env : Env) (p : PlayerProp) : prop_evolves env p p.
Proof. unfold prop_evolves. repeat split; auto. Qed.

Lemma prop_evolves_trans (env : Env) (p1 p2 p3 : PlayerProp) :
  prop_evolves env p1 p2 -> prop_evolves env p2 p3 -> prop_evolves env p1 p3.
Proof.
  unfold prop_evolves.
  intros (N1 & G1 & O1 & T1 & L1 & V1 & U1 & B1 & H1 & F1 & A1 & I1)
         (N2 & G2 & O2 & T2 & L2 & V2 & U2 & B2 & H2 & F2 & A2 & I2).
  repeat split; try congruence.
  - destruct A2 as [A2|[A2 A2']]; destruct A1 as [A1|[A1 A1']].
    + left. congruence.
    + right. split; [exact A1|]. rewrite A2. exact A1'.
    + right. split; [congruence|]. rewrite <- N1. exact A2'.
    + right. split; [exact A1|]. rewrite <- N1. exact A2'.
  - destruct I2 as [I2|[I2 I2']]; destruct I1 as [I1|[I1 I1']].
    + left. congruence.
    + right. split; [exact I1|]. rewrite I2. exact I1'.
    + right. split; [congruence|]. rewrite <- N1. exact I2'.
    + right. split; [exact I1|]. rewrite <- N1. exact I2'.
Qed.

Lemma evolves_refl (env : Env) (s : Store) : evolves env s s.
Proof.
  split; [reflexivity|]. apply Forall2_same_length_lookup_2; [reflexivity|].
  intros i x y Hx Hy. rewrite Hx in Hy. injection Hy as <-.
  apply prop_evolves_refl.
Qed.

Lemma evolves_trans (env : Env) (s1 s2 s3 : Store) :
  evolves env s1 s2 -> evolves env s2 s3 -> evolves env s1 s3.
Proof.
  intros [E1 P1] [E2 P2]. split; [congruence|].
  eapply Forall2_trans; [|exact P1|exact P2].
  intros x y z. apply prop_evolves_trans.
Qed.

Lemma evolves_length (env : Env) (s s' : Store) :
  evolves env s s' -> length (store_props s') = length (store_props s).
Proof. intros [_ H]. symmetry. eapply Forall2_length, H. Qed.

Lemma evolves_lookup (env : Env) (s s' : Store) (r : nat) (p : PlayerProp) :
  evolves env s s' -> store_props s !! r = Some p ->
  exists p', store_props s' !! r = Some p' /\ prop_evolves env p p'.
Proof. intros [_ H] Hr. eapply Forall2_lookup_l; eassumption. Qed.

(** Overwriting one prop by an evolved version of itself. *)
Lemma evolves_insert (env : Env) (s : Store) (r : nat) (p p' : PlayerProp) :
  store_props s !! r = Some p -> prop_evolves env p p' ->
  evolves env s {| store_props := <[r := p']> (store_props s);
                   store_edges := store_edges s |}.
Proof.
  intros Hr Hp. split; [reflexivity|]. cbn [store_props].
  apply Forall2_same_length_lookup_2; [by rewrite length_insert|].
  intros i x y Hx Hy. destruct (decide (i = r)) as [->|Hne].
  - rewrite list_lookup_insert_eq in Hy by (eapply lookup_lt_Some; eassumption).
    injection Hy as <-. rewrite Hr in Hx. injection Hx as <-. exact Hp.
  - rewrite list_lookup_insert_ne in Hy by congruence.
    rewrite Hx in Hy. injection Hy as <-. apply prop_evolves_refl.
Qed.

(** * Matching edges to a prop *)

Lemma str_in_In (x : string) (l : list string) : str_in x l = true <-> In x l.
Proof.
  unfold str_in. rewrite existsb_exists. split.
  - intros (y & Hy & E). apply String.eqb_eq in E. by subst.
  - intros H. exists x. split; [exact H | apply String.eqb_refl].
Qed.

Lemma any_in_In (xs l : list string) :
  any_in xs l = true <-> exists x, In x xs /\ In x l.
Proof.
  unfold any_in. rewrite existsb_exists.
  split; intros (x & Hx & H); exists x; (split; [exact Hx|]); by apply str_in_In.
Qed.

Lemma combo_components_category (c : StatCategory) :
  combo_components (category_name c)
  = match spec_components c with
    | [] => None
    | cs => Some (map category_name cs)
    end.
Proof. destruct c; reflexivity. Qed.

(** The test of the engine on the strings of a category is the
    specification's notion of an edge satisfying that category. *)
Lemma edge_applies_spec (c : StatCategory) (e : Edge) :
  edge_applies (category_name c) e = true <-> spec_edge_satisfies c e.
Proof.
  unfold edge_applies, spec_edge_satisfies.
  rewrite orb_true_iff, str_in_In, combo_components_category.
  apply or_iff_compat_l.
  destruct (spec_components c) as [|c1 cs] eqn:E.
  - split; [discriminate | intros (c' & [] & _)].
  - rewrite <- E. clear E. rewrite any_in_In. split.
    + intros (x & Hx & Hin). apply in_map_iff in Hx as (c' & <- & Hc').
      exists c'. split; assumption.
    + intros (c' & Hc' & Hin). exists (category_name c').
      split; [apply in_map, Hc' | exact Hin].
Qed.

Lemma Edge_eqb_nonempty (e : Edge) (matching : list Edge) :
  edge_in e matching = true -> matching <> [].
Proof. destruct matching; [discriminate | discriminate]. Qed.

Lemma find_edges_step_skip (ptype : string) (matching : list Edge) (e : Edge) :
  edge_applies ptype e = false -> find_edges_step ptype matching e = matching.
Proof.
  unfold edge_applies, find_edges_step. intros H.
  apply orb_false_iff in H as [H1 H2]. rewrite H1. cbv zeta.
  destruct (combo_components ptype); [rewrite H2|]; reflexivity.
Qed.

Lemma find_edges_step_keep (ptype : string) (matching : list Edge) (e : Edge) :
  edge_applies ptype e = true ->
  exists added, find_edges_step ptype matching e = matching ++ added
                /\ Forall (eq e) added
                /\ find_edges_step ptype matching e <> [].
Proof.
  unfold edge_applies, find_edges_step. intros H. cbv zeta.
  destruct (str_in ptype (affected_stats e)) eqn:H1.
  - destruct (combo_components ptype) as [stats|].
    + destruct (any_in stats (affected_stats e)).
      * destruct (negb (edge_in e (matching ++ [e]))).
        -- exists [e; e]. rewrite <- app_assoc.
           split; [reflexivity|]. split; [repeat constructor|].
           intros E. by apply app_eq_nil in E as [_ E].
        -- exists [e]. split; [reflexivity|]. split; [repeat constructor|].
           intros E. by apply app_eq_nil in E as [_ E].
      * exists [e]. split; [reflexivity|]. split; [repeat constructor|].
        intros E. by apply app_eq_nil in E as [_ E].
    + exists [e]. split; [reflexivity|]. split; [repeat constructor|].
      intros E. by apply app_eq_nil in E as [_ E].
  - simpl in H. destruct (combo_components ptype) as [stats|]; [|discriminate].
    rewrite H. destruct (edge_in e matching) eqn:Hin; cbn [negb].
    + exists []. rewrite app_nil_r. split; [reflexivity|]. split; [constructor|].
      by apply (Edge_eqb_nonempty e).
    + exists [e]. split; [reflexivity|]. split; [repeat constructor|].
      intros E. by apply app_eq_nil in E as [_ E].
Qed.

Lemma find_edges_fold (ptype : string) (edges acc : list Edge) :
  exists added,
    fold_left (find_edges_step ptype) edges acc = acc ++ added
    /\ Forall (fun e => In e edges /\ edge_applies ptype e = true) added
    /\ (acc <> [] \/ existsb (edge_applies ptype) edges = true ->
        fold_left (find_edges_step ptype) edges acc <> []).
Proof.
  revert acc. induction edges as [|e edges IH]; intros acc; cbn [fold_left existsb].
  - exists []. rewrite app_nil_r. split; [reflexivity|]. split; [constructor|].
    intros [H|H]; [exact H | discriminate].
  - destruct (IH (find_edges_step ptype acc e)) as (added & Hf & Hall & Hne).
    destruct (edge_applies ptype e) eqn:Ha.
    + destruct (find_edges_step_keep ptype acc e Ha) as (new & Hs & Hnew & Hsne).
      specialize (Hne (or_introl Hsne)).
      rewrite Hf in Hne |- *. rewrite Hs in Hne |- *.
      rewrite <- app_assoc in Hne |- *.
      exists (new ++ added). split; [reflexivity|]. split.
      * apply Forall_app. split.
        -- eapply List.Forall_impl; [|exact Hnew]. intros x <-.
           split; [by left | exact Ha].
        -- eapply List.Forall_impl; [|exact Hall]. intros x [Hx Hx'].
           split; [by right | exact Hx'].
      * intros _. exact Hne.
    + rewrite find_edges_step_skip in * by exact Ha.
      exists added. split; [exact Hf|]. split.
      * eapply List.Forall_impl; [|exact Hall]. intros x [Hx Hx'].
        split; [by right | exact Hx'].
      * intros [H|H]; apply Hne; [by left | by right].
Qed.

(** The matched edges are drawn from the team's edges, each of them
    applies to the prop, and the selection is empty exactly when no edge
    of the team applies. *)
Lemma find_edges_for_prop_spec (p : PlayerProp) (team_edges : list Edge) :
  Forall (fun e => In e team_edges /\ edge_applies (prop_type p) e = true)
         (_find_edges_for_prop p team_edges)
  /\ (_find_edges_for_prop p team_edges <> []
      <-> exists e, In e team_edges /\ edge_applies (prop_type p) e = true).
Proof.
  unfold _find_edges_for_prop.
  destruct (find_edges_fold (prop_type p) team_edges []) as (added & Hf & Hall & Hne).
  rewrite Hf in *. cbn [app] in *. split; [exact Hall|]. split.
  - intros Hadd. destruct added as [|e added]; [contradiction|].
    inversion Hall; subst. eauto.
  - intros (e & He & Ha). apply Hne. right. apply existsb_exists. eauto.
Qed.

(** * The matchup engine *)

Lemma dict_append_Forall {K V} (eqb : K -> K -> bool) (P : K -> V -> Prop)
    (k : K) (x : V) (d : list (K * list V)) :
  (forall k', eqb k' k = true -> P k' x) ->
  Forall (fun entry => Forall (P (fst entry)) (snd entry)) d -> P k x ->
  Forall (fun entry => Forall (P (fst entry)) (snd entry)) (dict_append eqb k x d).
Proof.
  intros Heq Hd Hx. induction Hd as [|[k' vs] d Hvs Hd IH]; simpl.
  - repeat constructor. exact Hx.
  - destruct (eqb k' k) eqn:E.
    + constructor; [|exact Hd]. cbn [fst snd] in *.
      apply Forall_app. split; [exact Hvs|]. constructor; [|constructor].
      by apply Heq.
    + constructor; assumption.
Qed.

Lemma option_string_eqb_eq (a b : option string) :
  option_eqb String.eqb a b = true -> a = b.
Proof.
  destruct a, b; simpl; try discriminate; [|reflexivity].
  intros H. apply String.eqb_eq in H. by subst.
Qed.

(** The index of edges by team: every entry holds input edges whose
    benefiting team is the entry's key. *)
Lemma group_edges_by_team_from (edges : list Edge) :
  Forall (fun entry => Forall (fun e => In e edges /\ edge_team_abbr e = fst entry)
                              (snd entry))
         (group_edges_by_team edges).
Proof.
  unfold group_edges_by_team.
  assert (H : forall l acc,
    Forall (fun entry => Forall (fun e => In e edges /\ edge_team_abbr e = fst entry)
                                (snd entry)) acc ->
    Forall (fun e => In e edges) l ->
    Forall (fun entry => Forall (fun e => In e edges /\ edge_team_abbr e = fst entry)
                                (snd entry))
      (fold_left (fun edges_by_team edge =>
         dict_append (option_eqb String.eqb) (edge_team_abbr edge) edge
           edges_by_team) l acc)).
  { induction l as [|e l IH]; intros acc Hacc Hl; simpl; [exact Hacc|].
    inversion Hl; subst. apply IH; [|assumption].
    apply (dict_append_Forall _ (fun k e0 => In e0 edges /\ edge_team_abbr e0 = k));
      [|exact Hacc|by split].
    intros k' Hk'. apply option_string_eqb_eq in Hk'. by split. }
  apply H; [constructor|]. apply List.Forall_forall. auto.
Qed.

Lemma projection_range_same_prop (env : Env) (p p' : PlayerProp)
    (logs : list PlayerGameLog) (edges : list Edge) :
  prop_type p' = prop_type p -> line p' = line p ->
  _calculate_projection_range env p' logs edges
  = _calculate_projection_range env p logs edges.
Proof.
  intros Ht Hl. unfold _calculate_projection_range. rewrite Ht, Hl. reflexivity.
Qed.

Lemma determine_direction_same_prop (p p' : PlayerProp) (low high : Q) :
  line p' = line p -> _determine_direction p' low high = _determine_direction p low high.
Proof. intros Hl. unfold _determine_direction. rewrite Hl. reflexivity. Qed.

(** What has been established of an analysis survives later writes. *)
Lemma analysis_ok_evolves (env : Env) (games : list Game) (s s' : Store)
    (a : PropAnalysis) :
  evolves env s s' -> analysis_ok env games s a -> analysis_ok env games s' a.
Proof.
  intros Hev (p & Hp & Hne & Hed & Hteam & Hrange & Hmid & Hdir).
  destruct (evolves_lookup env s s' _ _ Hev Hp) as (p' & Hp' & Hpp).
  destruct Hev as [Hedges _].
  destruct Hpp as (_ & _ & _ & Ht & Hl & _).
  exists p'. split; [exact Hp'|]. split; [exact Hne|].
  split; [|split; [exact Hteam|split; [|split]]].
  - rewrite Hedges, Ht. exact Hed.
  - rewrite Hrange. symmetry. by apply projection_range_same_prop.
  - exact Hmid.
  - rewrite Hdir. symmetry. by apply determine_direction_same_prop.
Qed.

Lemma refs_valid_evolves {K} (env : Env) (s s' : Store) (d : list (K * list nat)) :
  evolves env s s' -> refs_valid s d -> refs_valid s' d.
Proof.
  intros Hev. unfold refs_valid. rewrite (evolves_length env s s' Hev). auto.
Qed.

(** [prop.team_abbr = team], for a prop whose team was unknown. *)
Lemma set_team_abbr_spec (env : Env) (r : nat) (p : PlayerProp) (team : string)
    (s : Store) :
  store_props s !! r = Some p ->
  team_abbr p = "UNK" ->
  player_name_to_team env !! player_name p = Some team ->
  wp (set_team_abbr r team)
     (fun _ s' => evolves env s s'
                  /\ store_props s' !! r = Some (with_team_abbr p team)) s.
Proof.
  intros Hr Hunk Hteam. unfold set_team_abbr.
  apply wp_bind. eapply wp_get_prop; [exact Hr|].
  eapply wp_put_prop; [exact Hr|]. split.
  - apply evolves_insert with (p := p); [exact Hr|].
    unfold prop_evolves. cbn. repeat split; auto.
  - cbn [store_props]. apply list_lookup_insert_eq.
    eapply lookup_lt_Some, Hr.
Qed.

(** [prop.player_id = pid], for a prop whose id was missing. *)
Lemma set_player_id_spec (env : Env) (r : nat) (p : PlayerProp) (pid : Z)
    (s : Store) :
  store_props s !! r = Some p ->
  player_id p = 0%Z ->
  In (player_name p, pid) (get_players env) ->
  wp (set_player_id r pid)
     (fun _ s' => evolves env s s'
                  /\ store_props s' !! r = Some (with_player_id p pid)) s.
Proof.
  intros Hr Hzero Hin. unfold set_player_id.
  apply wp_bind. eapply wp_get_prop; [exact Hr|].
  eapply wp_put_prop; [exact Hr|]. split.
  - apply evolves_insert with (p := p); [exact Hr|].
    unfold prop_evolves. cbn. repeat split; auto.
  - cbn [store_props]. apply list_lookup_insert_eq.
    eapply lookup_lt_Some, Hr.
Qed.

Lemma group_prop_spec (env : Env) (d : list (string * list nat)) (r : nat)
    (s : Store) :
  (r < length (store_props s))%nat ->
  wp (group_prop env d r)
     (fun d' s' => evolves env s s'
                   /\ exists p, store_props s !! r = Some p
                                /\ d' = dict_append String.eqb (player_name p) r d) s.
Proof.
  intros Hr. destruct (lookup_lt_is_Some_2 _ _ Hr) as [p Hp].
  unfold group_prop. apply wp_bind. eapply wp_get_prop; [exact Hp|].
  apply wp_bind.
  destruct (String.eqb (team_abbr p) "UNK") eqn:Hunk.
  - apply String.eqb_eq in Hunk.
    destruct (player_name_to_team env !! player_name p) as [team|] eqn:Hteam.
    + eapply wp_mono; [by apply (set_team_abbr_spec env r p team)|].
      intros _ s' [Hev _]. apply wp_ret. split; [exact Hev | eauto].
    + apply wp_ret. apply wp_ret. split; [apply evolves_refl | eauto].
  - apply wp_ret. apply wp_ret. split; [apply evolves_refl | eauto].
Qed.

(** The grouping loop: every reference it files is a valid one. *)
Lemma group_props_spec (env : Env) (s : Store) :
  wp (foldM (group_prop env) (seq 0 (length (store_props s))) [])
     (fun d s' => evolves env s s' /\ refs_valid s' d) s.
Proof.
  eapply wp_mono.
  - apply (wp_foldM (group_prop env)
             (fun rest d s' =>
                evolves env s s' /\ refs_valid s' d
                /\ Forall (fun r => (r < length (store_props s))%nat) rest)).
    + split; [apply evolves_refl|]. split; [constructor|].
      apply List.Forall_forall. intros r Hr. apply in_seq in Hr. lia.
    + intros r rest d s' (Hev & Hd & Hrest). inversion Hrest; subst.
      assert (Hr : (r < length (store_props s'))%nat)
        by (rewrite (evolves_length env s s' Hev); assumption).
      eapply wp_mono; [apply group_prop_spec, Hr|].
      intros d' s'' (Hev' & p & Hp & ->). split; [|split].
      * eapply evolves_trans; eassumption.
      * apply (dict_append_Forall _
                 (fun _ r0 => (r0 < length (store_props s''))%nat)).
        -- intros _ _. rewrite (evolves_length env s' s'' Hev'). exact Hr.
        -- eapply refs_valid_evolves; eassumption.
        -- rewrite (evolves_length env s' s'' Hev'). exact Hr.
      * assumption.
  - intros d s' (Hev & Hd & _). split; assumption.
Qed.

Lemma finish_prop_analysis_spec (env : Env) (r : nat) (pid : Z) (pl : Player)
    (opp : Team) (matched : list Edge) (g : Game) (s : Store) (p : PlayerProp) :
  store_props s !! r = Some p ->
  wp (finish_prop_analysis env r pid pl opp matched g)
     (fun res s' =>
        s' = s
        /\ exists a,
             res = Some a
             /\ prop a = r /\ edges a = matched /\ game a = g /\ player a = pl
             /\ (projected_low a, projected_high a)
                = _calculate_projection_range env p (player_game_logs a) matched
             /\ projected_mid a = (projected_low a + projected_high a) / 2
             /\ direction a
                = _determine_direction p (projected_low a) (projected_high a)) s.
Proof.
  intros Hp. unfold finish_prop_analysis. cbv zeta.
  apply wp_bind. eapply wp_get_prop; [exact Hp|]. apply wp_ret.
  split; [reflexivity|]. eexists. split; [reflexivity|]. cbn.
  repeat split; try reflexivity. symmetry. apply surjective_pairing.
Qed.

(** Building one analysis: at most the player id of the prop is written,
    and the analysis is the function of the prop as the store then has
    it. *)
Lemma create_prop_analysis_spec (env : Env) (r : nat) (matched : list Edge)
    (g : Game) (opponent_abbr : string) (s : Store) (p : PlayerProp) :
  store_props s !! r = Some p ->
  wp (_create_prop_analysis env r matched g opponent_abbr)
     (fun res s' =>
        evolves env s s'
        /\ exists a p',
             res = Some a
             /\ store_props s' !! r = Some p'
             /\ prop a = r /\ edges a = matched /\ game a = g
             /\ name (player a) = player_name p
             /\ (projected_low a, projected_high a)
                = _calculate_projection_range env p' (player_game_logs a) matched
             /\ projected_mid a = (projected_low a + projected_high a) / 2
             /\ direction a
                = _determine_direction p' (projected_low a) (projected_high a)) s.
Proof.
  intros Hp. unfold _create_prop_analysis.
  apply wp_bind. eapply wp_get_prop; [exact Hp|]. cbv zeta.
  apply wp_bind.
  assert (Hfinish : forall (s' : Store) (p' : PlayerProp) (found : Z * Player),
    evolves env s s' -> store_props s' !! r = Some p' ->
    name (snd found) = player_name p ->
    wp (finish_prop_analysis env r (fst found) (snd found)
          (opponent_team env opponent_abbr) matched g)
       (fun res s'' =>
          evolves env s s''
          /\ exists a p'',
               res = Some a
               /\ store_props s'' !! r = Some p''
               /\ prop a = r /\ edges a = matched /\ game a = g
               /\ name (player a) = player_name p
               /\ (projected_low a, projected_high a)
                  = _calculate_projection_range env p'' (player_game_logs a) matched
               /\ projected_mid a = (projected_low a + projected_high a) / 2
               /\ direction a
                  = _determine_direction p'' (projected_low a) (projected_high a))
       s').
  { intros s' p' found Hev Hp' Hname.
    eapply wp_mono; [by apply (finish_prop_analysis_spec env r _ _ _ _ _ s' p')|].
    intros res s'' (-> & a & -> & Hr & He & Hg & Hpl & Hrange & Hmid & Hdir).
    split; [exact Hev|]. exists a, p'. rewrite Hpl. auto 10. }
  destruct (player_id p =? 0)%Z eqn:Hzero.
  - destruct (List.find _ (get_players env)) as [[nm pid']|] eqn:Hfind.
    + apply find_some in Hfind as [Hin Hnm]. cbn [fst] in Hnm.
      apply String.eqb_eq in Hnm. subst nm. apply Z.eqb_eq in Hzero.
      apply wp_bind.
      eapply wp_mono; [by apply (set_player_id_spec env r p pid')|].
      intros _ s' [Hev Hp']. apply wp_ret.
      eapply Hfinish; [exact Hev | exact Hp' | reflexivity].
    + apply wp_ret. eapply Hfinish; [apply evolves_refl | exact Hp | reflexivity].
  - apply wp_ret. eapply Hfinish; [apply evolves_refl | exact Hp | reflexivity].
Qed.

(** The body of the innermost loop: an analysis is appended exactly when
    some edge of the team applies to the prop. *)
Lemma match_prop_spec (env : Env) (games : list Game) (team : option string)
    (team_edges : list Edge) (g : Game)
    (opponent_abbr : string) (analyses : list PropAnalysis) (r : nat)
    (s : Store) (p : PlayerProp) :
  store_props s !! r = Some p ->
  _find_game_for_team team games = Some g ->
  Forall (fun e => In e (store_edges s) /\ edge_team_abbr e = team) team_edges ->
  Forall (analysis_ok env games s) analyses ->
  wp (match_prop env team_edges g opponent_abbr analyses r)
     (fun analyses' s' =>
        evolves env s s' /\ Forall (analysis_ok env games s') analyses') s.
Proof.
  intros Hp Hgame Hteam Hok. unfold match_prop.
  apply wp_bind. eapply wp_get_prop; [exact Hp|].
  destruct (find_edges_for_prop_spec p team_edges) as [Hall Hiff].
  destruct (_find_edges_for_prop p team_edges) as [|e matched] eqn:Hm.
  - apply wp_ret. split; [apply evolves_refl | exact Hok].
  - apply wp_bind.
    eapply wp_mono; [by apply (create_prop_analysis_spec env r _ g _ s p)|].
    intros res s' (Hev & a & p' & -> & Hp' & Hr & He & Hg & Hn & Hrange & Hmid & Hdir).
    apply wp_ret. split; [exact Hev|].
    apply Forall_app. split.
    + eapply List.Forall_impl; [|exact Hok]. intros a0.
      by apply analysis_ok_evolves.
    + constructor; [|constructor]. exists p'. rewrite Hr, He, Hg.
      split; [exact Hp'|]. split; [discriminate|].
      destruct (evolves_lookup env s s' r p Hev Hp) as (p'' & Hp'' & Hpp).
      rewrite Hp' in Hp''. injection Hp'' as <-.
      destruct Hpp as (_ & _ & _ & Ht & _). destruct Hev as [Hedges _].
      rewrite List.Forall_forall in Hteam.
      split; [|split; [|split; [|split]]].
      * rewrite Hedges, Ht. eapply List.Forall_impl; [|exact Hall].
        intros e0 [Hin Ha]. split; [|exact Ha]. by apply Hteam.
      * exists team. split; [exact Hgame|].
        eapply List.Forall_impl; [|exact Hall].
        intros e0 [Hin _]. by apply Hteam.
      * exact Hrange.
      * exact Hmid.
      * exact Hdir.
Qed.

(** Reading props changes nothing and succeeds on valid references. *)
Lemma mapM_get_prop_spec (refs : list nat) (s : Store) :
  Forall (fun r => (r < length (store_props s))%nat) refs ->
  wp (mapM get_prop refs)
     (fun ps s' => s' = s
                   /\ Forall2 (fun r p => store_props s !! r = Some p) refs ps) s.
Proof.
  induction 1 as [|r refs Hr _ IH]; simpl.
  - apply wp_ret. split; [reflexivity|constructor].
  - destruct (lookup_lt_is_Some_2 _ _ Hr) as [p Hp].
    apply wp_bind. eapply wp_get_prop; [exact Hp|].
    apply wp_bind. eapply wp_mono; [exact IH|].
    intros ps s' [-> Hps]. apply wp_ret.
    split; [reflexivity | constructor; assumption].
Qed.

Lemma any_on_team_spec (team : option string) (refs : list nat) (s : Store) :
  Forall (fun r => (r < length (store_props s))%nat) refs ->
  wp (any_on_team team refs)
     (fun b s' =>
        s' = s
        /\ (b = true <-> exists r p, In r refs /\ store_props s !! r = Some p
                                     /\ str_eq_opt (team_abbr p) team = true)) s.
Proof.
  intros Hrefs. unfold any_on_team. apply wp_bind.
  eapply wp_mono; [by apply mapM_get_prop_spec|].
  intros ps s' [-> Hps]. apply wp_ret. split; [reflexivity|].
  rewrite existsb_exists. split.
  - intros (p & Hin & Ht).
    apply list_elem_of_In, list_elem_of_lookup in Hin as [i Hi].
    destruct (Forall2_lookup_r _ _ _ _ _ Hps Hi) as (r & Hr & Hrp).
    exists r, p. split; [|split; assumption].
    apply list_elem_of_In, list_elem_of_lookup. eauto.
  - intros (r & p & Hin & Hr & Ht).
    apply list_elem_of_In, list_elem_of_lookup in Hin as [i Hi].
    destruct (Forall2_lookup_l _ _ _ _ _ Hps Hi) as (p' & Hp' & Hrp).
    rewrite Hr in Hrp. injection Hrp as <-.
    exists p. split; [|exact Ht].
    apply list_elem_of_In, list_elem_of_lookup. eauto.
Qed.

Lemma team_players_with_props_spec (team : option string)
    (d : list (string * list nat)) (s : Store) :
  refs_valid s d ->
  wp (filterM (fun entry => any_on_team team (snd entry)) d)
     (fun d' s' => s' = s /\ refs_valid s d') s.
Proof.
  induction 1 as [|entry d Hentry _ IH]; simpl.
  - apply wp_ret. split; [reflexivity|constructor].
  - apply wp_bind. eapply wp_mono; [by apply any_on_team_spec|].
    intros b s' [-> _]. apply wp_bind. eapply wp_mono; [exact IH|].
    intros d' s' [-> Hd']. apply wp_ret. split; [reflexivity|].
    destruct b; [constructor|]; assumption.
Qed.

(** The body of the loop over teams. *)
Lemma match_team_spec (env : Env) (games : list Game)
    (props_by_player : list (string * list nat)) (analyses : list PropAnalysis)
    (entry : option string * list Edge) (s : Store) :
  refs_valid s props_by_player ->
  Forall (fun e => In e (store_edges s) /\ edge_team_abbr e = fst entry)
         (snd entry) ->
  Forall (analysis_ok env games s) analyses ->
  wp (match_team env games props_by_player analyses entry)
     (fun analyses' s' =>
        evolves env s s' /\ Forall (analysis_ok env games s') analyses') s.
Proof.
  intros Hrefs Hentry Hok. unfold match_team. cbv zeta.
  destruct (_find_game_for_team (fst entry) games) as [g|] eqn:Hgame.
  2:{ apply wp_ret. split; [apply evolves_refl | exact Hok]. }
  apply wp_bind. eapply wp_mono; [by apply team_players_with_props_spec|].
  intros players s' [-> Hplayers].
  set (opp := if str_eq_opt (home_team_abbr g) (fst entry)
              then away_team_abbr g else home_team_abbr g).
  eapply wp_mono.
  - apply (wp_foldM _ (fun rest acc s' =>
             evolves env s s' /\ Forall (analysis_ok env games s') acc
             /\ refs_valid s' rest)).
    + split; [apply evolves_refl|]. split; assumption.
    + intros [nm refs] rest acc s' (Hev & Hacc & Hrest).
      inversion Hrest as [|? ? Hrefs' Hrest']; subst. cbn [snd] in *.
      eapply wp_mono.
      * apply (wp_foldM _ (fun todo acc' s'' =>
                 evolves env s s'' /\ Forall (analysis_ok env games s'') acc'
                 /\ Forall (fun r => (r < length (store_props s''))%nat) todo)).
        -- split; [exact Hev|]. split; assumption.
        -- intros r todo acc' s'' (Hev' & Hacc' & Htodo).
           inversion Htodo as [|? ? Hr Htodo']; subst.
           destruct (lookup_lt_is_Some_2 _ _ Hr) as [p Hp].
           eapply wp_mono.
           ++ apply (match_prop_spec env games (fst entry) (snd entry) g opp
                       acc' r s'' p); [exact Hp | exact Hgame | | exact Hacc'].
              destruct Hev' as [-> _]. exact Hentry.
           ++ intros acc'' s3 (Hev3 & Hacc3). split; [|split].
              ** eapply evolves_trans; eassumption.
              ** exact Hacc3.
              ** rewrite (evolves_length env s'' s3 Hev3). exact Htodo'.
      * intros acc' s'' (Hev' & Hacc' & _). split; [exact Hev'|].
        split; [exact Hacc'|].
        assert (Hlen : length (store_props s'') = length (store_props s'))
          by (rewrite (evolves_length env s s'' Hev'),
                      (evolves_length env s s' Hev); reflexivity).
        unfold refs_valid. rewrite Hlen. exact Hrest'.
  - intros acc s' (Hev & Hacc & _). split; assumption.
Qed.

(** The engine never faults; when it returns, the store has evolved from
    the one it was called on and every analysis is well built. *)
Lemma match_edges_to_props_spec (env : Env) (games : list Game) (s : Store) :
  wp (match_edges_to_props env games)
     (fun analyses s' =>
        evolves env s s' /\ Forall (analysis_ok env games s') analyses) s.
Proof.
  unfold match_edges_to_props.
  apply wp_bind. unfold wp at 1, read_edges.
  apply wp_bind. unfold wp at 1, prop_refs. cbv zeta.
  apply wp_bind. eapply wp_mono; [apply group_props_spec|].
  intros props_by_player s1 [Hev1 Hrefs].
  eapply wp_mono.
  - apply (wp_foldM _ (fun rest acc s' =>
             evolves env s s' /\ Forall (analysis_ok env games s') acc
             /\ refs_valid s' props_by_player
             /\ Forall (fun entry =>
                          Forall (fun e => In e (store_edges s)
                                           /\ edge_team_abbr e = fst entry)
                                 (snd entry)) rest)).
    + split; [exact Hev1|]. split; [constructor|]. split; [exact Hrefs|].
      apply group_edges_by_team_from.
    + intros entry rest acc s' (Hev & Hacc & Hrefs' & Hrest).
      inversion Hrest as [|? ? Hentry Hrest']; subst.
      eapply wp_mono.
      * apply (match_team_spec env games props_by_player acc entry s');
          [exact Hrefs' | | exact Hacc].
        destruct Hev as [-> _]. exact Hentry.
      * intros acc' s'' [Hev' Hacc']. split; [|split; [|split]].
        -- eapply evolves_trans; eassumption.
        -- exact Hacc'.
        -- eapply refs_valid_evolves; eassumption.
        -- exact Hrest'.
  - intros acc s' (Hev & Hacc & _). split; assumption.
Qed.

(** * Direction *)

Lemma determine_direction_over (p : PlayerProp) (low high : Q) :
  _determine_direction p low high = "over" <-> line p < (low + high) / 2.
Proof.
  unfold _determine_direction. cbv zeta. qtest.
  - split; [intros _; exact Hq | reflexivity].
  - split; [discriminate | intros H; lra].
Qed.

Lemma determine_direction_under (p : PlayerProp) (low high : Q) :
  _determine_direction p low high = "under" <-> (low + high) / 2 <= line p.
Proof.
  unfold _determine_direction. cbv zeta. qtest.
  - split; [discriminate | intros H; lra].
  - split; [intros _; exact Hq | reflexivity].
Qed.

(** C1: the engine always returns, and for every analysis it returns the
    direction is "over" exactly when the midpoint of the projected range
    is above the line of the analysis's prop, and "under" otherwise, a
    midpoint equal to the line included.  The line is the one the prop
    had when the engine was called. *)
Theorem direction_follows_midpoint (env : Env) (games : list Game) (s : Store) :
  exists analyses s',
    match_edges_to_props env games s = Some (analyses, s')
    /\ Forall (fun a =>
         exists p0 p,
           store_props s !! prop a = Some p0
           /\ store_props s' !! prop a = Some p
           /\ line p = line p0
           /\ projected_mid a = (projected_low a + projected_high a) / 2
           /\ (direction a = "over"
               <-> line p < (projected_low a + projected_high a) / 2)
           /\ (direction a = "under"
               <-> (projected_low a + projected_high a) / 2 <= line p)
           /\ ((projected_low a + projected_high a) / 2 == line p ->
               direction a = "under")) analyses.
Proof.
  destruct (wp_run _ _ _ (match_edges_to_props_spec env games s))
    as (analyses & s' & Hrun & Hev & Hok).
  exists analyses, s'. split; [exact Hrun|].
  eapply List.Forall_impl; [|exact Hok].
  intros a (p & Hp & _ & _ & _ & _ & Hmid & Hdir).
  destruct Hev as [_ Hprops].
  destruct (Forall2_lookup_r _ _ _ _ _ Hprops Hp) as (p0 & Hp0 & Hpp).
  destruct Hpp as (_ & _ & _ & _ & Hl & _).
  exists p0, p. rewrite Hdir.
  split; [exact Hp0|]. split; [exact Hp|]. split; [exact Hl|].
  split; [exact Hmid|]. split; [apply determine_direction_over|].
  split; [apply determine_direction_under|].
  intros E. apply determine_direction_under. lra.
Qed.

(** * The frame of the engine *)

Lemma prop_evolves_known (env : Env) (p p' : PlayerProp) :
  prop_evolves env p p' ->
  team_abbr p <> "UNK" -> player_id p <> 0%Z -> p' = p.
Proof.
  intros (N & G & O & T & L & V & U & B & H & F & A & I) Hteam Hid.
  destruct A as [A|[A _]]; [|contradiction].
  destruct I as [I|[I _]]; [|contradiction].
  destruct p, p'. cbn in *. congruence.
Qed.

(** C3, as worded, fails: on the sample call the first prop comes back
    with its team back-filled from "UNK" to "LAL" and its player id
    cached from 0 to 2544. *)
Lemma engine_mutates_props_counterexample :
  exists analyses s',
    match_edges_to_props sample_env [sample_game] sample_store
    = Some (analyses, s')
    /\ store_props s' <> store_props sample_store
    /\ team_abbr <$> store_props sample_store !! 0%nat = Some "UNK"
    /\ team_abbr <$> store_props s' !! 0%nat = Some "LAL"
    /\ player_id <$> store_props sample_store !! 0%nat = Some 0%Z
    /\ player_id <$> store_props s' !! 0%nat = Some 2544%Z.
Proof.
  destruct (match_edges_to_props sample_env [sample_game] sample_store)
    as [[analyses s']|] eqn:Hrun; [|vm_compute in Hrun; discriminate Hrun].
  exists analyses, s'. split; [reflexivity|].
  vm_compute in Hrun. injection Hrun as <- <-.
  split; [discriminate|]. repeat split; reflexivity.
Qed.

(** C3, amended: the engine always returns; it leaves every input edge
    and every field of every input prop as it was, except that a prop
    whose team was "UNK" may come back with the team the league table
    gives for its player, and a prop whose player id was 0 may come back
    with the id the static player list gives for its name.  A prop with
    a known team and a known id is returned unchanged. *)
Theorem engine_frame (env : Env) (games : list Game) (s : Store) :
  exists analyses s',
    match_edges_to_props env games s = Some (analyses, s')
    /\ store_edges s' = store_edges s
    /\ length (store_props s') = length (store_props s)
    /\ (forall r p, store_props s !! r = Some p ->
          exists p', store_props s' !! r = Some p'
                     /\ prop_evolves env p p'
                     /\ (team_abbr p <> "UNK" -> player_id p <> 0%Z -> p' = p)).
Proof.
  destruct (wp_run _ _ _ (match_edges_to_props_spec env games s))
    as (analyses & s' & Hrun & Hev & _).
  exists analyses, s'. split; [exact Hrun|].
  split; [apply Hev|]. split; [eapply evolves_length, Hev|].
  intros r p Hp. destruct (evolves_lookup env s s' r p Hev Hp) as (p' & Hp' & Hpp).
  exists p'. split; [exact Hp'|]. split; [exact Hpp|].
  by apply (prop_evolves_known env).
Qed.

Lemma engine_frame_witness :
  exists analyses s',
    match_edges_to_props sample_env [sample_game] sample_store
    = Some (analyses, s')
    /\ store_edges s' = store_edges sample_store
    /\ store_props s' !! 1%nat = store_props sample_store !! 1%nat.
Proof.
  destruct (engine_frame sample_env [sample_game] sample_store)
    as (analyses & s' & Hrun & Hedges & _ & Hprops).
  exists analyses, s'. split; [exact Hrun|]. split; [exact Hedges|].
  destruct (Hprops 1%nat _ eq_refl) as (p' & -> & _ & Hsame).
  rewrite Hsame; [reflexivity | discriminate | discriminate].
Defined.

(** * When an analysis is produced *)

Lemma match_prop_produces (env : Env) (team_edges : list Edge) (g : Game)
    (opponent_abbr : string) (analyses : list PropAnalysis) (r : nat)
    (s : Store) (p : PlayerProp) :
  store_props s !! r = Some p ->
  wp (match_prop env team_edges g opponent_abbr analyses r)
     (fun analyses' _ =>
        (~ (exists e, In e team_edges /\ edge_applies (prop_type p) e = true)
         /\ analyses' = analyses)
        \/ ((exists e, In e team_edges /\ edge_applies (prop_type p) e = true)
            /\ exists a, analyses' = analyses ++ [a]
                         /\ prop a = r
                         /\ edges a = _find_edges_for_prop p team_edges)) s.
Proof.
  intros Hp. unfold match_prop.
  apply wp_bind. eapply wp_get_prop; [exact Hp|].
  destruct (find_edges_for_prop_spec p team_edges) as [_ Hiff].
  destruct (_find_edges_for_prop p team_edges) as [|e matched] eqn:Hm.
  - apply wp_ret. left. split; [|reflexivity]. intros H. apply Hiff in H.
    by apply H.
  - apply wp_bind.
    eapply wp_mono; [by apply (create_prop_analysis_spec env r _ g _ s p)|].
    intros res s' (_ & a & p' & -> & _ & Hr & He & _).
    apply wp_ret. right. split; [apply Hiff; discriminate|].
    exists a. auto.
Qed.

Lemma assists_edge_example (e : Edge) :
  affected_stats e = ["assists"] ->
  spec_edge_satisfies CatPtsAsts e /\ ~ spec_edge_satisfies CatRebounds e.
Proof.
  intros Ha. rewrite <- !edge_applies_spec. unfold edge_applies. rewrite Ha.
  split; [reflexivity | discriminate].
Qed.

Lemma direction_follows_midpoint_witness :
  exists analyses s',
    match_edges_to_props sample_env [sample_game] sample_store
    = Some (analyses, s')
    /\ map direction analyses = ["under"]
    /\ map (fun a => Qeqb ((projected_low a + projected_high a) / 2) 33.5)
           analyses = [true].
Proof.
  destruct (direction_follows_midpoint sample_env [sample_game] sample_store)
    as (analyses & s' & Hrun & _).
  exists analyses, s'. split; [exact Hrun|].
  vm_compute in Hrun. injection Hrun as <- <-. split; reflexivity.
Defined.

(** * More on matching edges to a prop *)

Lemma list_eqb_refl {A} (eqb : A -> A -> bool) (l : list A) :
  (forall x, eqb x x = true) -> list_eqb eqb l l = true.
Proof.
  intros H. induction l as [|x l IH]; simpl; [reflexivity|].
  by rewrite H, IH.
Qed.

Lemma Qeqb_refl (q : Q) : Qeqb q q = true.
Proof. apply Qeqb_eq. reflexivity. Qed.

Lemma PyValue_eqb_refl (v : PyValue) : PyValue_eqb v v = true.
Proof.
  destruct v; simpl; [apply String.eqb_refl | apply Qeqb_refl | apply Z.eqb_refl].
Qed.

Lemma option_eqb_refl {A} (eqb : A -> A -> bool) (o : option A) :
  (forall x, eqb x x = true) -> option_eqb eqb o o = true.
Proof. intros H. destruct o; simpl; auto. Qed.

Lemma dict_eqb_refl (d : list (string * PyValue)) : dict_eqb d d = true.
Proof.
  unfold dict_eqb. apply forallb_forall. intros k _.
  apply option_eqb_refl, PyValue_eqb_refl.
Qed.

(** A dictionary is read by its keys: listing the items of a dictionary
    in another order does not change a lookup. *)
Lemma dict_lookup_perm (k : string) (a b : list (string * PyValue)) :
  List.NoDup (map fst a) -> a ≡ₚ b -> dict_lookup k a = dict_lookup k b.
Proof.
  intros Hnd Hperm. induction Hperm as [|[k1 v1] a b Hperm IH
                                         |[k1 v1] [k2 v2] a|a b c H1 IH1 H2 IH2].
  - reflexivity.
  - cbn [dict_lookup]. destruct (String.eqb k1 k); [reflexivity|].
    apply IH. cbn [map fst] in Hnd. by inversion Hnd.
  - cbn [dict_lookup].
    destruct (String.eqb_spec k2 k) as [E2|_], (String.eqb_spec k1 k) as [E1|_];
      try reflexivity.
    exfalso. cbn [map fst] in Hnd. inversion Hnd as [|? ? Hnotin _]; subst.
    apply Hnotin. by left.
  - rewrite IH1 by exact Hnd. apply IH2.
    eapply Permutation_NoDup; [|exact Hnd]. by apply Permutation_map.
Qed.

(** Two dictionaries with the same items are equal, whatever the order
    of insertion. *)
Lemma dict_eqb_perm (a b : list (string * PyValue)) :
  List.NoDup (map fst a) -> a ≡ₚ b -> dict_eqb a b = true.
Proof.
  intros Hnd Hperm. unfold dict_eqb. apply forallb_forall. intros k _.
  rewrite (dict_lookup_perm k a b Hnd Hperm).
  apply option_eqb_refl, PyValue_eqb_refl.
Qed.

(** A dataclass instance equals itself. *)
Lemma Edge_eqb_refl (e : Edge) : Edge_eqb e e = true.
Proof.
  unfold Edge_eqb.
  rewrite !String.eqb_refl, Qeqb_refl, Bool.eqb_reflx.
  rewrite (list_eqb_refl String.eqb) by apply String.eqb_refl.
  rewrite (list_eqb_refl Z.eqb) by apply Z.eqb_refl.
  rewrite !(option_eqb_refl String.eqb) by apply String.eqb_refl.
  rewrite dict_eqb_refl. reflexivity.
Qed.

(** The order in which the supporting data of an edge were inserted does
    not tell two edges apart. *)
Lemma Edge_eqb_supporting_order (e : Edge) (d : list (string * PyValue)) :
  List.NoDup (map fst (supporting_data e)) -> supporting_data e ≡ₚ d ->
  Edge_eqb (with_supporting_data e d) e = true
  /\ Edge_eqb e (with_supporting_data e d) = true.
Proof.
  intros Hnd Hperm.
  assert (Hnd' : List.NoDup (map fst d)).
  { eapply Permutation_NoDup; [|exact Hnd]. by apply Permutation_map. }
  unfold Edge_eqb, with_supporting_data.
  cbn [edge_type description affected_stats strength supporting_data
       benefiting_player_ids edge_game_id edge_team_abbr is_primary].
  rewrite !String.eqb_refl, Qeqb_refl, Bool.eqb_reflx.
  rewrite (list_eqb_refl String.eqb) by apply String.eqb_refl.
  rewrite (list_eqb_refl Z.eqb) by apply Z.eqb_refl.
  rewrite !(option_eqb_refl String.eqb) by apply String.eqb_refl.
  rewrite (dict_eqb_perm d (supporting_data e)) by (auto; by symmetry).
  rewrite (dict_eqb_perm (supporting_data e) d) by auto.
  split; reflexivity.
Qed.

Lemma edge_in_snoc (e : Edge) (l : list Edge) : edge_in e (l ++ [e]) = true.
Proof.
  unfold edge_in. rewrite existsb_app. simpl.
  by rewrite Edge_eqb_refl, orb_true_r.
Qed.

Lemma edge_in_app_l (e : Edge) (l l' : list Edge) :
  edge_in e l = true -> edge_in e (l ++ l') = true.
Proof. unfold edge_in. rewrite existsb_app. intros ->. reflexivity. Qed.

(** One turn of the loop keeps the selection or extends it by the edge it
    visits, once. *)
Lemma find_edges_step_cases (ptype : string) (matching : list Edge) (e : Edge) :
  (find_edges_step ptype matching e = matching
   /\ (edge_applies ptype e = true ->
       str_in ptype (affected_stats e) = false /\ edge_in e matching = true))
  \/ (find_edges_step ptype matching e = matching ++ [e]
      /\ edge_applies ptype e = true).
Proof.
  unfold find_edges_step, edge_applies. cbv zeta.
  destruct (str_in ptype (affected_stats e)) eqn:Hin.
  - right. split; [|reflexivity].
    destruct (combo_components ptype) as [stats|]; [|reflexivity].
    destruct (any_in stats (affected_stats e)); [|reflexivity].
    by rewrite edge_in_snoc.
  - destruct (combo_components ptype) as [stats|]; [|left; split; [reflexivity|discriminate]].
    destruct (any_in stats (affected_stats e)) eqn:Hany;
      [|left; split; [reflexivity|discriminate]].
    destruct (edge_in e matching) eqn:He; cbn [negb].
    + left. split; [reflexivity|]. intros _. split; reflexivity.
    + right. split; reflexivity.
Qed.

Lemma find_edges_fold_sublist (ptype : string) (edges acc : list Edge) :
  exists added,
    fold_left (find_edges_step ptype) edges acc = acc ++ added
    /\ sublist added edges
    /\ (forall e, In e edges -> edge_applies ptype e = true ->
          edge_in e (acc ++ added) = true)
    /\ (combo_components ptype = None ->
        added = List.filter (fun e => str_in ptype (affected_stats e)) edges).
Proof.
  revert acc. induction edges as [|e edges IH]; intros acc; cbn [fold_left].
  - exists []. rewrite app_nil_r. split; [reflexivity|]. split; [constructor|].
    split; [intros e []|reflexivity].
  - destruct (find_edges_step_cases ptype acc e) as [[Hs Hskip]|[Hs Ha]];
      rewrite Hs; destruct (IH (find_edges_step ptype acc e))
        as (added & Hf & Hsub & Hcov & Hsimple); rewrite Hs in Hf, Hcov.
    + exists added. split; [exact Hf|]. split; [by apply sublist_cons|]. split.
      * intros e0 [<-|Hin] Happ; [|by apply Hcov].
        apply edge_in_app_l. by apply Hskip.
      * intros Hnone. simpl.
        destruct (str_in ptype (affected_stats e)) eqn:Hin; [|by apply Hsimple].
        exfalso. unfold find_edges_step in Hs. rewrite Hin, Hnone in Hs.
        apply (f_equal length) in Hs. rewrite length_app in Hs. simpl in Hs. lia.
    + exists (e :: added). rewrite <- app_assoc in Hf, Hcov.
      split; [exact Hf|]. split; [by apply sublist_skip|]. split.
      * intros e0 [<-|Hin] Happ; [|by apply Hcov].
        change (acc ++ e :: added) with (acc ++ [e] ++ added).
        rewrite app_assoc. apply edge_in_app_l, edge_in_snoc.
      * intros Hnone. simpl.
        unfold edge_applies in Ha. rewrite Hnone, orb_false_r in Ha.
        rewrite Ha. f_equal. by apply Hsimple.
Qed.

(** An edge matched through a component of a compound type is not taken
    again when the list repeats it with its supporting data in another
    order. *)
Lemma find_edges_skips_equal_edge (p : PlayerProp) (e : Edge)
    (d : list (string * PyValue)) (stats : list string) :
  combo_components (prop_type p) = Some stats ->
  str_in (prop_type p) (affected_stats e) = false ->
  any_in stats (affected_stats e) = true ->
  List.NoDup (map fst (supporting_data e)) -> supporting_data e ≡ₚ d ->
  _find_edges_for_prop p [e; with_supporting_data e d] = [e].
Proof.
  intros Hc Hin Hany Hnd Hperm.
  destruct (Edge_eqb_supporting_order e d Hnd Hperm) as [Heq _].
  unfold _find_edges_for_prop. cbn [fold_left].
  unfold find_edges_step at 2. cbv zeta. rewrite Hin, Hc, Hany.
  cbn [edge_in existsb negb app].
  unfold find_edges_step. cbv zeta.
  change (affected_stats (with_supporting_data e d)) with (affected_stats e).
  rewrite Hin, Hc, Hany. cbn [edge_in existsb]. rewrite Heq. reflexivity.
Qed.

(** X1: the edges matched to a prop are a subsequence of the team's edges:
    their order is kept and no edge is taken twice; every one of them
    applies to the prop's type, every applying edge of the team is in the
    selection up to equality of edges, and for a simple stat type the
    selection is exactly the edges listing that type.  Equality of edges
    is that of the dataclass, which compares the supporting data as
    dictionaries: an edge matched through a component of a compound type
    and listed again with its supporting data inserted in another order
    is selected once. *)
Theorem find_edges_for_prop_subsequence (p : PlayerProp) (team_edges : list Edge) :
  sublist (_find_edges_for_prop p team_edges) team_edges
  /\ Forall (fun e => edge_applies (prop_type p) e = true)
            (_find_edges_for_prop p team_edges)
  /\ (forall e, In e team_edges -> edge_applies (prop_type p) e = true ->
        edge_in e (_find_edges_for_prop p team_edges) = true)
  /\ (combo_components (prop_type p) = None ->
      _find_edges_for_prop p team_edges
      = List.filter (fun e => str_in (prop_type p) (affected_stats e)) team_edges)
  /\ (forall e d stats,
        combo_components (prop_type p) = Some stats ->
        str_in (prop_type p) (affected_stats e) = false ->
        any_in stats (affected_stats e) = true ->
        List.NoDup (map fst (supporting_data e)) -> supporting_data e ≡ₚ d ->
        Edge_eqb (with_supporting_data e d) e = true
        /\ _find_edges_for_prop p [e; with_supporting_data e d] = [e]).
Proof.
  split; [|split; [|split; [|split]]].
  5:{ intros e d stats Hc Hin Hany Hnd Hperm.
      split; [exact (proj1 (Edge_eqb_supporting_order e d Hnd Hperm))|].
      eapply find_edges_skips_equal_edge; eassumption. }
  all: unfold _find_edges_for_prop;
    destruct (find_edges_fold_sublist (prop_type p) team_edges [])
      as (added & Hf & Hsub & Hcov & Hsimple);
    destruct (find_edges_for_prop_spec p team_edges) as [Hall _];
    unfold _find_edges_for_prop in Hall; rewrite Hf in *; cbn [app] in *.
  - exact Hsub.
  - eapply List.Forall_impl; [|exact Hall]. intros e [_ H]. exact H.
  - exact Hcov.
  - exact Hsimple.
Qed.

(** The sample edge, listed twice with its two supporting items in either
    order, is selected once for the points-plus-assists line of the sample
    store. *)
Example reordered_sample_edge_selected_once (p : PlayerProp) :
  store_props sample_store !! 0%nat = Some p ->
  _find_edges_for_prop p
    [ sample_edge;
      with_supporting_data sample_edge
        [("rank", PyInt 24); ("defensive_stat", PyStr "assists")] ]
  = [sample_edge].
Proof. intros [= <-]. vm_compute. reflexivity. Qed.

(** * Finding a team's game *)

Lemma involves_test (t : string) (g : Game) :
  str_eq_opt (home_team_abbr g) (Some t) || str_eq_opt (away_team_abbr g) (Some t)
  = true <-> involves t g.
Proof.
  unfold involves. simpl. rewrite orb_true_iff, !String.eqb_eq. reflexivity.
Qed.

(** X2: the game found for a team is the first game of the slate that has
    the team as home or away side; no game is found exactly when no game
    involves the team, and never for an edge that names no team. *)
Theorem find_game_for_team_first (t : string) (games : list Game) :
  match _find_game_for_team (Some t) games with
  | Some g => exists pre post,
      games = pre ++ g :: post /\ involves t g
      /\ Forall (fun g' => ~ involves t g') pre
  | None => Forall (fun g' => ~ involves t g') games
  end
  /\ _find_game_for_team None games = None.
Proof.
  unfold _find_game_for_team. split.
  - induction games as [|g games IH]; cbn [List.find]; [constructor|].
    destruct (str_eq_opt (home_team_abbr g) (Some t)
              || str_eq_opt (away_team_abbr g) (Some t)) eqn:Hg.
    + exists [], games. split; [reflexivity|]. split; [|constructor].
      by apply involves_test.
    + assert (Hno : ~ involves t g).
      { intros H. apply involves_test in H. congruence. }
      destruct (List.find _ games) as [g'|].
      * destruct IH as (pre & post & -> & Hin & Hpre).
        exists (g :: pre), post. split; [reflexivity|]. split; [exact Hin|].
        by constructor.
      * by constructor.
  - induction games as [|g games IH]; simpl; [reflexivity | exact IH].
Qed.

(** * The projection and the direction *)

Lemma Qgtb_compat (a b c d : Q) : a == b -> c == d -> Qgtb a c = Qgtb b d.
Proof.
  intros E1 E2. destruct (Qgtb b d) eqn:H.
  - apply Qgtb_gt in H. apply Qgtb_gt. rewrite E1, E2. exact H.
  - apply Qgtb_le in H. apply Qgtb_le. rewrite E1, E2. exact H.
Qed.

Lemma determine_direction_centre (p : PlayerProp) (c d : Q) :
  _determine_direction p (c - d) (c + d)
  = if Qgtb c (line p) then "over" else "under".
Proof.
  unfold _determine_direction. cbv zeta.
  rewrite (Qgtb_compat ((c - d + (c + d)) / 2) c (line p) (line p));
    [reflexivity | field | reflexivity].
Qed.

Lemma direction_without_history (p : PlayerProp) :
  _determine_direction p (line p - 2) (line p + 2) = "under".
Proof.
  rewrite determine_direction_centre.
  replace (Qgtb (line p) (line p)) with false; [reflexivity|].
  symmetry. apply Qgtb_le. lra.
Qed.

(** X3: over the rationals the direction does not depend on the measured
    deviation: two runs that differ only in the square-root routine put the
    same midpoint on the range and give the same direction. *)
Theorem direction_independent_of_deviation (env1 env2 : Env) (p : PlayerProp)
    (logs : list PlayerGameLog) (edges : list Edge) :
  let r1 := _calculate_projection_range env1 p logs edges in
  let r2 := _calculate_projection_range env2 p logs edges in
  fst r1 + snd r1 == fst r2 + snd r2
  /\ _determine_direction p (fst r1) (snd r1)
     = _determine_direction p (fst r2) (snd r2).
Proof.
  unfold _calculate_projection_range. destruct logs as [|g logs].
  - split; reflexivity.
  - cbv zeta. cbn [fst snd].
    split; [ring|]. by rewrite !determine_direction_centre.
Qed.

(** X4: edges can only raise a projection, by the same amount at both ends
    and by 4 at most; so an edge never turns an over into an under, and a
    prop without history is always an under. *)
Theorem edges_only_raise_projection (env : Env) (p : PlayerProp)
    (logs : list PlayerGameLog) (edges : list Edge) :
  let r0 := _calculate_projection_range env p logs [] in
  let r := _calculate_projection_range env p logs edges in
  (exists adj, 0 <= adj <= 4 /\ fst r == fst r0 + adj /\ snd r == snd r0 + adj)
  /\ (_determine_direction p (fst r0) (snd r0) = "over" ->
      _determine_direction p (fst r) (snd r) = "over")
  /\ (logs = [] -> _determine_direction p (fst r) (snd r) = "under").
Proof.
  unfold _calculate_projection_range. destruct logs as [|g logs].
  - cbv zeta. cbn [fst snd]. split; [|split].
    + exists 0. split; [lra|]. split; ring.
    + auto.
    + intros _. apply direction_without_history.
  - cbv zeta. cbn [fst snd].
    destruct (engine_edge_adjustment edges) as [E [Hlo Hhi]].
    destruct (engine_edge_adjustment []) as [E0 _].
    assert (Z0 : py_min (py_max (edge_adjustment_loop []) (-2)) 4 == 0)
      by reflexivity.
    set (adj := py_min (py_max (edge_adjustment_loop edges) (-2)) 4) in *.
    set (adj0 := py_min (py_max (edge_adjustment_loop []) (-2)) 4) in *.
    set (base := _ * 0.5 + _ * 0.3 + _ * 0.2).
    set (std := if (5 <=? _)%nat then _ else _).
    rewrite <- E in Hlo, Hhi.
    split; [|split].
    + exists adj. split; [lra|]. split; lra.
    + rewrite !determine_direction_centre.
      destruct (Qgtb (base + adj0) (line p)) eqn:H0; [|discriminate].
      intros _. apply Qgtb_gt in H0.
      replace (Qgtb (base + adj) (line p)) with true; [reflexivity|].
      symmetry. apply Qgtb_gt. lra.
    + discriminate.
Qed.

(** * The grouping loop, exactly *)

(** One turn of the grouping loop overwrites the prop it visits by its
    back-filled version and touches nothing else. *)
Lemma group_prop_backfill (env : Env) (d : list (string * list nat)) (r : nat)
    (p : PlayerProp) (s : Store) :
  store_props s !! r = Some p ->
  wp (group_prop env d r)
     (fun d' s' => store_props s' = <[r := backfill env p]> (store_props s)
                   /\ store_edges s' = store_edges s
                   /\ d' = dict_append String.eqb (player_name p) r d) s.
Proof.
  intros Hp. unfold group_prop, backfill.
  apply wp_bind. eapply wp_get_prop; [exact Hp|].
  apply wp_bind.
  destruct (String.eqb (team_abbr p) "UNK").
  - destruct (player_name_to_team env !! player_name p) as [team|].
    + unfold set_team_abbr. apply wp_bind. eapply wp_get_prop; [exact Hp|].
      eapply wp_put_prop; [exact Hp|]. apply wp_ret. cbn [store_props store_edges].
      auto.
    + apply wp_ret. apply wp_ret. by rewrite list_insert_id.
  - apply wp_ret. apply wp_ret. by rewrite list_insert_id.
Qed.

Lemma seq_cons_inv (x k m : nat) (rest : list nat) :
  x :: rest = seq k m -> x = k /\ rest = seq (S k) (m - 1) /\ (0 < m)%nat.
Proof.
  destruct m as [|m]; simpl; [discriminate|].
  intros H. injection H as -> ->. rewrite Nat.sub_0_r. auto with lia.
Qed.

(** The grouping loop as a whole maps [backfill] over the props. *)
Lemma group_props_backfill (env : Env) (s : Store) :
  wp (foldM (group_prop env) (seq 0 (length (store_props s))) [])
     (fun _ s' => store_props s' = map (backfill env) (store_props s)
                  /\ store_edges s' = store_edges s) s.
Proof.
  set (l := store_props s). set (n := length l).
  eapply wp_mono.
  - apply (wp_foldM (group_prop env)
             (fun rest (_ : list (string * list nat)) s' =>
                store_edges s' = store_edges s
                /\ length (store_props s') = n
                /\ exists k, rest = seq k (n - k) /\ (k <= n)%nat
                   /\ forall i p, l !! i = Some p ->
                        store_props s' !! i
                        = Some (if (i <? k)%nat then backfill env p else p))).
    + split; [reflexivity|]. split; [reflexivity|]. exists 0%nat.
      rewrite Nat.sub_0_r. split; [reflexivity|]. split; [lia|].
      intros i p Hi. exact Hi.
    + intros x rest d s' (He & Hlen & k & Hrest & Hk & Hprops).
      apply seq_cons_inv in Hrest as (-> & -> & Hpos).
      assert (Hlt : (k < length l)%nat) by (fold n; lia).
      destruct (lookup_lt_is_Some_2 _ _ Hlt) as [p Hp].
      pose proof (Hprops k p Hp) as Hcur.
      rewrite (proj2 (Nat.ltb_ge k k)) in Hcur by lia.
      eapply wp_mono; [apply group_prop_backfill, Hcur|].
      intros d' s'' (Hs'' & He'' & _). split; [congruence|].
      split; [by rewrite Hs'', length_insert|].
      exists (S k). split; [f_equal; lia|]. split; [lia|].
      intros i q Hi. rewrite Hs''. destruct (decide (i = k)) as [->|Hne].
      * rewrite Hp in Hi. injection Hi as <-.
        rewrite list_lookup_insert_eq by lia.
        by rewrite (proj2 (Nat.ltb_lt k (S k))) by lia.
      * rewrite list_lookup_insert_ne by auto. rewrite (Hprops i q Hi).
        destruct (Nat.ltb_spec i k), (Nat.ltb_spec i (S k)); auto; lia.
  - intros d s' (He & Hlen & k & Hrest & Hk & Hprops). split; [|exact He].
    assert (k = n) as ->.
    { destruct (n - k)%nat eqn:E; [lia | discriminate]. }
    apply list_eq. intros i. rewrite list_lookup_fmap.
    destruct (l !! i) as [p|] eqn:Hi.
    + rewrite (Hprops i p Hi).
      apply lookup_lt_Some in Hi. fold n in Hi.
      by rewrite (proj2 (Nat.ltb_lt i n)) by lia.
    + apply lookup_ge_None. apply lookup_ge_None in Hi. fold n in Hi. lia.
Qed.

(** * The matching loop never writes a team *)

Lemma no_league_index (env : Env) (name : string) :
  player_name_to_team (no_league env) !! name = None.
Proof. reflexivity. Qed.

Lemma evolves_no_league_team (env : Env) (s s' : Store) :
  evolves (no_league env) s s' ->
  map team_abbr (store_props s') = map team_abbr (store_props s).
Proof.
  intros [_ H]. induction H as [|p p' l l' Hp _ IH]; [reflexivity|].
  cbn [map]. rewrite IH. f_equal.
  destruct Hp as (_ & _ & _ & _ & _ & _ & _ & _ & _ & _ & [Ht|[_ Ht]] & _);
    [exact Ht|].
  rewrite no_league_index in Ht. discriminate.
Qed.

Lemma match_loop_frame (env : Env) (games : list Game)
    (props_by_player : list (string * list nat))
    (edges_by_team : list (option string * list Edge)) (s : Store) :
  refs_valid s props_by_player ->
  Forall (fun entry => Forall (fun e => In e (store_edges s)
                                        /\ edge_team_abbr e = fst entry)
                              (snd entry)) edges_by_team ->
  wp (foldM (match_team env games props_by_player) edges_by_team [])
     (fun _ s' => evolves (no_league env) s s') s.
Proof.
  intros Hrefs Hentries.
  eapply wp_mono.
  - apply (wp_foldM _ (fun rest acc s' =>
             evolves (no_league env) s s'
             /\ Forall (analysis_ok (no_league env) games s') acc
             /\ refs_valid s' props_by_player
             /\ Forall (fun entry =>
                          Forall (fun e => In e (store_edges s)
                                           /\ edge_team_abbr e = fst entry)
                                 (snd entry)) rest)).
    + split; [apply evolves_refl|]. split; [constructor|]. split; assumption.
    + intros entry rest acc s' (Hev & Hacc & Hrefs' & Hrest).
      inversion Hrest as [|? ? Hentry Hrest']; subst.
      change (match_team env games props_by_player acc entry)
        with (match_team (no_league env) games props_by_player acc entry).
      eapply wp_mono.
      * apply (match_team_spec (no_league env) games props_by_player acc entry s');
          [exact Hrefs' | | exact Hacc].
        destruct Hev as [-> _]. exact Hentry.
      * intros acc' s'' [Hev' Hacc']. split; [|split; [|split]].
        -- eapply evolves_trans; eassumption.
        -- exact Hacc'.
        -- eapply refs_valid_evolves; eassumption.
        -- exact Hrest'.
  - intros acc s' (Hev & _). exact Hev.
Qed.

(** X5: after a call of the engine the team of every prop is exactly the
    back-filled one: the team found in the league table under the player's
    name when the prop came in as "UNK" and the table has the name, the
    incoming team otherwise.  The matching loop itself never writes a
    team. *)
Theorem engine_backfills_teams (env : Env) (games : list Game) (s : Store) :
  wp (match_edges_to_props env games)
     (fun _ s' => map team_abbr (store_props s')
                  = map (fun p => team_abbr (backfill env p)) (store_props s)) s.
Proof.
  unfold match_edges_to_props.
  apply wp_bind. unfold wp at 1, read_edges.
  apply wp_bind. unfold wp at 1, prop_refs. cbv zeta.
  apply wp_bind.
  pose proof (group_props_spec env s) as Hspec.
  pose proof (group_props_backfill env s) as Hexact.
  unfold wp in Hspec, Hexact |- *.
  destruct (foldM (group_prop env) (seq 0 (length (store_props s))) [] s)
    as [[props_by_player s1]|]; [|contradiction].
  destruct Hspec as [Hev Hrefs]. destruct Hexact as [Hprops Hedges].
  pose proof (match_loop_frame env games props_by_player
                (group_edges_by_team (store_edges s)) s1 Hrefs) as Hloop.
  unfold wp in Hloop.
  destruct (foldM (match_team env games props_by_player)
              (group_edges_by_team (store_edges s)) [] s1) as [[analyses s']|].
  - rewrite (evolves_no_league_team env s1 s'), Hprops, map_map; [reflexivity|].
    apply Hloop. rewrite Hedges. apply group_edges_by_team_from.
  - apply Hloop. rewrite Hedges. apply group_edges_by_team_from.
Qed.

(** * A slate without games for the edges *)

Lemma dict_append_nonempty {K V} (eqb : K -> K -> bool) (k : K) (x : V)
    (d : list (K * list V)) :
  Forall (fun entry => snd entry <> []) d ->
  Forall (fun entry => snd entry <> []) (dict_append eqb k x d).
Proof.
  intros Hd. induction Hd as [|[k' vs] d Hvs Hd IH]; simpl.
  - repeat constructor. discriminate.
  - destruct (eqb k' k).
    + constructor; [|exact Hd]. cbn [snd]. by destruct vs.
    + by constructor.
Qed.

Lemma group_edges_by_team_nonempty (edges : list Edge) :
  Forall (fun entry => snd entry <> []) (group_edges_by_team edges).
Proof.
  unfold group_edges_by_team.
  assert (H : forall l (acc : list (option string * list Edge)),
    Forall (fun entry => snd entry <> []) acc ->
    Forall (fun entry => snd entry <> [])
      (fold_left (fun edges_by_team edge =>
         dict_append (option_eqb String.eqb) (edge_team_abbr edge) edge
           edges_by_team) l acc)).
  { induction l as [|e l IH]; intros acc Hacc; simpl; [exact Hacc|].
    apply IH. by apply dict_append_nonempty. }
  apply H. constructor.
Qed.

(** Every key of the index is the team of an input edge. *)
Lemma group_edges_by_team_keys (edges : list Edge) :
  Forall (fun entry => exists e, In e edges /\ edge_team_abbr e = fst entry)
         (group_edges_by_team edges).
Proof.
  pose proof (group_edges_by_team_from edges) as Hfrom.
  pose proof (group_edges_by_team_nonempty edges) as Hne.
  induction Hfrom as [|[k es] d Hes _ IH]; [constructor|].
  inversion Hne as [|? ? Hk Hd]; subst. constructor; [|by apply IH].
  cbn [fst snd] in *. destruct es as [|e es]; [contradiction|].
  inversion Hes as [|? ? He _]; subst. by exists e.
Qed.

(** X6: when no edge's team plays in a game of the slate, and so for an
    empty slate, the engine returns no analysis; the props are back-filled
    all the same, and nothing else about them changes: no player id is
    looked up. *)
Theorem engine_without_games (env : Env) (games : list Game) (s : Store) :
  (forall e, In e (store_edges s) ->
             _find_game_for_team (edge_team_abbr e) games = None) ->
  wp (match_edges_to_props env games)
     (fun analyses s' =>
        analyses = []
        /\ store_props s' = map (backfill env) (store_props s)
        /\ store_edges s' = store_edges s) s.
Proof.
  intros Hnone. unfold match_edges_to_props.
  apply wp_bind. unfold wp at 1, read_edges.
  apply wp_bind. unfold wp at 1, prop_refs. cbv zeta.
  apply wp_bind. eapply wp_mono; [apply group_props_backfill|].
  intros props_by_player s1 [Hprops Hedges].
  eapply wp_mono.
  - apply (wp_foldM _ (fun rest acc s' =>
             acc = [] /\ s' = s1
             /\ Forall (fun entry => _find_game_for_team (fst entry) games = None)
                       rest)).
    + split; [reflexivity|]. split; [reflexivity|].
      eapply List.Forall_impl; [|apply group_edges_by_team_keys].
      intros entry (e & Hin & <-). by apply Hnone.
    + intros entry rest acc s' (-> & -> & Hrest).
      inversion Hrest as [|? ? Hentry Hrest']; subst.
      unfold match_team. cbv zeta. rewrite Hentry. apply wp_ret. auto.
  - intros acc s' (-> & -> & _). auto.
Qed.

Lemma engine_without_games_witness :
  wp (match_edges_to_props sample_env [])
     (fun analyses s' =>
        analyses = []
        /\ store_props s' = map (backfill sample_env) (store_props sample_store)
        /\ store_edges s' = store_edges sample_store) sample_store.
Proof. apply (engine_without_games sample_env [] sample_store). reflexivity. Defined.

(** X7: a prop whose player cannot be resolved (no id on the prop, no
    entry under the name in the static player list) is analysed all the
    same, without touching the store: there is no history, so the range is
    the line plus or minus 2 and the direction is under, whatever edges
    matched. *)
Theorem unresolved_player_is_an_under (env : Env) (r : nat) (p : PlayerProp)
    (matched : list Edge) (g : Game) (opponent_abbr : string) (s : Store) :
  store_props s !! r = Some p ->
  player_id p = 0%Z ->
  List.find (fun pl => String.eqb (fst pl) (player_name p)) (get_players env) = None ->
  exists a,
    _create_prop_analysis env r matched g opponent_abbr s = Some (Some a, s)
    /\ id (player a) = 0%Z
    /\ player_game_logs a = []
    /\ edges a = matched
    /\ projected_low a = line p - 2
    /\ projected_high a = line p + 2
    /\ direction a = "under".
Proof.
  intros Hp Hid Hfind.
  unfold _create_prop_analysis, finish_prop_analysis, bind, get_prop, ret.
  rewrite Hp, Hid. cbn [Z.eqb]. rewrite Hfind. cbn [fst snd Z.eqb].
  rewrite Hp. eexists. split; [reflexivity|]. cbn.
  repeat (split; [reflexivity|]).
  apply direction_without_history.
Qed.

Lemma unresolved_player_is_an_under_witness :
  exists a,
    _create_prop_analysis sample_env 0 [sample_edge] sample_game "BOS" unlisted_store
    = Some (Some a, unlisted_store)
    /\ id (player a) = 0%Z
    /\ player_game_logs a = []
    /\ edges a = [sample_edge]
    /\ projected_low a = line unlisted_prop - 2
    /\ projected_high a = line unlisted_prop + 2
    /\ direction a = "under".
Proof.
  apply (unresolved_player_is_an_under sample_env 0 unlisted_prop [sample_edge]
           sample_game "BOS" unlisted_store); reflexivity.
Defined.

(** * The windowed averages as a dictionary *)

(** Distinct windows have distinct keys, and no window key is "season". *)
Lemma window_key_inj (w w' : Z) : window_key w = window_key w' -> w = w'.
Proof.
  unfold window_key. intros H.
  apply (inj (String.app "last_")) in H. by apply (inj pretty) in H.
Qed.

Lemma window_key_not_season (w : Z) : window_key w <> "season".
Proof. unfold window_key. discriminate. Qed.

(** A loop that files one entry per window: the entry of a window of the
    list is the one computed for it, every other key is as before. *)
Lemma window_loop_entries (f : Z -> Q) (step : gmap string Q -> Z -> gmap string Q)
    (windows : list Z) (acc : gmap string Q) :
  (forall d w, step d w = <[window_key w := f w]> d) ->
  (forall w, In w windows ->
     fold_left step windows acc !! window_key w = Some (f w))
  /\ (forall k, (forall w, In w windows -> window_key w <> k) ->
        fold_left step windows acc !! k = acc !! k).
Proof.
  intros Hstep. revert acc.
  induction windows as [|w0 windows IH]; intros acc; cbn [fold_left].
  - split; [intros w []|reflexivity].
  - destruct (IH (step acc w0)) as [IH1 IH2]. split.
    + intros w Hw. destruct (in_dec Z.eq_dec w windows) as [Hin|Hout];
        [by apply IH1|].
      destruct Hw as [->|Hw]; [|contradiction].
      rewrite IH2, Hstep; [apply lookup_insert_eq|].
      intros w' Hw' E. apply window_key_inj in E. by subst.
    + intros k Hk. rewrite IH2, Hstep; [|intros w Hw; apply Hk; by right].
      apply lookup_insert_ne, Hk. by left.
Qed.

Lemma py_take_all {A} (w : Z) (l : list A) :
  (Z.of_nat (length l) <= w)%Z -> py_take w l = l.
Proof.
  intros H. unfold py_take.
  destruct (Z.leb_spec 0 w); [|lia]. apply take_ge. lia.
Qed.

(** X8: the dictionary of windowed averages has one entry per requested
    window, keyed last_<w>, holding the average over the first w games (0.0
    when there are no logs or the slice is empty); the key season is present
    exactly when there are logs; there is no other key; and a window at
    least as long as the history holds the season average. *)
Theorem weighted_averages_windows (logs : list PlayerGameLog) (stat : string)
    (windows : list Z) :
  let d := calculate_weighted_averages logs stat windows in
  (forall w, In w windows -> d !! window_key w = Some (window_average logs stat w))
  /\ d !! "season"
     = match logs with
       | [] => None
       | _ => Some (avg_or_zero (stat_values stat logs))
       end
  /\ (forall k, d !! k <> None ->
        (k = "season" /\ logs <> []) \/ exists w, In w windows /\ k = window_key w)
  /\ (forall w, In w windows -> logs <> [] -> (Z.of_nat (length logs) <= w)%Z ->
        d !! window_key w = d !! "season").
Proof.
  cbv zeta. unfold calculate_weighted_averages.
  destruct logs as [|g logs].
  - destruct (window_loop_entries (fun _ => 0.0)
                (fun d w => <[window_key w := 0.0]> d) windows ∅) as [H1 H2];
      [reflexivity|].
    split; [exact H1|]. split; [|split].
    + rewrite H2; [reflexivity|]. intros w _. apply window_key_not_season.
    + intros k Hk. right.
      destruct (in_dec String.string_dec k (map window_key windows)) as [Hin|Hout].
      * apply in_map_iff in Hin as (w & <- & Hw). eauto.
      * exfalso. apply Hk. rewrite H2; [reflexivity|].
        intros w Hw <-. apply Hout, in_map, Hw.
    + intros w _ Hne. contradiction.
  - set (l := g :: logs).
    destruct (window_loop_entries (window_average l stat)
                (fun averages window =>
                   match py_take window l with
                   | [] => <[window_key window := 0.0]> averages
                   | _ => <[window_key window
                            := avg_or_zero (stat_values stat (py_take window l))]>
                            averages
                   end) windows ∅) as [H1 H2].
    { intros d w. unfold window_average, l. fold l.
      by destruct (py_take w l). }
    split; [|split; [|split]].
    + intros w Hw. rewrite lookup_insert_ne by (symmetry; apply window_key_not_season).
      by apply H1.
    + apply lookup_insert_eq.
    + intros k Hk. destruct (String.string_dec k "season") as [->|Hne];
        [left; split; [reflexivity | discriminate]|right].
      rewrite lookup_insert_ne in Hk by auto.
      destruct (in_dec String.string_dec k (map window_key windows)) as [Hin|Hout].
      * apply in_map_iff in Hin as (w & <- & Hw). eauto.
      * exfalso. apply Hk. rewrite H2; [reflexivity|].
        intros w Hw <-. apply Hout, in_map, Hw.
    + intros w Hw _ Hlen.
      rewrite lookup_insert_ne by (symmetry; apply window_key_not_season).
      rewrite lookup_insert_eq, (H1 w Hw). f_equal.
      unfold window_average, l. fold l. by rewrite (py_take_all w l Hlen).
Qed.

(** * The detectors, game by game *)

(** A loop that appends what it finds for each entry visits the entries
    independently. *)
Lemma fold_left_appending {A B} (f : A -> list B) (step : list B -> A -> list B)
    (l : list A) (init : list B) :
  (forall acc x, step acc x = acc ++ f x) ->
  fold_left step l init = init ++ flat_map f l.
Proof.
  intros Hstep. revert init. induction l as [|x l IH]; intros init; simpl.
  - by rewrite app_nil_r.
  - by rewrite IH, Hstep, <- app_assoc.
Qed.

Lemma fold_left_appending_app {A B} (f : A -> list B)
    (step : list B -> A -> list B) (l1 l2 : list A) :
  (forall acc x, step acc x = acc ++ f x) ->
  fold_left step (l1 ++ l2) [] = fold_left step l1 [] ++ fold_left step l2 [].
Proof.
  intros Hstep. rewrite !(fold_left_appending f step) by exact Hstep.
  cbn [app]. apply flat_map_app.
Qed.

Lemma find_scheme_edges_flat (env : Env) (games : list Game) :
  find_scheme_edges env games
  = flat_map (fun game =>
      match get_team_defensive_stats env (home_team_id game),
            get_team_defensive_stats env (away_team_id game) with
      | Some home_defense, Some away_defense =>
          _find_defensive_weakness_edges home_defense
            (away_team_abbr game) (home_team_abbr game) game
          ++ _find_defensive_weakness_edges away_defense
               (home_team_abbr game) (away_team_abbr game) game
      | _, _ => []
      end) games.
Proof.
  unfold find_scheme_edges. erewrite fold_left_appending; [reflexivity|].
  intros acc g. cbv beta.
  destruct (get_team_defensive_stats env (home_team_id g));
    [|by rewrite app_nil_r].
  destruct (get_team_defensive_stats env (away_team_id g));
    [|by rewrite app_nil_r].
  by rewrite app_assoc.
Qed.

Lemma find_pace_edges_flat (env : Env) (games : list Game) :
  find_pace_edges env games
  = flat_map (fun game =>
      match get_team_stats env with
      | [] => []
      | _ =>
        match team_row env (home_team_id game), team_row env (away_team_id game) with
        | Some home_row, Some away_row =>
            pace_edges_for_game game (row_pace home_row) (row_pace away_row)
        | _, _ => []
        end
      end) games.
Proof.
  unfold find_pace_edges. destruct (get_team_stats env) as [|row rows] eqn:Hrows.
  - induction games as [|g games IH]; [reflexivity | exact IH].
  - erewrite fold_left_appending; [reflexivity|].
    intros acc g. cbv beta.
    destruct (team_row env (home_team_id g)); [|by rewrite app_nil_r].
    destruct (team_row env (away_team_id g)); [|by rewrite app_nil_r].
    reflexivity.
Qed.

Lemma find_injury_edges_flat (env : Env) (games : list Game) :
  find_injury_edges env games
  = flat_map (fun game =>
      _find_opponent_injury_edges env (home_team_abbr game)
        (get_injury_report env (home_team_abbr game)) (away_team_abbr game) game
      ++ _find_opponent_injury_edges env (away_team_abbr game)
           (get_injury_report env (away_team_abbr game)) (home_team_abbr game) game
      ++ _find_teammate_out_edges env (home_team_abbr game)
           (get_injury_report env (home_team_abbr game)) game
      ++ _find_teammate_out_edges env (away_team_abbr game)
           (get_injury_report env (away_team_abbr game)) game) games.
Proof.
  unfold find_injury_edges. erewrite fold_left_appending; [reflexivity|].
  intros acc g. cbv beta zeta. by rewrite <- !app_assoc.
Qed.

(** X9: the three detectors run on a slate work game by game: the edges of
    a slate are the edges of its first part followed by the edges of the
    rest, so what is found for a game does not depend on the other games,
    and an empty slate gives no edge. *)
Theorem detectors_work_game_by_game (env : Env) (games1 games2 : list Game) :
  find_injury_edges env (games1 ++ games2)
  = find_injury_edges env games1 ++ find_injury_edges env games2
  /\ find_scheme_edges env (games1 ++ games2)
     = find_scheme_edges env games1 ++ find_scheme_edges env games2
  /\ find_pace_edges env (games1 ++ games2)
     = find_pace_edges env games1 ++ find_pace_edges env games2
  /\ find_injury_edges env [] = []
  /\ find_scheme_edges env [] = []
  /\ find_pace_edges env [] = [].
Proof.
  rewrite !find_injury_edges_flat, !find_scheme_edges_flat, !find_pace_edges_flat.
  rewrite !flat_map_app. repeat split; reflexivity.
Qed.

(** * Whom an edge benefits *)

Lemma weakness_edges_sides (defense : TeamDefenseStats) (attacking defending : string)
    (game : Game) :
  Forall (fun e => edge_game_id e = Some (game_id game)
                   /\ edge_team_abbr e = Some attacking)
    (_find_defensive_weakness_edges defense attacking defending game).
Proof.
  unfold _find_defensive_weakness_edges. cbv zeta.
  repeat match goal with
  | |- context [(?r >=? 16)%Z] => destruct (r >=? 16)%Z
  end; cbn [app]; repeat constructor.
Qed.

Lemma opponent_injury_edges_sides (env : Env) (injured_team : string)
    (injuries : list Injury) (benefiting_team : string) (game : Game) :
  Forall (fun e => edge_game_id e = Some (game_id game)
                   /\ edge_team_abbr e = Some benefiting_team)
    (_find_opponent_injury_edges env injured_team injuries benefiting_team game).
Proof.
  unfold _find_opponent_injury_edges.
  apply fold_left_Forall; [|constructor]. intros acc injury Hacc.
  destruct (negb _); [exact Hacc|].
  destruct (_get_affected_stats_from_injury injury); [exact Hacc|]. cbv zeta.
  destruct (Qltb _ _); [exact Hacc|].
  apply Forall_snoc; [exact Hacc|]. split; reflexivity.
Qed.

Lemma teammate_out_edges_sides (env : Env) (team : string)
    (injuries : list Injury) (game : Game) :
  Forall (fun e => edge_game_id e = Some (game_id game)
                   /\ edge_team_abbr e = Some team)
    (_find_teammate_out_edges env team injuries game).
Proof.
  unfold _find_teammate_out_edges.
  apply fold_left_Forall; [|constructor]. intros acc injury Hacc.
  destruct (negb _); [exact Hacc|].
  destruct (_ && _); [exact Hacc|]. cbv zeta.
  destruct (Qltb _ _); [exact Hacc|].
  apply Forall_snoc; [exact Hacc|]. split; reflexivity.
Qed.

Lemma high_pace_edge_side (game : Game) (home_pace away_pace avg : Q) :
  for_side_of game (high_pace_edge game home_pace away_pace avg).
Proof. split; [reflexivity | left; reflexivity]. Qed.

Lemma pace_mismatch_edge_side (game : Game) (home_pace away_pace diff : Q) :
  for_side_of game (pace_mismatch_edge game home_pace away_pace diff).
Proof.
  split; [reflexivity|]. cbn [edge_team_abbr pace_mismatch_edge].
  destruct (Qgtb home_pace away_pace); auto.
Qed.

Lemma pace_edges_sides (game : Game) (home_pace away_pace : Q) :
  Forall (for_side_of game) (pace_edges_for_game game home_pace away_pace).
Proof.
  unfold pace_edges_for_game. cbv zeta.
  destruct (Qgeb _ 102.0); destruct (Qgeb _ 3.0); cbn [app];
    repeat match goal with
    | |- Forall _ (_ :: _) => apply List.Forall_cons
    | |- Forall _ [] => apply List.Forall_nil
    end;
    auto using high_pace_edge_side, pace_mismatch_edge_side.
Qed.

Lemma Forall_flat_map {A B} (P : B -> Prop) (f : A -> list B) (l : list A) :
  (forall x, In x l -> Forall P (f x)) -> Forall P (flat_map f l).
Proof.
  intros H. induction l as [|x l IH]; simpl; [constructor|].
  apply Forall_app. split; [apply H; by left|]. apply IH.
  intros y Hy. apply H. by right.
Qed.

Lemma side_finds_game (games : list Game) (g : Game) (e : Edge) :
  In g games -> for_side_of g e ->
  exists g', _find_game_for_team (edge_team_abbr e) games = Some g' /\ In g' games.
Proof.
  intros Hg [_ Hside]. unfold _find_game_for_team.
  destruct (List.find _ games) as [g'|] eqn:Hfind.
  - exists g'. split; [reflexivity|]. apply find_some in Hfind. tauto.
  - exfalso. apply (find_none _ _ Hfind) in Hg.
    cbv beta in Hg. destruct Hside as [Hs|Hs]; rewrite Hs in Hg; simpl in Hg;
      rewrite String.eqb_refl in Hg; try discriminate.
    by rewrite orb_true_r in Hg.
Qed.

Lemma Forall_sides (game : Game) (team : string) (l : list Edge) :
  team = home_team_abbr game \/ team = away_team_abbr game ->
  Forall (fun e => edge_game_id e = Some (game_id game)
                   /\ edge_team_abbr e = Some team) l ->
  Forall (for_side_of game) l.
Proof.
  intros Hteam. apply List.Forall_impl. intros e [Hg Ht]. split; [exact Hg|].
  destruct Hteam as [-> | ->]; auto.
Qed.

(** X10: every edge that the pipeline collects for a slate (injury, scheme
    and pace edges) carries the id of a game of the slate and credits that
    game's home or away team; so the engine always finds a game for the
    edge's team and its skip for a team without a game is never taken on
    these edges. *)
Theorem slate_edges_find_their_game (env : Env) (games : list Game) :
  Forall (fun e =>
            (exists g, In g games /\ for_side_of g e)
            /\ exists g', _find_game_for_team (edge_team_abbr e) games = Some g'
                          /\ In g' games)
         (all_edges env games).
Proof.
  assert (H : Forall (fun e => exists g, In g games /\ for_side_of g e)
                (all_edges env games)).
  { unfold all_edges.
    rewrite find_injury_edges_flat, find_scheme_edges_flat, find_pace_edges_flat.
    repeat (apply Forall_app; split);
      apply Forall_flat_map; intros g Hg;
      eapply List.Forall_impl; try (intros e He; exists g; split; [exact Hg | exact He]).
    - repeat (apply Forall_app; split).
      + eapply Forall_sides; [|apply opponent_injury_edges_sides]. auto.
      + eapply Forall_sides; [|apply opponent_injury_edges_sides]. auto.
      + eapply Forall_sides; [|apply teammate_out_edges_sides]. auto.
      + eapply Forall_sides; [|apply teammate_out_edges_sides]. auto.
    - destruct (get_team_defensive_stats env (home_team_id g)); [|constructor].
      destruct (get_team_defensive_stats env (away_team_id g)); [|constructor].
      apply Forall_app; split.
      + eapply Forall_sides; [|apply weakness_edges_sides]. auto.
      + eapply Forall_sides; [|apply weakness_edges_sides]. auto.
    - destruct (get_team_stats env); [constructor|].
      destruct (team_row env (home_team_id g)); [|constructor].
      destruct (team_row env (away_team_id g)); [|constructor].
      apply pace_edges_sides. }
  eapply List.Forall_impl; [|exact H].
  intros e (g & Hg & Hside). split; [eauto|]. eapply side_finds_game; eassumption.
Qed.

(** * Pace edges *)

(** X11: a game yields at most two pace edges, both secondary; none exactly
    when the mean pace is below 102 and the paces differ by less than 3; the
    high-pace edge is credited to the home team only, and the away team is
    credited only by a mismatch edge when it is the faster side by 3 or
    more. *)
Theorem pace_edges_profile (game : Game) (home_pace away_pace : Q) :
  let es := pace_edges_for_game game home_pace away_pace in
  (length es <= 2)%nat
  /\ Forall (fun e => edge_type e = EdgeType.PACE /\ is_primary e = false
                      /\ benefiting_player_ids e = []
                      /\ edge_game_id e = Some (game_id game)) es
  /\ (es = [] <-> (home_pace + away_pace) / 2 < 102
                  /\ py_abs (home_pace - away_pace) < 3)
  /\ Forall (fun e => edge_team_abbr e = Some (home_team_abbr game)
                      \/ (edge_team_abbr e = Some (away_team_abbr game)
                          /\ home_pace + 3 <= away_pace
                          /\ strength e == 0.3 + (away_pace - home_pace) * 0.05)) es.
Proof.
  cbv zeta. unfold pace_edges_for_game. cbv zeta.
  set (high := high_pace_edge game home_pace away_pace ((home_pace + away_pace) / 2)).
  set (mism := pace_mismatch_edge game home_pace away_pace
                 (py_abs (home_pace - away_pace))).
  assert (Hhigh : edge_type high = EdgeType.PACE /\ is_primary high = false
                  /\ benefiting_player_ids high = []
                  /\ edge_game_id high = Some (game_id game))
    by (repeat split; reflexivity).
  assert (Hmism : edge_type mism = EdgeType.PACE /\ is_primary mism = false
                  /\ benefiting_player_ids mism = []
                  /\ edge_game_id mism = Some (game_id game))
    by (repeat split; reflexivity).
  assert (Hhome : edge_team_abbr high = Some (home_team_abbr game)) by reflexivity.
  assert (Hteam : 3 <= py_abs (home_pace - away_pace) ->
            edge_team_abbr mism = Some (home_team_abbr game)
            \/ (edge_team_abbr mism = Some (away_team_abbr game)
                /\ home_pace + 3 <= away_pace
                /\ strength mism == 0.3 + (away_pace - home_pace) * 0.05)).
  { intros Hd. unfold mism. cbn [edge_team_abbr strength pace_mismatch_edge].
    destruct (Qgtb home_pace away_pace) eqn:Hfast; [by left|right].
    apply Qgtb_le in Hfast. split; [reflexivity|].
    revert Hd. unfold py_abs.
    destruct (Qltb (home_pace - away_pace) 0) eqn:Hneg;
      [apply Qltb_lt in Hneg | apply Qltb_ge in Hneg]; intros Hd; split; lra. }
  clearbody high mism.
  destruct (Qgeb ((home_pace + away_pace) / 2) 102.0) eqn:Havg;
    [apply Qgeb_ge in Havg | apply Qgeb_lt in Havg];
  (destruct (Qgeb (py_abs (home_pace - away_pace)) 3.0) eqn:Hdiff;
    [apply Qgeb_ge in Hdiff | apply Qgeb_lt in Hdiff]);
  cbn [app length].
  - split; [lia|]. split; [repeat (apply List.Forall_cons; [assumption|]); apply List.Forall_nil|].
    split; [split; [discriminate | intros [H1 H2]; lra]|].
    constructor; [by left|]. constructor; [apply Hteam; lra | constructor].
  - split; [lia|]. split; [repeat (apply List.Forall_cons; [assumption|]); apply List.Forall_nil|].
    split; [split; [discriminate | intros [H1 H2]; lra]|].
    constructor; [by left | constructor].
  - split; [lia|]. split; [repeat (apply List.Forall_cons; [assumption|]); apply List.Forall_nil|].
    split; [split; [discriminate | intros [H1 H2]; lra]|].
    constructor; [apply Hteam; lra | constructor].
  - split; [lia|]. split; [constructor|].
    split; [split; [intros _; split; lra | reflexivity]|].
    constructor.
Qed.

(** * Defensive weakness edges *)

Lemma weakness_strength_threshold (rank : Z) :
  0.5 < py_min (weakness_strength rank) 0.8 <-> (24 <= rank)%Z.
Proof.
  unfold weakness_strength. split.
  - intros H. destruct (Z.le_gt_cases 24 rank) as [Hr|Hr]; [exact Hr|exfalso].
    assert (Hq : inject_Z (rank - 20) <= 3).
    { change 3 with (inject_Z 3). rewrite <- Zle_Qle. lia. }
    pose proof (py_min_le_l (0.4 + inject_Z (rank - 20) * 0.03) 0.8). lra.
  - intros Hr.
    assert (Hq : 4 <= inject_Z (rank - 20)).
    { change 4 with (inject_Z 4). rewrite <- Zle_Qle. lia. }
    destruct (py_min_spec (0.4 + inject_Z (rank - 20) * 0.03) 0.8)
      as [[Hm ->]|[Hm ->]]; lra.
Qed.

Lemma weakness_strength_uncapped (rank : Z) :
  (rank <= 30)%Z -> py_min (weakness_strength rank) 0.8 = weakness_strength rank.
Proof.
  intros Hr. unfold weakness_strength.
  assert (Hq : inject_Z (rank - 20) <= 10).
  { change 10 with (inject_Z 10). rewrite <- Zle_Qle. lia. }
  destruct (py_min_spec (0.4 + inject_Z (rank - 20) * 0.03) 0.8)
    as [[Hm ->]|[Hm ->]]; [lra | reflexivity].
Qed.

(** X12: a defence yields one weakness edge per stat in which it ranks 16th
    or worse, at most four; each is a primary scheme edge for the attacking
    team in this game, and its strength exceeds 0.5, the level from which an
    edge moves a projection, exactly when the rank is 24th or worse; for
    ranks up to 30 the cap of 0.8 is never reached. *)
Theorem weakness_edges_profile (defense : TeamDefenseStats)
    (attacking defending : string) (game : Game) :
  let es := _find_defensive_weakness_edges defense attacking defending game in
  length es
  = length (List.filter (fun rank => (rank >=? 16)%Z)
              [pts_rank defense; reb_rank defense; ast_rank defense;
               fg3m_rank defense])
  /\ Forall (fun e =>
       edge_type e = EdgeType.SCHEME /\ is_primary e = true
       /\ edge_team_abbr e = Some attacking
       /\ edge_game_id e = Some (game_id game)
       /\ exists rank,
            In rank [pts_rank defense; reb_rank defense; ast_rank defense;
                     fg3m_rank defense]
            /\ (16 <= rank)%Z
            /\ strength e = py_min (weakness_strength rank) 0.8
            /\ (0.5 < strength e <-> (24 <= rank)%Z)
            /\ ((rank <= 30)%Z -> strength e = weakness_strength rank)) es.
Proof.
  cbv zeta. unfold _find_defensive_weakness_edges. cbv zeta.
  assert (Hedge : forall stat rank allowed what unit opp affected,
    In rank [pts_rank defense; reb_rank defense; ast_rank defense;
             fg3m_rank defense] ->
    (rank >=? 16)%Z = true ->
    let e := weakness_edge stat rank allowed what unit opp affected
               attacking defending game in
    edge_type e = EdgeType.SCHEME /\ is_primary e = true
    /\ edge_team_abbr e = Some attacking
    /\ edge_game_id e = Some (game_id game)
    /\ exists rank,
         In rank [pts_rank defense; reb_rank defense; ast_rank defense;
                  fg3m_rank defense]
         /\ (16 <= rank)%Z
         /\ strength e = py_min (weakness_strength rank) 0.8
         /\ (0.5 < strength e <-> (24 <= rank)%Z)
         /\ ((rank <= 30)%Z -> strength e = weakness_strength rank)).
  { intros stat rank allowed what unit opp affected Hin Hr. cbv zeta.
    do 4 (split; [reflexivity|]). exists rank.
    split; [exact Hin|]. split; [apply Z.geb_le in Hr; exact Hr|].
    split; [reflexivity|]. cbn [strength weakness_edge].
    split; [apply weakness_strength_threshold | apply weakness_strength_uncapped]. }
  cbn [List.filter].
  destruct (pts_rank defense >=? 16)%Z eqn:H1;
  destruct (reb_rank defense >=? 16)%Z eqn:H2;
  destruct (ast_rank defense >=? 16)%Z eqn:H3;
  destruct (fg3m_rank defense >=? 16)%Z eqn:H4;
  cbn [app length]; (split; [reflexivity|]);
  repeat match goal with
  | |- Forall _ (_ :: _) => apply List.Forall_cons
  | |- Forall _ [] => apply List.Forall_nil
  end;
  apply Hedge; cbn [In]; auto 6.
Qed.

(** * Injury edges *)

Lemma py_min_monotone (a b c : Q) : a <= b -> py_min a c <= py_min b c.
Proof.
  intros H. destruct (py_min_spec a c) as [[H1 ->]|[H1 ->]];
    destruct (py_min_spec b c) as [[H2 ->]|[H2 ->]]; lra.
Qed.

(** X13: both injury strengths grow with the injured player's usage and
    minutes, and the opponent strength also when the status moves to out. *)
Theorem injury_strengths_monotone (i j : Injury) :
  usage_rate i <= usage_rate j ->
  minutes_per_game i <= minutes_per_game j ->
  (status i = "out" -> status j = "out") ->
  _calculate_injury_edge_strength i <= _calculate_injury_edge_strength j
  /\ _calculate_teammate_out_strength i <= _calculate_teammate_out_strength j.
Proof.
  intros Hu Hm Hs.
  unfold _calculate_injury_edge_strength, _calculate_teammate_out_strength.
  cbv zeta. split; apply py_min_monotone.
  - assert (Hst : (if String.eqb (status i) "out" then 0.1 else 0)
                  <= (if String.eqb (status j) "out" then 0.1 else 0)).
    { destruct (String.eqb (status i) "out") eqn:Ei.
      - apply String.eqb_eq in Ei. rewrite (Hs Ei). simpl. lra.
      - destruct (String.eqb (status j) "out"); lra. }
    destruct (String.eqb (status i) "out"), (String.eqb (status j) "out");
      qcases; lra.
  - qcases; lra.
Qed.

Lemma injury_strengths_monotone_witness :
  _calculate_injury_edge_strength bench_injury
  <= _calculate_injury_edge_strength star_injury
  /\ _calculate_teammate_out_strength bench_injury
     <= _calculate_teammate_out_strength star_injury.
Proof.
  apply (injury_strengths_monotone bench_injury star_injury);
    [vm_compute; discriminate | vm_compute; discriminate | discriminate].
Defined.

Lemma affected_stats_from_injury_points (injury : Injury) :
  (20 <= usage_rate injury -> In "points" (_get_affected_stats_from_injury injury))
  /\ (15 <= usage_rate injury -> _get_affected_stats_from_injury injury <> []).
Proof.
  unfold _get_affected_stats_from_injury. cbv zeta.
  destruct (Qgeb (usage_rate injury) 20.0) eqn:H20;
    [apply Qgeb_ge in H20 | apply Qgeb_lt in H20];
  destruct (existsb _ ["center"; "forward"; "big"; "rim"; "paint"]);
  destruct (existsb _ ["guard"; "point"; "playmaker"; "ball-handler"]);
  cbn [app];
  try (destruct (Qgeb (usage_rate injury) 15.0) eqn:H15;
       [apply Qgeb_ge in H15 | apply Qgeb_lt in H15]);
  match goal with
  | |- context [unique ?l] =>
      let v := eval vm_compute in (unique l) in change (unique l) with v
  end;
  (split; [intros H; try (exfalso; lra); cbn; tauto|]);
  intros H; try discriminate; exfalso; lra.
Qed.

(** X14: the stats an injury affects are listed once each and are among the
    seven scoring, rebounding and passing types, so an injury edge never
    lists threes or double-doubles; the list is non-empty from a usage of 15
    on, holds points from a usage of 20 on, and whenever it is non-empty it
    holds the points-rebounds-assists combo. *)
Theorem affected_stats_from_injury_profile (injury : Injury) :
  let affected := _get_affected_stats_from_injury injury in
  List.NoDup affected
  /\ (forall s, In s affected ->
        In s ["points"; "pts_rebs_asts"; "pts_asts"; "rebounds"; "pts_rebs";
              "rebs_asts"; "assists"])
  /\ ~ In "threes" affected /\ ~ In "double_double" affected
  /\ (15 <= usage_rate injury -> affected <> [])
  /\ (20 <= usage_rate injury -> In "points" affected)
  /\ (affected <> [] -> In "pts_rebs_asts" affected).
Proof.
  cbv zeta. unfold _get_affected_stats_from_injury. cbv zeta.
  destruct (Qgeb (usage_rate injury) 20.0) eqn:H20;
    [apply Qgeb_ge in H20 | apply Qgeb_lt in H20];
  destruct (existsb _ ["center"; "forward"; "big"; "rim"; "paint"]);
  destruct (existsb _ ["guard"; "point"; "playmaker"; "ball-handler"]);
  cbn [app];
  try (destruct (Qgeb (usage_rate injury) 15.0) eqn:H15;
       [apply Qgeb_ge in H15 | apply Qgeb_lt in H15]);
  match goal with
  | |- context [unique ?l] =>
      let v := eval vm_compute in (unique l) in change (unique l) with v
  end;
  (split; [repeat (apply List.NoDup_cons; [cbn; intuition discriminate|]);
           apply List.NoDup_nil|]);
  (split; [intros s Hs; cbn in Hs |- *; tauto|]);
  (split; [cbn; intuition discriminate|]);
  (split; [cbn; intuition discriminate|]);
  (split; [intros H; try discriminate; exfalso; lra|]);
  (split; [intros H; try (exfalso; lra); cbn; tauto|]);
  intros H; try contradiction; cbn; tauto.
Qed.

(** * Which injuries give a teammate-out edge *)

(** A loop that appends one result for each entry passing a test, and
    nothing else, pairs its results with the passing entries in order. *)
Lemma fold_left_selecting {A B} (R : B -> A -> Prop) (q : A -> bool)
    (step : list B -> A -> list B) (l : list A) :
  (forall acc x,
     (q x = true /\ exists b, step acc x = acc ++ [b] /\ R b x)
     \/ (q x = false /\ step acc x = acc)) ->
  forall init seen,
    Forall2 R init (List.filter q seen) ->
    Forall2 R (fold_left step l init) (List.filter q (seen ++ l)).
Proof.
  intros Hstep. induction l as [|x l IH]; intros init seen Hinit; cbn [fold_left].
  - by rewrite app_nil_r.
  - replace (seen ++ x :: l) with ((seen ++ [x]) ++ l) by by rewrite <- app_assoc.
    apply IH. rewrite List.filter_app. cbn [List.filter].
    destruct (Hstep init x) as [(Hq & b & -> & Hb)|(Hq & ->)]; rewrite Hq.
    + apply Forall2_app; [exact Hinit|]. by repeat constructor.
    + by rewrite app_nil_r.
Qed.

(** X15: under the default strength threshold of 0.5 the teammate-out
    edges of a team are, in order, one for each injury that is out or
    doubtful with usage at least 30 and 30 minutes, or usage at least 25 and
    35 minutes; each has a strength between 0.5 and 0.6 and lists points
    among its stats.  The binary64 sum of the lowest passing tier is the
    threshold itself, so the edge is kept in floating point as well. *)
Theorem teammate_out_emission (env : Env) (team : string) (injuries : list Injury)
    (game : Game) :
  min_edge_strength (settings env) == 0.5 ->
  Forall2 (fun e injury =>
             strength e = _calculate_teammate_out_strength injury
             /\ affected_stats e = _get_affected_stats_from_injury injury
             /\ 0.5 <= strength e <= 0.6
             /\ In "points" (affected_stats e))
          (_find_teammate_out_edges env team injuries game)
          (List.filter teammate_out_qualifies injuries)
  /\ PrimFloat.ltb (0.2 + 0.15 + 0.15)%float 0.5%float = false.
Proof.
  intros Hthr. split; [|reflexivity].
  unfold _find_teammate_out_edges.
  apply (fold_left_selecting _ teammate_out_qualifies _ injuries) with (seen := []);
    [|constructor].
  intros acc injury. unfold teammate_out_qualifies.
  destruct (str_in (status injury) ["out"; "doubtful"]); cbn [negb andb];
    [|right; split; reflexivity].
  unfold _calculate_teammate_out_strength. cbv zeta.
  destruct (affected_stats_from_injury_points injury) as [Hpts _].
  destruct (Qgeb (usage_rate injury) 30.0) eqn:H30;
    [apply Qgeb_ge in H30 | apply Qgeb_lt in H30];
  (destruct (Qgeb (usage_rate injury) 25.0) eqn:H25;
    [apply Qgeb_ge in H25 | apply Qgeb_lt in H25]);
  (destruct (Qgeb (usage_rate injury) 20.0) eqn:H20;
    [apply Qgeb_ge in H20 | apply Qgeb_lt in H20]);
  (destruct (Qgeb (minutes_per_game injury) 35.0) eqn:M35;
    [apply Qgeb_ge in M35 | apply Qgeb_lt in M35]);
  (destruct (Qgeb (minutes_per_game injury) 30.0) eqn:M30;
    [apply Qgeb_ge in M30 | apply Qgeb_lt in M30]);
  try (exfalso; lra);
  (destruct (Qltb (usage_rate injury) 15.0) eqn:U15;
    [apply Qltb_lt in U15 | apply Qltb_ge in U15]);
  try (exfalso; lra);
  (destruct (Qltb (minutes_per_game injury) 25.0) eqn:M25;
    [apply Qltb_lt in M25 | apply Qltb_ge in M25]);
  try (exfalso; lra);
  cbn [andb orb];
  try (right; split; reflexivity);
  match goal with
  | |- context [Qltb (py_min ?a 0.8) ?t] =>
      let H := fresh "Hs" in
      destruct (py_min_spec a 0.8) as [[H ->]|[H ->]];
      try (exfalso; lra);
      (destruct (Qltb a t) eqn:T; [apply Qltb_lt in T | apply Qltb_ge in T]);
      try (exfalso; lra)
  end;
  try (right; split; reflexivity);
  left; (split; [reflexivity|]); eexists; (split; [reflexivity|]);
  cbn [strength affected_stats];
  (split; [reflexivity|]); (split; [reflexivity|]);
  (split; [lra | apply Hpts; lra]).
Qed.

Lemma teammate_out_emission_witness :
  Forall2 (fun e injury =>
             strength e = _calculate_teammate_out_strength injury
             /\ affected_stats e = _get_affected_stats_from_injury injury
             /\ 0.5 <= strength e <= 0.6
             /\ In "points" (affected_stats e))
          (_find_teammate_out_edges sample_env "BOS"
             [bench_injury; star_injury] sample_game)
          (List.filter teammate_out_qualifies [bench_injury; star_injury])
  /\ PrimFloat.ltb (0.2 + 0.15 + 0.15)%float 0.5%float = false.
Proof.
  apply (teammate_out_emission sample_env "BOS" [bench_injury; star_injury]
           sample_game). reflexivity.
Defined.

(** * Role edges *)

Lemma usage_trend_fields (player : Player) (logs : list PlayerGameLog) (e : Edge) :
  _check_usage_trend player logs = Some e ->
  (10 <= length logs)%nat
  /\ edge_type e = EdgeType.ROLE /\ benefiting_player_ids e = [id player]
  /\ edge_team_abbr e = Some (player_team_abbr player)
  /\ edge_game_id e = None /\ is_primary e = true /\ strength e <= 0.7.
Proof.
  unfold _check_usage_trend.
  destruct (Nat.ltb_spec (length logs) 10); [discriminate|]. cbv zeta.
  destruct (_ || _); [|discriminate]. intros [= <-].
  cbn [edge_type benefiting_player_ids edge_team_abbr edge_game_id is_primary
       strength].
  repeat (split; [first [reflexivity | assumption]|]). apply py_min_le_r.
Qed.

Lemma minutes_trend_fields (player : Player) (logs : list PlayerGameLog) (e : Edge) :
  _check_minutes_trend player logs = Some e ->
  (10 <= length logs)%nat
  /\ edge_type e = EdgeType.ROLE /\ benefiting_player_ids e = [id player]
  /\ edge_team_abbr e = Some (player_team_abbr player)
  /\ edge_game_id e = None /\ is_primary e = true /\ strength e <= 0.7.
Proof.
  intros He. pose proof (minutes_trend_strength player logs e He) as Hs.
  revert He. unfold _check_minutes_trend.
  destruct (Nat.ltb_spec (length logs) 10); [discriminate|]. cbv zeta.
  destruct (Qgeb _ 3); [|discriminate]. intros [= <-].
  cbn [edge_type benefiting_player_ids edge_team_abbr edge_game_id is_primary].
  repeat (split; [first [reflexivity | assumption]|]). rewrite Hs. lra.
Qed.

Lemma starter_change_fields (player : Player) (logs : list PlayerGameLog) (e : Edge) :
  _check_starter_change player logs = Some e ->
  (10 <= length logs)%nat
  /\ edge_type e = EdgeType.ROLE /\ benefiting_player_ids e = [id player]
  /\ edge_team_abbr e = Some (player_team_abbr player)
  /\ edge_game_id e = None /\ is_primary e = true /\ strength e <= 0.7.
Proof.
  unfold _check_starter_change.
  destruct (Nat.ltb_spec (length logs) 10); [discriminate|]. cbv zeta.
  destruct (_ && _); [|discriminate]. intros [= <-].
  cbn [edge_type benefiting_player_ids edge_team_abbr edge_game_id is_primary
       strength].
  repeat (split; [first [reflexivity | assumption]|]). lra.
Qed.

(** X16: a player yields at most three role edges (usage, minutes, starting
    role, in this order) and none with fewer than ten games of history,
    whatever the configured minimum; each is a primary role edge naming the
    player and the player's team, carries no game id, and is no stronger
    than 0.7. *)
Theorem role_edges_profile (env : Env) (player : Player) :
  let es := _analyze_player_role env player in
  (length es <= 3)%nat
  /\ ((length (get_player_game_logs env (id player)) < 10)%nat -> es = [])
  /\ Forall (fun e =>
       edge_type e = EdgeType.ROLE /\ benefiting_player_ids e = [id player]
       /\ edge_team_abbr e = Some (player_team_abbr player)
       /\ edge_game_id e = None /\ is_primary e = true /\ strength e <= 0.7) es.
Proof.
  cbv zeta. unfold _analyze_player_role. cbv zeta.
  set (logs := get_player_game_logs env (id player)).
  destruct (_ <? _)%Z; [split; [simpl; lia|]; split; [reflexivity | constructor]|].
  pose proof (usage_trend_fields player logs) as Hu.
  pose proof (minutes_trend_fields player logs) as Hm.
  pose proof (starter_change_fields player logs) as Hs.
  destruct (_check_usage_trend player logs) as [eu|];
  destruct (_check_minutes_trend player logs) as [em|];
  destruct (_check_starter_change player logs) as [es|];
  cbn [opt_to_list app length];
  (split; [lia|]);
  (split; [intros Hlen;
           try (specialize (Hu _ eq_refl)); try (specialize (Hm _ eq_refl));
           try (specialize (Hs _ eq_refl)); try reflexivity; exfalso;
           repeat match goal with H : (10 <= _)%nat /\ _ |- _ => destruct H as [? _] end;
           lia|]);
  repeat match goal with
  | |- Forall _ (_ :: _) => apply List.Forall_cons
  | |- Forall _ [] => apply List.Forall_nil
  end;
  first [apply (Hu _ eq_refl) | apply (Hm _ eq_refl) | apply (Hs _ eq_refl)].
Qed.

(** * What the minutes checks write *)

Lemma py_take_empty_window {A} (n : Z) (l : list A) :
  l <> [] -> (Z.of_nat (length l) >= n)%Z -> py_take n l = [] -> (n <= 0)%Z.
Proof.
  intros Hl Hlen Htake. destruct (Z.leb_spec n 0) as [H|H]; [exact H|exfalso].
  rewrite py_take_nonneg in Htake by lia.
  destruct l as [|x l]; [contradiction|].
  destruct (Z.to_nat n) eqn:E; [lia | discriminate].
Qed.

(** X17: the minutes gate writes nothing but risk notes: when it returns,
    the analysis is the incoming one with at most two notes appended, and
    with none at all when the verdict is False; it raises only for a
    configured window of zero games or fewer. *)
Theorem minutes_gate_only_appends_notes (env : Env) (a : PropAnalysis) :
  match validate_minutes_security env a with
  | Some (verdict, a') =>
      exists notes, a' = with_risk_notes a notes
                    /\ (length notes <= 2)%nat
                    /\ (verdict = false -> notes = [])
  | None => (min_minutes_last_n (settings env) <= 0)%Z /\ player_game_logs a <> []
  end.
Proof.
  unfold validate_minutes_security. cbv zeta.
  destruct (player_game_logs a) as [|g logs] eqn:Hlogs;
    [exists []; simpl; auto|].
  destruct (Z.ltb_spec (Z.of_nat (length (g :: logs)))
              (min_minutes_last_n (settings env))) as [Hshort|Hlong];
    [exists []; simpl; auto|].
  destruct (py_take (min_minutes_last_n (settings env)) (g :: logs))
    as [|r recent] eqn:Hrecent.
  { split; [|discriminate].
    eapply (py_take_empty_window _ (g :: logs)); [discriminate | lia | exact Hrecent]. }
  destruct (Qltb _ (min_minutes_threshold (settings env)));
    [exists []; simpl; auto|].
  destruct (_ && stdev_gt _ 7.0); [exists []; simpl; auto|].
  destruct (_ >? 0)%Z; [exists []; simpl; auto|].
  destruct (Qltb _ 15 && Qgtb _ 25);
    (destruct (10 <=? length (g :: logs))%nat;
      [destruct (Qltb _ (_ - 5))|]);
    eexists;
    (split;
      [first [ instantiate (1 := [_; _]); reflexivity
             | instantiate (1 := [_]); reflexivity
             | instantiate (1 := []); reflexivity ]
      |split; [simpl; lia | discriminate]]).
Qed.

(** The injury-return check writes at most one risk note. *)
Lemma injury_return_check_notes (a : PropAnalysis)
    (injury_status : option string) :
  let r := check_injury_return_restriction a injury_status in
  (fst r = true -> exists note, snd r = with_risk_note a note)
  /\ (fst r = false -> snd r = a)
  /\ ((length (player_game_logs a) < 3)%nat -> r = (false, a))
  /\ r = check_injury_return_restriction a None.
Proof.
  cbv zeta. unfold check_injury_return_restriction. cbv zeta.
  destruct (player_game_logs a) as [|g logs] eqn:Hlogs.
  { cbn [fst snd]. repeat split; auto; discriminate. }
  destruct (Nat.ltb_spec (length (g :: logs)) 3) as [Hshort|Hlong].
  { cbn [fst snd]. repeat split; auto; discriminate. }
  destruct (Qgtb _ _ && Qgtb _ _); [destruct (Qltb _ 20)|];
    try (destruct (10 <=? length (g :: logs))%nat;
         [destruct (Qltb _ (_ - 10))|]);
    cbn [fst snd];
    (split; [intros H; try discriminate; eexists; reflexivity|]);
    (split; [intros H; try discriminate; reflexivity|]);
    (split; [intros H; exfalso; lia | reflexivity]).
Qed.

(** The blowout risk reads the size of the spread only. *)
Lemma blowout_risk_by_spread (a : PropAnalysis) :
  (get_blowout_risk a = "high"
   <-> exists s, spread (game a) = Some s /\ (12 <= s \/ s <= -12))
  /\ (get_blowout_risk a = "medium"
      <-> exists s, spread (game a) = Some s
                    /\ ((8 <= s /\ s < 12) \/ (-12 < s /\ s <= -8)))
  /\ (get_blowout_risk a = "low"
      <-> forall s, spread (game a) = Some s -> -8 < s /\ s < 8).
Proof.
  unfold get_blowout_risk. cbv zeta.
  destruct (spread (game a)) as [s|].
  2:{ split; [|split]; split; try discriminate; try (intros (s & H & _); discriminate).
      reflexivity. }
  unfold py_abs.
  destruct (Qltb s 0) eqn:Hneg; [apply Qltb_lt in Hneg | apply Qltb_ge in Hneg];
  qcases;
  (split; [|split]); split;
  try discriminate; try reflexivity;
  try (intros (s' & [= <-] & H); exfalso; lra);
  try (intros _; exists s; split; [reflexivity | lra]);
  try (intros _ s' [= <-]; lra);
  try (intros H; specialize (H s eq_refl); exfalso; lra).
Qed.

(** X18: the two advisory checks of the minutes module.  The
    injury-return check writes nothing but a risk note: it returns True
    exactly when it appends one note, never two, and leaves the analysis as
    it was when it returns False, as it always does on fewer than three
    games; its status argument is not read.  The blowout risk reads the size
    of the spread only: high from 12 points on either side, medium from 8,
    low otherwise, and low without a spread. *)
Theorem advisory_checks_profile (a : PropAnalysis) (injury_status : option string) :
  let r := check_injury_return_restriction a injury_status in
  ((fst r = true -> exists note, snd r = with_risk_note a note)
   /\ (fst r = false -> snd r = a)
   /\ ((length (player_game_logs a) < 3)%nat -> r = (false, a))
   /\ r = check_injury_return_restriction a None)
  /\ (get_blowout_risk a = "high"
      <-> exists s, spread (game a) = Some s /\ (12 <= s \/ s <= -12))
  /\ (get_blowout_risk a = "medium"
      <-> exists s, spread (game a) = Some s
                    /\ ((8 <= s /\ s < 12) \/ (-12 < s /\ s <= -8)))
  /\ (get_blowout_risk a = "low"
      <-> forall s, spread (game a) = Some s -> -8 < s /\ s < 8).
Proof.
  cbv zeta. split.
  - apply (injury_return_check_notes a injury_status).
  - apply blowout_risk_by_spread.
Qed.

(** * The caps of the diversification pass *)

Lemma picks_of_player_snoc (k : string) (l : list PropAnalysis) (a : PropAnalysis) :
  picks_of_player k (l ++ [a])
  = (picks_of_player k l
     + if String.eqb (name (player a)) k then 1 else 0)%Z.
Proof. unfold picks_of_player. by rewrite count_if_app, count_if_single. Qed.

Lemma picks_of_game_snoc (k : string) (l : list PropAnalysis) (a : PropAnalysis) :
  picks_of_game k (l ++ [a])
  = (picks_of_game k l
     + if String.eqb (game_id (game a)) k then 1 else 0)%Z.
Proof. unfold picks_of_game. by rewrite count_if_app, count_if_single. Qed.

Lemma admitted_for_player_eq (l : list PropAnalysis) (a : PropAnalysis) :
  admitted_for_player l a = picks_of_player (name (player a)) l.
Proof. reflexivity. Qed.

Lemma admitted_for_game_eq (l : list PropAnalysis) (a : PropAnalysis) :
  admitted_for_game l a = picks_of_game (game_id (game a)) l.
Proof. reflexivity. Qed.

Lemma picks_of_player_nonneg (k : string) (l : list PropAnalysis) :
  (0 <= picks_of_player k l)%Z.
Proof. apply count_if_nonneg. Qed.

Lemma picks_of_game_nonneg (k : string) (l : list PropAnalysis) :
  (0 <= picks_of_game k l)%Z.
Proof. apply count_if_nonneg. Qed.

(** The pass keeps the counts under the caps, and what it skips is blocked
    by a cap in the final selection. *)
Lemma spec_diversify_from_caps (mpp mpg : Z) (rest admitted : list PropAnalysis) :
  (forall k, (picks_of_player k admitted <= Z.max 0 mpp)%Z) ->
  (forall k, (picks_of_game k admitted <= Z.max 0 mpg)%Z) ->
  let d := spec_diversify_from admitted rest mpp mpg in
  (forall k, (picks_of_player k d <= Z.max 0 mpp)%Z)
  /\ (forall k, (picks_of_game k d <= Z.max 0 mpg)%Z)
  /\ (forall k, (picks_of_player k admitted <= picks_of_player k d)%Z)
  /\ (forall k, (picks_of_game k admitted <= picks_of_game k d)%Z)
  /\ (forall a, In a rest ->
        In a d
        \/ (mpp <= picks_of_player (name (player a)) d)%Z
        \/ (mpg <= picks_of_game (game_id (game a)) d)%Z).
Proof.
  revert admitted. induction rest as [|a rest IH]; intros admitted Hp Hg; cbv zeta.
  - cbn [spec_diversify_from]. repeat split; auto; try lia. intros a [].
  - cbn [spec_diversify_from].
    rewrite admitted_for_player_eq, admitted_for_game_eq.
    destruct (Z.geb_spec (picks_of_player (name (player a)) admitted) mpp) as [Hbp|Hfp];
      cbn [orb].
    + destruct (IH admitted Hp Hg) as (Cp & Cg & Mp & Mg & Hmax).
      repeat split; auto. intros b [<-|Hb]; [|by apply Hmax].
      right; left. specialize (Mp (name (player a))). lia.
    + destruct (Z.geb_spec (picks_of_game (game_id (game a)) admitted) mpg)
        as [Hbg|Hfg].
      * destruct (IH admitted Hp Hg) as (Cp & Cg & Mp & Mg & Hmax).
        repeat split; auto. intros b [<-|Hb]; [|by apply Hmax].
        right; right. specialize (Mg (game_id (game a))). lia.
      * destruct (IH (admitted ++ [a])) as (Cp & Cg & Mp & Mg & Hmax).
        { intros k. rewrite picks_of_player_snoc.
          destruct (String.eqb_spec (name (player a)) k) as [<-|_];
            [lia | specialize (Hp k); lia]. }
        { intros k. rewrite picks_of_game_snoc.
          destruct (String.eqb_spec (game_id (game a)) k) as [<-|_];
            [lia | specialize (Hg k); lia]. }
        repeat split; auto.
        -- intros k. specialize (Mp k). rewrite picks_of_player_snoc in Mp.
           destruct (String.eqb (name (player a)) k); lia.
        -- intros k. specialize (Mg k). rewrite picks_of_game_snoc in Mg.
           destruct (String.eqb (game_id (game a)) k); lia.
        -- intros b [<-|Hb]; [|by apply Hmax]. left.
           destruct (spec_diversify_from_sublist mpp mpg rest (admitted ++ [a]))
             as (kept & -> & _).
           apply in_app_iff. left. apply in_app_iff. right. by left.
Qed.

(** X20: the diversified list holds at most [max_per_player] entries of any
    player and at most [max_per_game] of any game (none at all for a cap of
    zero or less), and the pass is maximal: every entry it skipped is
    blocked by a cap that the final selection has reached. *)
Theorem diversify_picks_respects_caps (ranked : list PropAnalysis) (mpp mpg : Z) :
  let d := diversify_picks ranked mpp mpg in
  (forall k, (picks_of_player k d <= Z.max 0 mpp)%Z)
  /\ (forall k, (picks_of_game k d <= Z.max 0 mpg)%Z)
  /\ (forall a, In a ranked ->
        In a d
        \/ (mpp <= picks_of_player (name (player a)) d)%Z
        \/ (mpg <= picks_of_game (game_id (game a)) d)%Z)
  /\ ((mpp <= 0)%Z \/ (mpg <= 0)%Z -> d = []).
Proof.
  cbv zeta. rewrite diversify_picks_spec. unfold spec_diversify.
  destruct (spec_diversify_from_caps mpp mpg ranked [])
    as (Cp & Cg & _ & _ & Hmax); [intros k; change (picks_of_player k []) with 0%Z; lia
    |intros k; change (picks_of_game k []) with 0%Z; lia |].
  split; [exact Cp|]. split; [exact Cg|]. split; [exact Hmax|].
  intros Hcap.
  destruct (spec_diversify_from [] ranked mpp mpg) as [|a d] eqn:Hd; [reflexivity|].
  exfalso. destruct Hcap as [H|H].
  - specialize (Cp (name (player a))). unfold picks_of_player, count_if in Cp.
    cbn [List.filter] in Cp. rewrite String.eqb_refl in Cp. cbn [length] in Cp. lia.
  - specialize (Cg (game_id (game a))). unfold picks_of_game, count_if in Cg.
    cbn [List.filter] in Cg. rewrite String.eqb_refl in Cg. cbn [length] in Cg. lia.
Qed.

(** What the pass adds to the admitted entries is admitted again when the
    pass is run on it. *)
Lemma spec_diversify_from_fixed (mpp mpg : Z) (rest admitted : list PropAnalysis) :
  exists kept,
    spec_diversify_from admitted rest mpp mpg = admitted ++ kept
    /\ spec_diversify_from admitted kept mpp mpg = admitted ++ kept.
Proof.
  revert admitted. induction rest as [|a rest IH]; intros admitted;
    cbn [spec_diversify_from].
  - exists []. by rewrite app_nil_r.
  - destruct (_ || _) eqn:Hblocked; [apply IH|].
    destruct (IH (admitted ++ [a])) as (kept & Hrun & Hfix).
    exists (a :: kept). cbn [spec_diversify_from]. rewrite Hblocked.
    rewrite Hrun, Hfix, <- app_assoc. auto.
Qed.

(** X21: diversifying twice changes nothing: the pass run on its own
    output admits every entry. *)
Theorem diversify_picks_idempotent (ranked : list PropAnalysis) (mpp mpg : Z) :
  diversify_picks (diversify_picks ranked mpp mpg) mpp mpg
  = diversify_picks ranked mpp mpg.
Proof.
  rewrite !diversify_picks_spec. unfold spec_diversify.
  destruct (spec_diversify_from_fixed mpp mpg ranked []) as (kept & Hrun & Hfix).
  rewrite Hrun. exact Hfix.
Qed.

(** * The final truncation *)

Lemma filter_idempotent {A} (f : A -> bool) (l : list A) :
  List.filter f (List.filter f l) = List.filter f l.
Proof. apply filter_all_true, Forall_filter_true. Qed.

Lemma filter_take_filter {A} (f : A -> bool) (n : nat) (l : list A) :
  List.filter f (take n (List.filter f l)) = take n (List.filter f l).
Proof.
  apply filter_all_true. eapply sublist_Forall; [apply sublist_take|].
  apply Forall_filter_true.
Qed.

(** X22: the final truncation keeps the first [n] entries that reach the
    0.4 floor: for budgets [0 <= m <= n] the picks for [m] are the first [m]
    picks for [n]; selecting again with the same budget changes nothing; a
    negative budget is read as a slice from the end and drops that many of
    the eligible entries from the tail; without an argument the configured
    [max_picks] is used. *)
Theorem select_top_picks_truncates (env : Env) (analyses : list PropAnalysis) :
  let eligible := List.filter above_floor analyses in
  (forall m n, (0 <= m <= n)%Z ->
     select_top_picks env analyses (Some m)
     = take (Z.to_nat m) (select_top_picks env analyses (Some n)))
  /\ (forall n, (0 <= n)%Z ->
        select_top_picks env (select_top_picks env analyses (Some n)) (Some n)
        = select_top_picks env analyses (Some n))
  /\ (forall k, (0 < k)%Z ->
        select_top_picks env analyses (Some (- k)%Z)
        = take (length eligible - Z.to_nat k) eligible)
  /\ select_top_picks env analyses None
     = select_top_picks env analyses (Some (max_picks (settings env))).
Proof.
  cbv zeta. unfold select_top_picks. cbv zeta.
  change (List.filter (fun a => Qgeb (confidence_score a) 0.4) analyses)
    with (List.filter above_floor analyses).
  split; [|split; [|split]].
  - intros m n [Hm Hn]. rewrite !py_take_nonneg by lia.
    rewrite take_take. f_equal. lia.
  - intros n Hn. rewrite !py_take_nonneg by lia.
    change (fun a => Qgeb (confidence_score a) 0.4) with above_floor.
    rewrite filter_take_filter. rewrite take_take. f_equal. lia.
  - intros k Hk. unfold py_take. destruct (Z.leb_spec 0 (- k)); [lia|].
    by rewrite Z.opp_involutive.
  - reflexivity.
Qed.

(** * The five factors of the confidence score *)

Lemma Qsum_nonneg (l : list Q) : Forall (fun x => 0 <= x) l -> 0 <= Qsum l.
Proof.
  induction 1 as [|x l Hx _ IH]; [unfold Qsum; simpl; lra|].
  rewrite Qsum_cons. lra.
Qed.

Lemma Qlen_pos {A} (l : list A) : l <> [] -> 0 < Qlen l.
Proof.
  intros Hl. unfold Qlen. change 0 with (inject_Z 0). rewrite <- Zlt_Qlt.
  destruct l; [contradiction | simpl; lia].
Qed.

Lemma Qlen_nonneg {A} (l : list A) : 0 <= Qlen l.
Proof. unfold Qlen. change 0 with (inject_Z 0). rewrite <- Zle_Qle. lia. Qed.

Lemma Qdiv_nonneg (a b : Q) : 0 <= a -> 0 < b -> 0 <= a / b.
Proof.
  intros Ha Hb. apply Qle_shift_div_l; [exact Hb|]. lra.
Qed.

Lemma edge_score_bounds (a : PropAnalysis) :
  _calculate_edge_score a <= 1
  /\ (Forall (fun e => 0 <= strength e) (edges a) -> 0 <= _calculate_edge_score a).
Proof.
  unfold _calculate_edge_score. cbv zeta.
  destruct (edges a) as [|e es] eqn:He; [split; [lra | intros _; lra]|].
  set (l := e :: es). split; [eapply Qle_trans; [apply py_min_le_r | lra]|].
  intros Hpos.
  assert (Havg : 0 <= Qsum (map strength l) / Qlen l).
  { apply Qdiv_nonneg; [|apply Qlen_pos; discriminate].
    apply Qsum_nonneg. apply Forall_map. exact Hpos. }
  pose proof (Qlen_nonneg l) as Hlen.
  pose proof (Qlen_nonneg (List.filter is_primary l)) as Hprim.
  destruct (py_min_spec (Qlen l * 0.1) 0.3) as [[Hm Em]|[Hm Em]]; rewrite Em;
  match goal with
  | |- 0 <= py_min ?x 1.0 =>
      destruct (py_min_spec x 1.0) as [[H1 ->]|[H1 ->]]
  end; lra.
Qed.

Lemma sample_quality_score_bounds (a : PropAnalysis) (splits : gmap string SplitStats) :
  0 <= _calculate_sample_quality_score a splits <= 1.
Proof.
  unfold _calculate_sample_quality_score. cbv zeta.
  destruct (player_game_logs a) as [|g logs]; [lra|].
  split; [|eapply Qle_trans; [apply py_min_le_r | lra]].
  match goal with
  | |- 0 <= py_min ?x 1.0 =>
      assert (Hx : 0 <= x); [|destruct (py_min_spec x 1.0) as [[H1 ->]|[H1 ->]]; lra]
  end.
  repeat match goal with
  | |- context [if ?b then _ else _] => destruct b
  | |- context [match ?o with Some _ => _ | None => _ end] => destruct o
  end; lra.
Qed.

Lemma odds_value_score_bounds (p : PlayerProp) (a : PropAnalysis) :
  0 <= _calculate_odds_value_score p a <= 1.
Proof.
  unfold _calculate_odds_value_score. cbv zeta.
  set (odds := if String.eqb (direction a) "over" then over_odds p else under_odds p).
  destruct (Z.gtb_spec odds 0) as [Hpos|_].
  - assert (Hq : 0 <= inject_Z odds / 500).
    { apply Qdiv_nonneg; [|lra]. change 0 with (inject_Z 0). rewrite <- Zle_Qle. lia. }
    destruct (py_min_spec (inject_Z odds / 500) 0.2) as [[H ->]|[H ->]]; lra.
  - repeat match goal with
    | |- context [if ?b then _ else _] => destruct b
    end; lra.
Qed.

Lemma alignment_score_bounds (p : PlayerProp) (a : PropAnalysis) :
  0 <= _calculate_alignment_score p a <= 1.
Proof.
  unfold _calculate_alignment_score. cbv zeta.
  split; [|eapply Qle_trans; [apply py_min_le_r | lra]].
  match goal with
  | |- 0 <= py_min ?x 1.0 =>
      assert (Hx : 0 <= x); [|destruct (py_min_spec x 1.0) as [[H1 ->]|[H1 ->]]; lra]
  end.
  destruct (Qgtb _ 0); destruct (Qgeb _ 2); try lra;
    destruct (Qgeb _ 1); try lra; destruct (Qgeb _ 0.5); try lra;
    destruct (Qgtb _ 0); lra.
Qed.

Lemma minutes_security_score_bounds (env : Env) (a : PropAnalysis) :
  0 <= calculate_minutes_security_score env a <= 1.
Proof.
  unfold calculate_minutes_security_score. cbv zeta.
  destruct (_ <? 3)%nat; [lra|]. apply unit_clamp_bounds.
Qed.

(** X23: the confidence score is the weighted sum of its five factors
    with weights 0.35, 0.25, 0.15, 0.15 and 0.10; every factor is at most 1
    and the weights add up to 1, so the final cap at 1.0 never applies.
    The score is at least 0 when no matched edge has a negative strength;
    four of the factors are never negative, the edge factor can be. *)
Theorem confidence_score_is_weighted_sum (env : Env) (p : PlayerProp)
    (a : PropAnalysis) (splits : gmap string SplitStats) :
  let weighted :=
    _calculate_edge_score a * 0.35
    + calculate_minutes_security_score env a * 0.25
    + _calculate_sample_quality_score a splits * 0.15
    + _calculate_odds_value_score p a * 0.15
    + _calculate_alignment_score p a * 0.10 in
  calculate_confidence_score env p a splits == weighted
  /\ calculate_confidence_score env p a splits <= 1
  /\ (Forall (fun e => 0 <= strength e) (edges a) ->
      0 <= calculate_confidence_score env p a splits)
  /\ 0 <= calculate_minutes_security_score env a <= 1
  /\ 0 <= _calculate_sample_quality_score a splits <= 1
  /\ 0 <= _calculate_odds_value_score p a <= 1
  /\ 0 <= _calculate_alignment_score p a <= 1
  /\ _calculate_edge_score a <= 1.
Proof.
  cbv zeta. unfold calculate_confidence_score. cbv zeta.
  pose proof (edge_score_bounds a) as [He Hepos].
  pose proof (minutes_security_score_bounds env a) as Hm.
  pose proof (sample_quality_score_bounds a splits) as Hs.
  pose proof (odds_value_score_bounds p a) as Ho.
  pose proof (alignment_score_bounds p a) as Ha.
  set (e := _calculate_edge_score a) in *.
  set (m := calculate_minutes_security_score env a) in *.
  set (sq := _calculate_sample_quality_score a splits) in *.
  set (o := _calculate_odds_value_score p a) in *.
  set (al := _calculate_alignment_score p a) in *.
  destruct (py_min_spec (0.0 + e * 0.35 + m * 0.25 + sq * 0.15 + o * 0.15 + al * 0.10)
              1.0) as [[H _]|[H ->]]; [exfalso; lra|].
  split; [ring|]. split; [lra|]. split; [|tauto].
  intros Hpos. specialize (Hepos Hpos). lra.
Qed.

(** * The odds factor and the odds filter *)

Lemma fold_left_filter {A} (f : A -> bool) (l acc : list A) :
  fold_left (fun filtered x => if f x then filtered ++ [x] else filtered) l acc
  = acc ++ List.filter f l.
Proof.
  revert acc. induction l as [|x l IH]; intros acc; simpl.
  - by rewrite app_nil_r.
  - rewrite IH. destruct (f x); [by rewrite <- app_assoc | reflexivity].
Qed.

Lemma filter_props_by_odds_filter (props : list PlayerProp) (max_juice : Z) :
  filter_props_by_odds props max_juice
  = List.filter (fun p => (over_odds p >=? max_juice)%Z
                          || (under_odds p >=? max_juice)%Z) props.
Proof. unfold filter_props_by_odds. by rewrite fold_left_filter. Qed.

Lemma odds_score_of (p : PlayerProp) (a : PropAnalysis) :
  let odds := chosen_odds p a in
  ((100 <= odds)%Z /\ _calculate_odds_value_score p a == 1)
  \/ ((0 < odds < 100)%Z
      /\ _calculate_odds_value_score p a == 0.8 + inject_Z odds / 500
      /\ 0.8 < _calculate_odds_value_score p a < 1)
  \/ ((-115 <= odds <= 0)%Z /\ _calculate_odds_value_score p a = 0.7)
  \/ ((-130 <= odds < -115)%Z /\ _calculate_odds_value_score p a = 0.5)
  \/ ((-140 <= odds < -130)%Z /\ _calculate_odds_value_score p a = 0.3)
  \/ ((odds < -140)%Z /\ _calculate_odds_value_score p a = 0.0).
Proof.
  cbv zeta. unfold _calculate_odds_value_score, chosen_odds. cbv zeta.
  set (odds := if String.eqb (direction a) "over" then over_odds p else under_odds p).
  destruct (Z.gtb_spec odds 0) as [Hpos|Hneg].
  - assert (H0 : 0 < inject_Z odds).
    { change 0 with (inject_Z 0). rewrite <- Zlt_Qlt. lia. }
    destruct (Z.le_gt_cases 100 odds) as [Hbig|Hsmall].
    + left. split; [exact Hbig|].
      assert (H1 : 100 <= inject_Z odds).
      { change 100 with (inject_Z 100). rewrite <- Zle_Qle. lia. }
      destruct (py_min_spec (inject_Z odds / 500) 0.2) as [[H ->]|[H ->]];
        [lra|]. revert H. qlra.
    + right; left. split; [lia|].
      assert (H1 : inject_Z odds < 100).
      { change 100 with (inject_Z 100). rewrite <- Zlt_Qlt. lia. }
      destruct (py_min_spec (inject_Z odds / 500) 0.2) as [[H E]|[H ->]].
      * exfalso. revert H. qlra.
      * split; [reflexivity|]. qlra.
  - right; right.
    destruct (Z.geb_spec odds (-115)); [left; split; [lia | reflexivity]|right].
    destruct (Z.geb_spec odds (-130)); [left; split; [lia | reflexivity]|right].
    destruct (Z.geb_spec odds (-140)); [left | right]; (split; [lia | reflexivity]).
Qed.

(** X24: the odds factor reads the price of the analysis's own direction
    and grows with it: 1.0 exactly from +100 on, above 0.8 exactly for plus
    money, at least 0.3 exactly down to -140, and 0.0 below.  The odds
    filter keeps a prop when either side is at -140 or better, so a kept
    prop whose direction has the worse price still scores 0.0: the filter
    bounds the better side only. *)
Theorem odds_value_score_tiers (p : PlayerProp) (a : PropAnalysis) :
  (_calculate_odds_value_score p a == 1 <-> (100 <= chosen_odds p a)%Z)
  /\ (0.8 < _calculate_odds_value_score p a <-> (0 < chosen_odds p a)%Z)
  /\ (0.3 <= _calculate_odds_value_score p a <-> (-140 <= chosen_odds p a)%Z)
  /\ (_calculate_odds_value_score p a == 0 <-> (chosen_odds p a < -140)%Z)
  /\ (forall q b, (chosen_odds p a <= chosen_odds q b)%Z ->
        _calculate_odds_value_score p a <= _calculate_odds_value_score q b)
  /\ (forall props, In p (filter_props_by_odds props (-140)) ->
        0.3 <= _calculate_odds_value_score p a \/ (-140 <= other_odds p a)%Z)
  /\ (In lopsided_prop (filter_props_by_odds [lopsided_prop] (-140))
      /\ _calculate_odds_value_score lopsided_prop under_analysis == 0).
Proof.
  pose proof (odds_score_of p a) as Hp. cbv zeta in Hp.
  split; [|split; [|split; [|split; [|split; [|split]]]]].
  - destruct Hp as [[H E]|[(H & E & B)|[[H E]|[[H E]|[[H E]|[H E]]]]]];
      rewrite ?E; split; intros H'; try lia; try lra; try reflexivity;
      exfalso; revert H'; lra.
  - destruct Hp as [[H E]|[(H & E & B)|[[H E]|[[H E]|[[H E]|[H E]]]]]];
      rewrite ?E; split; intros H'; try lia; try lra.
  - destruct Hp as [[H E]|[(H & E & B)|[[H E]|[[H E]|[[H E]|[H E]]]]]];
      rewrite ?E; split; intros H'; try lia; try lra.
  - destruct Hp as [[H E]|[(H & E & B)|[[H E]|[[H E]|[[H E]|[H E]]]]]];
      rewrite ?E; split; intros H'; try lia; try lra; try reflexivity;
      exfalso; revert H'; lra.
  - intros q b Hle. pose proof (odds_score_of q b) as Hq. cbv zeta in Hq.
    destruct Hp as [[H E]|[(H & E & B)|[[H E]|[[H E]|[[H E]|[H E]]]]]];
    destruct Hq as [[H' E']|[(H' & E' & B')|[[H' E']|[[H' E']|[[H' E']|[H' E']]]]]];
      try lia; rewrite ?E, ?E'; try lra.
    assert (Hq : inject_Z (chosen_odds p a) <= inject_Z (chosen_odds q b))
      by (rewrite <- Zle_Qle; exact Hle).
    qlra.
  - intros props Hin. rewrite filter_props_by_odds_filter in Hin.
    apply filter_In in Hin as [_ Hkept]. apply orb_true_iff in Hkept.
    unfold other_odds.
    destruct Hp as [[H E]|[(H & E & B)|[[H E]|[[H E]|[[H E]|[H E]]]]]];
      rewrite ?E; try (left; lra).
    right. unfold chosen_odds in H.
    destruct (String.eqb (direction a) "over"), Hkept as [Hk|Hk];
      apply Z.geb_le in Hk; lia.
  - split; [left; reflexivity | reflexivity].
Qed.

(** * The stable descending sort *)

Section Sorting.
Context {A : Type} (lt : A -> A -> bool).

Lemma insert_desc_perm (x : A) (l : list A) : insert_desc lt x l ≡ₚ x :: l.
Proof.
  induction l as [|y l IH]; simpl; [reflexivity|].
  destruct (lt x y); [|reflexivity].
  rewrite IH. apply Permutation_swap.
Qed.

Lemma sort_desc_perm (l : list A) : sort_desc lt l ≡ₚ l.
Proof.
  unfold sort_desc. induction l as [|x l IH]; simpl; [reflexivity|].
  rewrite insert_desc_perm. by rewrite IH.
Qed.

Hypothesis lt_asym : forall x y, lt x y = true -> lt y x = false.
Hypothesis ge_trans : forall x y z, lt x y = false -> lt y z = false -> lt x z = false.

Lemma insert_desc_sorted (x : A) (l : list A) :
  StronglySorted (fun a b => lt a b = false) l ->
  StronglySorted (fun a b => lt a b = false) (insert_desc lt x l).
Proof.
  induction 1 as [|y l Hs IH Hy]; simpl; [repeat constructor|].
  destruct (lt x y) eqn:Hxy.
  - constructor; [exact IH|].
    rewrite insert_desc_perm. constructor; [by apply lt_asym | exact Hy].
  - constructor; [by constructor|]. constructor; [exact Hxy|].
    eapply List.Forall_impl; [|exact Hy]. intros z Hz. by eapply ge_trans.
Qed.

Lemma sort_desc_sorted (l : list A) :
  StronglySorted (fun a b => lt a b = false) (sort_desc lt l).
Proof.
  unfold sort_desc. induction l as [|x l IH]; simpl; [constructor|].
  by apply insert_desc_sorted.
Qed.

(** Entries that are pairwise not below each other keep their order. *)
Lemma insert_desc_stable (P : A -> bool) (x : A) (l : list A) :
  (forall y, P x = true -> P y = true -> lt x y = false) ->
  List.filter P (insert_desc lt x l) = List.filter P (x :: l).
Proof.
  intros HP. induction l as [|y l IH]; [reflexivity|]. cbn [insert_desc].
  destruct (lt x y) eqn:Hxy; [|reflexivity].
  cbn [List.filter] in *. rewrite IH.
  destruct (P x) eqn:Hx; [|reflexivity].
  destruct (P y) eqn:Hy; [|reflexivity].
  rewrite HP in Hxy by auto. discriminate.
Qed.

Lemma sort_desc_stable (P : A -> bool) (l : list A) :
  (forall x y, P x = true -> P y = true -> lt x y = false) ->
  List.filter P (sort_desc lt l) = List.filter P l.
Proof.
  intros HP. unfold sort_desc. induction l as [|x l IH]; [reflexivity|].
  cbn [foldr]. rewrite insert_desc_stable by (intros y; apply HP).
  cbn [List.filter]. by rewrite IH.
Qed.

End Sorting.

Lemma StronglySorted_weaken {A} (R R' : A -> A -> Prop) (l : list A) :
  (forall x y, R x y -> R' x y) -> StronglySorted R l -> StronglySorted R' l.
Proof.
  intros HR. induction 1 as [|x l Hs IH Hx]; constructor; [exact IH|].
  eapply List.Forall_impl; [|exact Hx]. intros y. apply HR.
Qed.

Lemma sort_by_confidence_sorted (l : list Candidate) :
  StronglySorted (fun c1 c2 => confidence c2 <= confidence c1)
    (sort_desc confidence_below l).
Proof.
  eapply StronglySorted_weaken;
    [|apply (sort_desc_sorted confidence_below)].
  - intros c1 c2 H. unfold confidence_below in H. apply Qltb_ge in H. exact H.
  - intros x y H. unfold confidence_below in *. apply Qltb_lt in H.
    apply Qltb_ge. lra.
  - intros x y z H1 H2. unfold confidence_below in *.
    apply Qltb_ge in H1, H2. apply Qltb_ge. lra.
Qed.

(** * The ranker *)

Lemma same_core_refl (a : PropAnalysis) : same_core a a.
Proof. unfold same_core. repeat split; reflexivity. Qed.

Lemma same_core_trans (a b c : PropAnalysis) :
  same_core a b -> same_core b c -> same_core a c.
Proof. unfold same_core. intuition congruence. Qed.

(** The gate hands back the analysis it was given, up to risk notes. *)
Lemma gate_keeps_core (env : Env) (a a' : PropAnalysis) (verdict : bool) :
  validate_minutes_security env a = Some (verdict, a') ->
  same_core a a'
  /\ confidence_score a' = confidence_score a
  /\ minutes_security_score a' = minutes_security_score a.
Proof.
  unfold validate_minutes_security. cbv zeta.
  destruct (player_game_logs a) as [|g logs] eqn:Hlogs.
  { intros [= <- <-]. split; [apply same_core_refl | auto]. }
  destruct (_ <? _)%Z.
  { intros [= <- <-]. split; [apply same_core_refl | auto]. }
  destruct (py_take _ _) as [|r recent]; [discriminate|].
  destruct (Qltb _ (min_minutes_threshold (settings env))).
  { intros [= <- <-]. split; [apply same_core_refl | auto]. }
  destruct (_ && stdev_gt _ 7.0).
  { intros [= <- <-]. split; [apply same_core_refl | auto]. }
  destruct (_ >? 0)%Z.
  { intros [= <- <-]. split; [apply same_core_refl | auto]. }
  destruct (Qltb _ 15 && Qgtb _ 25);
    (destruct (10 <=? length (g :: logs))%nat;
      [destruct (Qltb _ (_ - 5))|]);
    intros [= <- <-]; (split; [|split; reflexivity]);
    unfold same_core; repeat split; reflexivity.
Qed.

(** A loop of computations that leave the store alone. *)
Lemma wp_mapM_pure {A B} (f : A -> M B) (R : A -> B -> Prop) (l : list A)
    (s : Store) :
  Forall (fun x => wp (f x) (fun y s' => s' = s /\ R x y) s) l ->
  wp (mapM f l) (fun ys s' => s' = s /\ Forall2 R l ys) s.
Proof.
  induction 1 as [|x l Hx _ IH]; cbn [mapM].
  - apply wp_ret. split; [reflexivity | constructor].
  - apply wp_bind. eapply wp_mono; [exact Hx|].
    intros y s' [-> Hy]. apply wp_bind. eapply wp_mono; [exact IH|].
    intros ys s' [-> Hys]. apply wp_ret. split; [reflexivity | by constructor].
Qed.

Lemma gate_loop_spec (env : Env) (analyses : list Candidate) (s : Store) :
  (1 <= min_minutes_last_n (settings env))%Z ->
  wp (foldM (gate_step env) analyses [])
     (fun valid s' =>
        s' = s
        /\ Forall2 (fun c c1 =>
                      exists a', validate_minutes_security env (cand_analysis c)
                                 = Some (true, a')
                                 /\ c1 = {| cand_analysis := a';
                                            conditional_splits := conditional_splits c |})
                   (List.filter (gate_passes env) analyses) valid) s.
Proof.
  intros Hn.
  set (R := fun c c1 =>
              exists a', validate_minutes_security env (cand_analysis c)
                         = Some (true, a')
                         /\ c1 = {| cand_analysis := a';
                                    conditional_splits := conditional_splits c |}).
  eapply wp_mono.
  - apply (wp_foldM (gate_step env)
             (fun rest acc s' =>
                s' = s
                /\ exists seen, analyses = seen ++ rest
                   /\ Forall2 R (List.filter (gate_passes env) seen) acc)).
    + split; [reflexivity|]. exists []. split; [reflexivity | constructor].
    + intros c rest acc s' (-> & seen & -> & Hacc).
      unfold gate_step.
      destruct (validate_minutes_security_verdict env (cand_analysis c) Hn)
        as [[_ Hv]|[_ [a' Hv]]]; rewrite Hv; apply wp_ret;
        (split; [reflexivity|]); exists (seen ++ [c]);
        (split; [by rewrite <- app_assoc|]);
        rewrite List.filter_app; cbn [List.filter]; unfold gate_passes at 2;
        rewrite Hv.
      * by rewrite app_nil_r.
      * apply Forall2_app; [exact Hacc|]. repeat constructor. by exists a'.
  - intros valid s' (-> & seen & Hseen & Hacc). split; [reflexivity|].
    rewrite app_nil_r in Hseen. by subst.
Qed.

Lemma Forall2_compose {A B C} (R1 : A -> B -> Prop) (R2 : B -> C -> Prop)
    (R : A -> C -> Prop) (l1 : list A) (l2 : list B) (l3 : list C) :
  (forall x y z, R1 x y -> R2 y z -> R x z) ->
  Forall2 R1 l1 l2 -> Forall2 R2 l2 l3 -> Forall2 R l1 l3.
Proof.
  intros HR H12. revert l3. induction H12 as [|x y l1 l2 Hxy _ IH]; intros l3 H23.
  - inversion H23. constructor.
  - inversion H23 as [|? z ? l3' Hyz H23']; subst. constructor; eauto.
Qed.

Lemma Forall2_Forall_right {A B} (R : A -> B -> Prop) (P : A -> Prop)
    (Q : B -> Prop) (l : list A) (l' : list B) :
  (forall x y, R x y -> P x -> Q y) ->
  Forall2 R l l' -> Forall P l -> Forall Q l'.
Proof.
  intros HR H. induction H as [|x y l l' Hxy _ IH]; intros HP; [constructor|].
  inversion HP; subst. constructor; eauto.
Qed.

Lemma score_step_spec (env : Env) (c1 : Candidate) (s : Store) :
  (prop (cand_analysis c1) < length (store_props s))%nat ->
  wp (score_step env c1)
     (fun c' s' =>
        s' = s
        /\ exists p, store_props s !! prop (cand_analysis c1) = Some p
             /\ c' = {| cand_analysis :=
                          with_minutes_security_score
                            (with_confidence_score (cand_analysis c1)
                               (calculate_confidence_score env p
                                  (cand_analysis c1) (conditional_splits c1)))
                            (calculate_minutes_security_score env
                               (cand_analysis c1));
                        conditional_splits := conditional_splits c1 |}) s.
Proof.
  intros Hr. destruct (lookup_lt_is_Some_2 _ _ Hr) as [p Hp].
  unfold score_step. cbv zeta.
  apply wp_bind. eapply wp_get_prop; [exact Hp|]. apply wp_ret.
  split; [reflexivity|]. exists p. split; [exact Hp | reflexivity].
Qed.

(** What [rank_props] computes: the gate, the scores, the sort. *)
Lemma rank_props_run (env : Env) (analyses : list Candidate) (s : Store) :
  (1 <= min_minutes_last_n (settings env))%Z ->
  Forall (fun c => (prop (cand_analysis c) < length (store_props s))%nat) analyses ->
  wp (rank_props env analyses)
     (fun ranked s' =>
        s' = s
        /\ exists scored,
             Forall2 (scored_from env s) (List.filter (gate_passes env) analyses) scored
             /\ ranked = sort_desc confidence_below scored) s.
Proof.
  intros Hn Hrefs. unfold rank_props.
  apply wp_bind. eapply wp_mono; [by apply gate_loop_spec|].
  intros valid s' [-> Hvalid].
  assert (Hvrefs : Forall (fun c1 => (prop (cand_analysis c1)
                                      < length (store_props s))%nat) valid).
  { eapply Forall2_Forall_right; [|exact Hvalid|].
    - intros c c1 (a' & Hv & ->) Hc. cbn [cand_analysis].
      apply gate_keeps_core in Hv as [(Hprop & _) _]. rewrite Hprop. exact Hc.
    - eapply sublist_Forall; [apply filter_sublist | exact Hrefs]. }
  apply wp_bind. eapply wp_mono.
  - apply wp_mapM_pure. eapply List.Forall_impl; [|exact Hvrefs].
    intros c1 Hc1. apply score_step_spec, Hc1.
  - intros scored s' [-> Hscored]. apply wp_ret. split; [reflexivity|].
    exists scored. split; [|reflexivity].
    eapply Forall2_compose; [|exact Hvalid|exact Hscored].
    intros c c1 c' (a' & Hv & ->) (p & Hp & ->).
    cbn [cand_analysis conditional_splits] in *.
    exists a', p. auto.
Qed.

(** X25: with a window of at least one game and every analysis pointing at
    a prop of the store, [rank_props] returns without touching the store;
    its result is a rearrangement of the analyses that pass the minutes
    gate, each with the gate's notes appended and both scores written; it
    is in descending order of confidence, and analyses of equal confidence
    keep the order in which they came in. *)
Theorem rank_props_sorts_the_gated (env : Env) (analyses : list Candidate)
    (s : Store) :
  (1 <= min_minutes_last_n (settings env))%Z ->
  Forall (fun c => (prop (cand_analysis c) < length (store_props s))%nat) analyses ->
  wp (rank_props env analyses)
     (fun ranked s' =>
        s' = s
        /\ exists scored,
             Forall2 (scored_from env s) (List.filter (gate_passes env) analyses) scored
             /\ ranked ≡ₚ scored
             /\ StronglySorted (fun c1 c2 => confidence c2 <= confidence c1) ranked
             /\ forall k,
                  List.filter (fun c => Qeqb (confidence c) k) ranked
                  = List.filter (fun c => Qeqb (confidence c) k) scored) s.
Proof.
  intros Hn Hrefs. eapply wp_mono; [by apply rank_props_run|].
  intros ranked s' (-> & scored & Hscored & ->). split; [reflexivity|].
  exists scored. split; [exact Hscored|]. split; [apply sort_desc_perm|].
  split; [apply sort_by_confidence_sorted|].
  intros k. apply sort_desc_stable. intros x y Hx Hy.
  apply Qeqb_eq in Hx, Hy. unfold confidence_below. apply Qltb_ge.
  unfold confidence in *. lra.
Qed.

Lemma rank_props_sorts_the_gated_witness :
  wp (rank_props sample_env sample_candidates)
     (fun ranked s' =>
        s' = sample_store
        /\ exists scored,
             Forall2 (scored_from sample_env sample_store)
               (List.filter (gate_passes sample_env) sample_candidates) scored
             /\ ranked ≡ₚ scored
             /\ StronglySorted (fun c1 c2 => confidence c2 <= confidence c1) ranked
             /\ forall k,
                  List.filter (fun c => Qeqb (confidence c) k) ranked
                  = List.filter (fun c => Qeqb (confidence c) k) scored) sample_store.
Proof.
  apply (rank_props_sorts_the_gated sample_env sample_candidates sample_store).
  - vm_compute. discriminate.
  - repeat constructor.
Defined.

(** * Enrichment and the sample factor *)

Lemma filter_partition_length {A} (f : A -> bool) (l : list A) :
  (length (List.filter f l) + length (List.filter (fun x => negb (f x)) l)
   = length l)%nat.
Proof.
  induction l as [|x l IH]; simpl; [reflexivity|].
  destruct (f x); simpl; lia.
Qed.

Lemma size_pos_lookup (m : gmap string SplitStats) (k : string) (v : SplitStats) :
  m !! k = Some v -> (0 <? size m)%nat = true.
Proof.
  intros H. apply Nat.ltb_lt.
  destruct (size m) eqn:E; [|lia].
  apply map_size_empty_iff in E. subst. by rewrite lookup_empty in H.
Qed.

(** The sample factor once a home or an away split is on file. *)
Lemma sample_quality_with_splits (a : PropAnalysis) (splits : gmap string SplitStats) :
  (0 <? size splits)%nat = true ->
  player_game_logs a <> [] ->
  0.2 <= _calculate_sample_quality_score a splits
  /\ ((5 <= length (player_game_logs a))%nat ->
      0.5 <= _calculate_sample_quality_score a splits)
  /\ ((30 <= length (player_game_logs a))%nat ->
      0.8 <= _calculate_sample_quality_score a splits).
Proof.
  intros Hsize Hlogs. unfold _calculate_sample_quality_score. cbv zeta.
  destruct (player_game_logs a) as [|g logs]; [contradiction|].
  rewrite Hsize. set (n := length (g :: logs)).
  match goal with
  | |- context [py_min ?x 1.0] =>
      destruct (py_min_spec x 1.0) as [[H1 ->]|[H1 ->]]; [repeat split; intros; lra|]
  end.
  clear H1.
  destruct (Nat.leb_spec 30 n); [|destruct (Nat.leb_spec 20 n);
    [|destruct (Nat.leb_spec 10 n); [|destruct (Nat.leb_spec 5 n)]]];
  (destruct (splits !! "vs_opponent") as [h2h|];
    [destruct (split_games h2h >=? 2)%Z|]);
  (destruct (Nat.leb_spec 5 n); try lia);
  repeat split; intros; try lia; lra.
Qed.

(** X26: enriching a fresh analysis leaves the analysis and the store as
    they are and files at most the splits vs_opponent, home and away; a home
    or an away split is filed exactly when the player has game logs, and
    together the two count every game once.  So after enrichment the sample
    factor is 0 exactly for a player without logs, at least 0.2 with logs,
    at least 0.5 from five games on and at least 0.8 from thirty. *)
Theorem enrichment_files_splits (history : Z -> string -> list PlayerGameLog)
    (a : PropAnalysis) (p : PlayerProp) (s : Store) :
  store_props s !! prop a = Some p ->
  wp (enrich_analysis_with_context history (new_candidate a))
     (fun c' s' =>
        let splits := conditional_splits c' in
        s' = s /\ cand_analysis c' = a
        /\ (forall k, splits !! k <> None ->
              k = "vs_opponent" \/ k = "home" \/ k = "away")
        /\ (split_count splits "home" + split_count splits "away"
            = Z.of_nat (length (player_game_logs a)))%Z
        /\ (player_game_logs a = [] -> _calculate_sample_quality_score a splits = 0.0)
        /\ (player_game_logs a <> [] ->
              0.2 <= _calculate_sample_quality_score a splits
              /\ ((5 <= length (player_game_logs a))%nat ->
                  0.5 <= _calculate_sample_quality_score a splits)
              /\ ((30 <= length (player_game_logs a))%nat ->
                  0.8 <= _calculate_sample_quality_score a splits))) s.
Proof.
  intros Hp. unfold enrich_analysis_with_context. cbv zeta.
  cbn [cand_analysis conditional_splits new_candidate].
  apply wp_bind. eapply wp_get_prop; [exact Hp|]. apply wp_ret.
  cbv zeta. cbn [cand_analysis conditional_splits].
  split; [reflexivity|]. split; [reflexivity|].
  set (base :=
    if negb (id (player a) =? 0)%Z
    then match history (id (player a)) (abbr (opponent a)) with
         | [] => ∅
         | _ :: _ =>
             <["vs_opponent" :=
                 {| split_games :=
                      Z.of_nat (length (history (id (player a)) (abbr (opponent a))));
                    split_avg :=
                      _calculate_avg_from_logs
                        (history (id (player a)) (abbr (opponent a)))
                        (prop_type p) |}]> (∅ : gmap string SplitStats)
         end
    else ∅).
  assert (Hbase : forall k, base !! k <> None -> k = "vs_opponent").
  { intros k. unfold base. destruct (negb _); [|by rewrite lookup_empty].
    destruct (history _ _); [by rewrite lookup_empty|].
    destruct (String.eqb_spec k "vs_opponent") as [->|Hne]; [auto|].
    rewrite lookup_insert_ne by auto. by rewrite lookup_empty. }
  assert (Hbh : base !! "home" = None).
  { destruct (base !! "home") eqn:E; [|reflexivity].
    assert (H : "home" = "vs_opponent") by (apply Hbase; congruence). discriminate. }
  assert (Hba : base !! "away" = None).
  { destruct (base !! "away") eqn:E; [|reflexivity].
    assert (H : "away" = "vs_opponent") by (apply Hbase; congruence). discriminate. }
  clearbody base.
  destruct (player_game_logs a) as [|g logs] eqn:Hlogs.
  { split; [|split; [|split]].
    - intros k Hk. left. by apply Hbase.
    - unfold split_count. by rewrite Hbh, Hba.
    - intros _. unfold _calculate_sample_quality_score. by rewrite Hlogs.
    - intros H. contradiction. }
  set (l := g :: logs) in *.
  pose proof (filter_partition_length log_is_home l) as Hpart.
  set (home := List.filter log_is_home l) in *.
  set (away := List.filter (fun g0 => negb (log_is_home g0)) l) in *.
  set (sh := {| split_games := Z.of_nat (length home);
                split_avg := _calculate_avg_from_logs home (prop_type p) |}).
  set (sa := {| split_games := Z.of_nat (length away);
                split_avg := _calculate_avg_from_logs away (prop_type p) |}).
  assert (Hne : (0 < length home + length away)%nat) by (rewrite Hpart; simpl; lia).
  set (splits :=
    match away with
    | [] => match home with [] => base | _ :: _ => <["home" := sh]> base end
    | _ :: _ =>
        <["away" := sa]>
          (match home with [] => base | _ :: _ => <["home" := sh]> base end)
    end).
  assert (Hkeys : forall k, splits !! k <> None ->
                    k = "vs_opponent" \/ k = "home" \/ k = "away").
  { intros k. unfold splits.
    destruct (String.eqb_spec k "home") as [->|Hh]; [auto|].
    destruct (String.eqb_spec k "away") as [->|Ha]; [auto|].
    destruct away, home; rewrite ?lookup_insert_ne by auto; intros H;
      left; by apply Hbase. }
  assert (Hcount : (split_count splits "home" + split_count splits "away"
                    = Z.of_nat (length l))%Z).
  { unfold split_count, splits. rewrite <- Hpart.
    destruct away as [|ga away'], home as [|gh home'];
      rewrite ?lookup_insert_eq, ?lookup_insert_ne, ?lookup_insert_eq, ?Hbh, ?Hba
        by discriminate;
      cbn [split_games sh sa length]; lia. }
  assert (Hsize : (0 <? size splits)%nat = true).
  { unfold splits. destruct away as [|ga away'].
    - destruct home as [|gh home']; [simpl in Hne; lia|].
      eapply size_pos_lookup. apply lookup_insert_eq.
    - eapply size_pos_lookup. apply lookup_insert_eq. }
  split; [exact Hkeys|]. split; [exact Hcount|]. split; [discriminate|].
  intros _.
  pose proof (sample_quality_with_splits a splits Hsize) as Hq.
  rewrite Hlogs in Hq. apply Hq. discriminate.
Qed.

Lemma enrichment_files_splits_witness :
  wp (enrich_analysis_with_context no_history
        (new_candidate (sample_analysis "LeBron James" sample_game 0.0 steady_logs)))
     (fun c' s' =>
        let a := sample_analysis "LeBron James" sample_game 0.0 steady_logs in
        let splits := conditional_splits c' in
        s' = sample_store /\ cand_analysis c' = a
        /\ (forall k, splits !! k <> None ->
              k = "vs_opponent" \/ k = "home" \/ k = "away")
        /\ (split_count splits "home" + split_count splits "away"
            = Z.of_nat (length (player_game_logs a)))%Z
        /\ (player_game_logs a = [] -> _calculate_sample_quality_score a splits = 0.0)
        /\ (player_game_logs a <> [] ->
              0.2 <= _calculate_sample_quality_score a splits
              /\ ((5 <= length (player_game_logs a))%nat ->
                  0.5 <= _calculate_sample_quality_score a splits)
              /\ ((30 <= length (player_game_logs a))%nat ->
                  0.8 <= _calculate_sample_quality_score a splits))) sample_store.
Proof.
  eapply (enrichment_files_splits no_history
            (sample_analysis "LeBron James" sample_game 0.0 steady_logs)
            _ sample_store).
  reflexivity.
Defined.

(** * From the engine's analyses to the picks *)

Lemma enrich_keeps_analysis (history : Z -> string -> list PlayerGameLog)
    (c : Candidate) (s : Store) :
  (prop (cand_analysis c) < length (store_props s))%nat ->
  wp (enrich_analysis_with_context history c)
     (fun c' s' => s' = s /\ cand_analysis c' = cand_analysis c) s.
Proof.
  intros Hr. destruct (lookup_lt_is_Some_2 _ _ Hr) as [p Hp].
  unfold enrich_analysis_with_context. cbv zeta.
  apply wp_bind. eapply wp_get_prop; [exact Hp|]. apply wp_ret.
  split; reflexivity.
Qed.

Lemma Forall2_In_right {A B} (R : A -> B -> Prop) (l : list A) (l' : list B)
    (y : B) :
  Forall2 R l l' -> In y l' -> exists x, In x l /\ R x y.
Proof.
  induction 1 as [|x y' l l' Hxy _ IH]; intros Hin; [destruct Hin|].
  destruct Hin as [->|Hin]; [exists x; split; [by left | exact Hxy]|].
  destruct (IH Hin) as (x' & Hx' & HR). exists x'. split; [by right | exact HR].
Qed.

Lemma sublist_In {A} (l1 l2 : list A) (x : A) :
  sublist l1 l2 -> In x l1 -> In x l2.
Proof.
  intros Hs Hx.
  assert (H : Forall (fun y => In y l2) l1).
  { apply (sublist_Forall _ l1 l2 Hs). apply List.Forall_forall. auto. }
  exact (proj1 (List.Forall_forall _ _) H x Hx).
Qed.

Lemma sublist_StronglySorted {A} (R : A -> A -> Prop) (l1 l2 : list A) :
  sublist l1 l2 -> StronglySorted R l2 -> StronglySorted R l1.
Proof.
  induction 1 as [|x l1 l2 Hs IH|x l1 l2 Hs IH]; intros H; [constructor| |];
    inversion H as [|? ? Hl2 Hx]; subst.
  - constructor; [by apply IH|]. eapply sublist_Forall; eassumption.
  - by apply IH.
Qed.

Lemma count_if_sublist {A} (f : A -> bool) (l1 l2 : list A) :
  sublist l1 l2 -> (count_if f l1 <= count_if f l2)%Z.
Proof.
  unfold count_if. intros Hs. apply inj_le.
  induction Hs as [|x l1 l2 Hs IH|x l1 l2 Hs IH]; simpl; [lia| |];
    destruct (f x); simpl; lia.
Qed.

Lemma StronglySorted_map {A B} (f : A -> B) (R : B -> B -> Prop) (l : list A) :
  StronglySorted (fun x y => R (f x) (f y)) l -> StronglySorted R (map f l).
Proof.
  induction 1 as [|x l Hs IH Hx]; simpl; constructor; [exact IH|].
  apply Forall_map. exact Hx.
Qed.

Lemma confidence_score_upper (env : Env) (p : PlayerProp) (a : PropAnalysis)
    (splits : gmap string SplitStats) :
  calculate_confidence_score env p a splits <= 1.
Proof.
  unfold calculate_confidence_score. cbv zeta.
  eapply Qle_trans; [apply py_min_le_r | lra].
Qed.

Lemma scored_core (a' : PropAnalysis) (conf mins : Q) :
  same_core a' (with_minutes_security_score (with_confidence_score a' conf) mins).
Proof. unfold same_core. repeat split; reflexivity. Qed.

(** X27: steps 5 and 6 of the pipeline, run on analyses that point at
    props of the store with a gate window of at least one game and a
    non-negative pick budget, return without touching the store at most
    [max_picks] picks in descending order of confidence, at most one per
    player and two per game; each pick reaches the 0.4 floor without
    exceeding 1, has a history that passes the minutes gate, and is one of
    the incoming analyses as far as everything the engine computed goes. *)
Theorem pipeline_picks_are_sound (env : Env)
    (history : Z -> string -> list PlayerGameLog)
    (prop_analyses : list PropAnalysis) (s : Store) :
  (1 <= min_minutes_last_n (settings env))%Z ->
  (0 <= max_picks (settings env))%Z ->
  Forall (fun a => (prop a < length (store_props s))%nat) prop_analyses ->
  wp (rank_and_pick env history prop_analyses)
     (fun picks s' =>
        s' = s
        /\ (Z.of_nat (length picks) <= max_picks (settings env))%Z
        /\ StronglySorted (fun a b => confidence_score b <= confidence_score a) picks
        /\ (forall k, (picks_of_player k picks <= 1)%Z)
        /\ (forall k, (picks_of_game k picks <= 2)%Z)
        /\ Forall (fun a =>
             0.4 <= confidence_score a <= 1
             /\ ~ spec_gate_fatal (Z.to_nat (min_minutes_last_n (settings env)))
                    (min_minutes_threshold (settings env)) (player_game_logs a)
             /\ exists a0, In a0 prop_analyses /\ same_core a0 a) picks) s.
Proof.
  intros Hn Hmax Hrefs. unfold rank_and_pick.
  apply wp_bind. eapply wp_mono.
  { apply (wp_mapM_pure (enrich_analysis_with_context history)
             (fun c c' => cand_analysis c' = cand_analysis c)).
    apply List.Forall_forall. intros c Hc. apply in_map_iff in Hc as (a & <- & Ha).
    apply enrich_keeps_analysis. cbn [cand_analysis new_candidate].
    eapply (proj1 (List.Forall_forall _ _) Hrefs). exact Ha. }
  intros candidates s' [-> Hcand].
  assert (Hcrefs : Forall (fun c => (prop (cand_analysis c)
                                     < length (store_props s))%nat) candidates).
  { eapply Forall2_Forall_right; [|exact Hcand|].
    - intros c c' Hcc Hc. rewrite Hcc. exact Hc.
    - apply Forall_map. exact Hrefs. }
  apply wp_bind. eapply wp_mono; [by apply rank_props_run|].
  intros ranked s' (-> & scored & Hscored & Hsort).
  set (picks := run_analysis_picks env (map cand_analysis ranked)).
  assert (Hret : wp (ret picks)
            (fun picks0 s' =>
               s' = s
               /\ (Z.of_nat (length picks0) <= max_picks (settings env))%Z
               /\ StronglySorted (fun a b => confidence_score b <= confidence_score a)
                    picks0
               /\ (forall k, (picks_of_player k picks0 <= 1)%Z)
               /\ (forall k, (picks_of_game k picks0 <= 2)%Z)
               /\ Forall (fun a =>
                    0.4 <= confidence_score a <= 1
                    /\ ~ spec_gate_fatal
                           (Z.to_nat (min_minutes_last_n (settings env)))
                           (min_minutes_threshold (settings env))
                           (player_game_logs a)
                    /\ exists a0, In a0 prop_analyses /\ same_core a0 a) picks0) s).
  2:{ destruct ranked; [|exact Hret].
      assert (E : picks = []).
      { unfold picks, run_analysis_picks, select_top_picks. cbv zeta.
        rewrite py_take_nonneg by exact Hmax. cbn. apply take_nil. }
      rewrite <- E. exact Hret. }
  apply wp_ret. split; [reflexivity|].
  set (d := diversify_picks (map cand_analysis ranked) 1 2).
  assert (Hpicks : picks = take (Z.to_nat (max_picks (settings env)))
                             (List.filter above_floor d)).
  { unfold picks, run_analysis_picks, select_top_picks. cbv zeta.
    by rewrite py_take_nonneg by exact Hmax. }
  assert (Hsub_d : sublist picks d).
  { rewrite Hpicks. etransitivity; [apply sublist_take | apply filter_sublist]. }
  assert (Hsub : sublist picks (map cand_analysis ranked)).
  { etransitivity; [exact Hsub_d | apply diversify_picks_spec_sublist]. }
  split; [|split; [|split; [|split]]].
  - rewrite Hpicks, length_take. lia.
  - eapply sublist_StronglySorted; [exact Hsub|].
    apply StronglySorted_map. subst ranked.
    apply (sort_by_confidence_sorted scored).
  - intros k. etransitivity; [apply count_if_sublist, Hsub_d|].
    unfold d. rewrite diversify_picks_spec. unfold spec_diversify.
    destruct (spec_diversify_from_caps 1 2 (map cand_analysis ranked) [])
      as (Cp & _);
      [intros k'; change (picks_of_player k' []) with 0%Z; lia
      |intros k'; change (picks_of_game k' []) with 0%Z; lia|].
    apply (Cp k).
  - intros k. etransitivity; [apply count_if_sublist, Hsub_d|].
    unfold d. rewrite diversify_picks_spec. unfold spec_diversify.
    destruct (spec_diversify_from_caps 1 2 (map cand_analysis ranked) [])
      as (_ & Cg & _);
      [intros k'; change (picks_of_player k' []) with 0%Z; lia
      |intros k'; change (picks_of_game k' []) with 0%Z; lia|].
    apply (Cg k).
  - apply List.Forall_forall. intros a Ha.
    assert (Hfloor : 0.4 <= confidence_score a).
    { rewrite Hpicks in Ha. apply (sublist_In _ _ _ (sublist_take _ _)) in Ha.
      apply filter_In in Ha as [_ Hf]. apply Qgeb_ge in Hf. exact Hf. }
    apply (sublist_In _ _ _ Hsub) in Ha.
    apply in_map_iff in Ha as (c' & <- & Hc').
    assert (Hin : In c' scored).
    { eapply Permutation_in; [apply sort_desc_perm|]. rewrite <- Hsort. exact Hc'. }
    destruct (Forall2_In_right _ _ _ _ Hscored Hin) as (c & Hc & a' & p & Hv & Hp & ->).
    apply filter_In in Hc as [Hc _].
    destruct (Forall2_In_right _ _ _ _ Hcand Hc) as (c0 & Hc0 & Hsame).
    apply in_map_iff in Hc0 as (a0 & <- & Ha0).
    cbn [cand_analysis new_candidate] in Hsame.
    cbn [cand_analysis] in *. rewrite Hsame in Hv.
    pose proof (gate_keeps_core env a0 a' true Hv) as [Hcore _].
    split; [split; [exact Hfloor | apply confidence_score_upper]|]. split.
    + change (player_game_logs
                (with_minutes_security_score
                   (with_confidence_score a'
                      (calculate_confidence_score env p a' (conditional_splits c)))
                   (calculate_minutes_security_score env a')))
        with (player_game_logs a').
      destruct Hcore as (_ & _ & _ & _ & _ & Hlogs & _). rewrite Hlogs.
      destruct (validate_minutes_security_verdict env a0 Hn) as [[_ Hf]|[Hok _]];
        [congruence | exact Hok].
    + exists a0. split; [exact Ha0|].
      eapply same_core_trans; [exact Hcore | apply scored_core].
Qed.

Lemma pipeline_picks_are_sound_witness :
  wp (rank_and_pick sample_env no_history sample_analyses)
     (fun picks s' =>
        s' = sample_store
        /\ (Z.of_nat (length picks) <= max_picks (settings sample_env))%Z
        /\ StronglySorted (fun a b => confidence_score b <= confidence_score a) picks
        /\ (forall k, (picks_of_player k picks <= 1)%Z)
        /\ (forall k, (picks_of_game k picks <= 2)%Z)
        /\ Forall (fun a =>
             0.4 <= confidence_score a <= 1
             /\ ~ spec_gate_fatal
                    (Z.to_nat (min_minutes_last_n (settings sample_env)))
                    (min_minutes_threshold (settings sample_env))
                    (player_game_logs a)
             /\ exists a0, In a0 sample_analyses /\ same_core a0 a) picks)
     sample_store.
Proof.
  apply (pipeline_picks_are_sound sample_env no_history sample_analyses sample_store).
  - vm_compute. discriminate.
  - vm_compute. discriminate.
  - repeat constructor.
Defined.

(** * The prop filters *)

Lemma filter_filter_and {A} (f g : A -> bool) (l : list A) :
  List.filter f (List.filter g l) = List.filter (fun x => g x && f x) l.
Proof.
  induction l as [|x l IH]; simpl; [reflexivity|].
  destruct (g x); simpl; [destruct (f x)|]; by rewrite IH.
Qed.

Lemma filter_ext_bool {A} (f g : A -> bool) (l : list A) :
  (forall x, f x = g x) -> List.filter f l = List.filter g l.
Proof.
  intros H. induction l as [|x l IH]; simpl; [reflexivity|].
  by rewrite H, IH.
Qed.

Lemma fold_left_filter_either {A} (f g : A -> bool) (l acc : list A) :
  fold_left (fun filtered x =>
               if f x then filtered ++ [x]
               else if g x then filtered ++ [x] else filtered) l acc
  = acc ++ List.filter (fun x => f x || g x) l.
Proof.
  revert acc. induction l as [|x l IH]; intros acc; simpl.
  - by rewrite app_nil_r.
  - rewrite IH. destruct (f x); [by rewrite <- app_assoc|].
    destruct (g x); [by rewrite <- app_assoc | reflexivity].
Qed.

Lemma slate_teams (games : list Game) (acc : list string) (t : string) :
  In t (fold_left (fun team_abbrs g =>
                     (team_abbrs ++ [home_team_abbr g]) ++ [away_team_abbr g])
          games acc)
  <-> In t acc \/ exists g, In g games /\ involves t g.
Proof.
  revert acc. induction games as [|g games IH]; intros acc; cbn [fold_left].
  - split; [auto|]. intros [H|(g & [] & _)]. exact H.
  - rewrite IH, !in_app_iff. cbn [In]. unfold involves. split.
    + intros [[[H|[H|[]]]|[H|[]]]|(g' & Hg' & Hi)]; eauto 6.
    + intros [H|(g' & [<-|Hg'] & [Hi|Hi])]; eauto 8.
Qed.

(** X28: the three prop filters keep the order of the props and drop
    entries only.  The odds filter keeps a prop when its over or its under
    price is at [max_juice] or better; the two filters of the pipeline can
    be applied in either order and together keep exactly the props that
    pass both tests; each is idempotent.  The slate filter keeps a prop
    when its game id is the id of a game of the slate or its team plays in
    one, and nothing for an empty slate. *)
Theorem prop_filters_compose (props : list PlayerProp) (max_juice : Z)
    (allowed_types : list string) (games : list Game) :
  filter_props_by_type (filter_props_by_odds props max_juice) allowed_types
  = List.filter (fun p => ((over_odds p >=? max_juice)%Z
                           || (under_odds p >=? max_juice)%Z)
                          && str_in (prop_type p) allowed_types) props
  /\ filter_props_by_type (filter_props_by_odds props max_juice) allowed_types
     = filter_props_by_odds (filter_props_by_type props allowed_types) max_juice
  /\ filter_props_by_odds (filter_props_by_odds props max_juice) max_juice
     = filter_props_by_odds props max_juice
  /\ filter_props_by_type (filter_props_by_type props allowed_types) allowed_types
     = filter_props_by_type props allowed_types
  /\ sublist (filter_props_by_type (filter_props_by_odds props max_juice)
                allowed_types) props
  /\ sublist (filter_props_by_games props games) props
  /\ (forall p, In p (filter_props_by_games props games)
                <-> In p props
                    /\ exists g, In g games
                         /\ (prop_game_id p = game_id g \/ involves (team_abbr p) g))
  /\ filter_props_by_games props [] = [].
Proof.
  unfold filter_props_by_type. rewrite !filter_props_by_odds_filter.
  assert (Hgames : filter_props_by_games props games
                   = List.filter (fun p =>
                       str_in (prop_game_id p) (map game_id games)
                       || str_in (team_abbr p)
                            (fold_left (fun team_abbrs g =>
                               (team_abbrs ++ [home_team_abbr g])
                               ++ [away_team_abbr g]) games [])) props).
  { unfold filter_props_by_games. cbv zeta.
    by rewrite fold_left_filter_either. }
  split; [apply filter_filter_and|]. split.
  { rewrite !filter_filter_and. apply filter_ext_bool. intros p. apply andb_comm. }
  split; [apply filter_idempotent|]. split; [apply filter_idempotent|].
  split; [etransitivity; apply filter_sublist|].
  split; [rewrite Hgames; apply filter_sublist|]. split.
  - intros p. rewrite Hgames, filter_In, orb_true_iff.
    split; intros [Hin Hkeep]; (split; [exact Hin|]).
    + destruct Hkeep as [Hid|Hteam].
      * apply str_in_In in Hid. apply in_map_iff in Hid as (g & Hg & Hin').
        exists g. auto.
      * apply str_in_In in Hteam. apply slate_teams in Hteam as [[]|(g & Hg & Hi)].
        exists g. auto.
    + destruct Hkeep as (g & Hg & [Hid|Hteam]).
      * left. apply str_in_In. rewrite Hid. by apply in_map.
      * right. apply str_in_In. apply slate_teams. right. eauto.
  - unfold filter_props_by_games. cbv zeta. rewrite fold_left_filter_either.
    apply filter_all_false. apply List.Forall_forall. auto.
Qed.

(** * Normalising prop type names *)

Lemma canonical_char_idempotent (c : Ascii.ascii) :
  let canon c :=
    let c1 := lower_ascii c in
    let c2 := if Ascii.eqb c1 space then underscore else c1 in
    if Ascii.eqb c2 hyphen then underscore else c2 in
  canon (canon c) = canon c.
Proof.
  destruct c as [[] [] [] [] [] [] [] []]; vm_compute; reflexivity.
Qed.

Lemma canonical_text_idempotent (raw : string) :
  canonical_text (canonical_text raw) = canonical_text raw.
Proof.
  unfold canonical_text. induction raw as [|c raw IH]; [reflexivity|].
  cbn [lower replace_char]. f_equal; [apply canonical_char_idempotent | exact IH].
Qed.

(** X29: a prop type name is normalised to the first row of the table
    whose variants hold the canonical text (lower case, spaces and hyphens
    as underscores) or whose key occurs in it.  The result is always a key
    of the table and depends on the canonical text only; every key
    normalises to itself; any text containing "points" normalises to
    points, since that row comes first, so the long names of the compound
    markets normalise to points or rebounds and not to their own rows,
    the only variants of the table that miss their row. *)
Theorem normalize_prop_type_first_match (raw : string) :
  (forall k, _normalize_prop_type raw = Some k -> In k (map fst PROP_TYPES))
  /\ _normalize_prop_type (canonical_text raw) = _normalize_prop_type raw
  /\ (is_substring "points" (canonical_text raw) = true ->
      _normalize_prop_type raw = Some "points")
  /\ Forall (fun row => _normalize_prop_type (fst row) = Some (fst row)) PROP_TYPES
  /\ Forall (fun row =>
       Forall (fun v => _normalize_prop_type v = Some (fst row)
                        \/ In v compound_market_names) (snd row)) PROP_TYPES
  /\ map _normalize_prop_type compound_market_names
     = [Some "points"; Some "points"; Some "points"; Some "rebounds"; Some "points"].
Proof.
  split; [|split; [|split; [|split; [|split]]]].
  - intros k. unfold _normalize_prop_type. cbv zeta.
    destruct (List.find _ PROP_TYPES) as [row|] eqn:Hfind; [|discriminate].
    intros [= <-]. apply find_some in Hfind as [Hin _]. by apply in_map.
  - unfold _normalize_prop_type. cbv zeta.
    fold (canonical_text (canonical_text raw)). fold (canonical_text raw).
    by rewrite canonical_text_idempotent.
  - intros Hsub. unfold _normalize_prop_type. cbv zeta.
    fold (canonical_text raw). unfold PROP_TYPES. cbn [List.find fst snd].
    by rewrite Hsub, orb_true_r.
  - unfold PROP_TYPES.
    repeat (apply List.Forall_cons; [vm_compute; reflexivity|]).
    apply List.Forall_nil.
  - unfold PROP_TYPES.
    repeat (apply List.Forall_cons;
            [cbn [fst snd];
             repeat (apply List.Forall_cons;
                     [first [left; vm_compute; reflexivity
                            |right; unfold compound_market_names; cbn [In]; tauto]|]);
             apply List.Forall_nil|]).
    apply List.Forall_nil.
  - vm_compute. reflexivity.
Qed.

(** * American and decimal odds *)

(** X30: the conversion of American odds to decimal odds raises exactly at
    odds of 0; otherwise the result exceeds 1; +100 and -100 both give 2.0;
    and on conventional prices, 100 or more away from zero, a higher
    American price is a higher decimal price, which is what the filters and
    the odds factor rely on when they compare American prices as
    integers. *)
Theorem american_to_decimal_order (a : Z) :
  (_american_to_decimal a = None <-> a = 0%Z)
  /\ (forall d, _american_to_decimal a = Some d -> 1 < d)
  /\ _american_to_decimal 100 = Some (100 / 100 + 1)
  /\ _american_to_decimal (-100) = Some (100 / 100 + 1)
  /\ (forall b da db,
        (100 <= Z.abs a)%Z -> (100 <= Z.abs b)%Z -> (a <= b)%Z ->
        _american_to_decimal a = Some da -> _american_to_decimal b = Some db ->
        da <= db).
Proof.
  assert (Hpos : forall x, (0 < x)%Z -> 0 < inject_Z x).
  { intros x Hx. change 0 with (inject_Z 0). by rewrite <- Zlt_Qlt. }
  assert (Hval : forall x, (100 <= Z.abs x)%Z ->
            ((0 < x)%Z /\ _american_to_decimal x = Some (inject_Z x / 100 + 1)
             /\ 2 <= inject_Z x / 100 + 1)
            \/ ((x < 0)%Z
                /\ _american_to_decimal x = Some (100 / inject_Z (Z.abs x) + 1)
                /\ 100 / inject_Z (Z.abs x) + 1 <= 2)).
  { intros x Hx. unfold _american_to_decimal.
    destruct (Z.gtb_spec x 0) as [H|H].
    - left. split; [lia|]. split; [reflexivity|].
      assert (100 <= inject_Z x).
      { change 100 with (inject_Z 100). rewrite <- Zle_Qle. lia. }
      qlra.
    - right. split; [lia|]. destruct (Z.eqb_spec (Z.abs x) 0); [lia|].
      split; [reflexivity|].
      assert (H100 : 100 <= inject_Z (Z.abs x)).
      { change 100 with (inject_Z 100). rewrite <- Zle_Qle. lia. }
      assert (100 / inject_Z (Z.abs x) <= 1); [|lra].
      apply Qle_shift_div_r; lra. }
  split; [|split; [|split; [|split]]].
  - unfold _american_to_decimal. destruct (Z.gtb_spec a 0); [split; [discriminate|lia]|].
    destruct (Z.eqb_spec (Z.abs a) 0); split; try discriminate; auto; lia.
  - intros d. unfold _american_to_decimal. destruct (Z.gtb_spec a 0) as [H|H].
    + intros [= <-]. specialize (Hpos a ltac:(lia)).
      assert (0 < inject_Z a / 100); [|lra].
      apply Qlt_shift_div_l; lra.
    + destruct (Z.eqb_spec (Z.abs a) 0); [discriminate|]. intros [= <-].
      specialize (Hpos (Z.abs a) ltac:(lia)).
      assert (0 < 100 / inject_Z (Z.abs a)); [|lra].
      apply Qlt_shift_div_l; [exact Hpos | lra].
  - reflexivity.
  - reflexivity.
  - intros b da db Ha Hb Hab Hda Hdb.
    destruct (Hval a Ha) as [(Sa & Ea & Ba)|(Sa & Ea & Ba)];
    destruct (Hval b Hb) as [(Sb & Eb & Bb)|(Sb & Eb & Bb)];
      rewrite Ea in Hda; rewrite Eb in Hdb;
      injection Hda as <-; injection Hdb as <-; try lia; try lra.
    + assert (inject_Z a <= inject_Z b) by (rewrite <- Zle_Qle; exact Hab). qlra.
    + assert (Hq : inject_Z (Z.abs b) <= inject_Z (Z.abs a))
        by (rewrite <- Zle_Qle; lia).
      specialize (Hpos (Z.abs a) ltac:(lia)) as Hpa.
      specialize (Hpos (Z.abs b) ltac:(lia)) as Hpb.
      assert (100 / inject_Z (Z.abs a) <= 100 / inject_Z (Z.abs b)); [|lra].
      apply Qle_shift_div_l; [exact Hpb|].
      assert (E : 100 / inject_Z (Z.abs a) * inject_Z (Z.abs b)
                  == (100 * inject_Z (Z.abs b)) / inject_Z (Z.abs a)).
      { field. intros H0. rewrite H0 in Hpa. lra. }
      rewrite E. apply Qle_shift_div_r; [exact Hpa | lra].
Qed.

(** * The best line across books *)






(** * What the engine is bound to produce *)

Lemma wp_conj {A} (m : M A) (Q1 Q2 : A -> Store -> Prop) (s : Store) :
  wp m Q1 s -> wp m Q2 s -> wp m (fun a s' => Q1 a s' /\ Q2 a s') s.
Proof. unfold wp. destruct (m s) as [[a s']|]; [auto | intros []]. Qed.

(** A loop that only appends: what a turn has made stays in the list. *)
Lemma wp_foldM_appending {A B} (f : list B -> A -> M (list B))
    (Inv : Store -> Prop) (Made : A -> list B -> Prop) (l : list A) :
  (forall x l1 l2 l3, Made x l2 -> Made x (l1 ++ l2 ++ l3)) ->
  (forall x acc s, In x l -> Inv s ->
     wp (f acc x)
        (fun acc' s' => Inv s' /\ exists new, acc' = acc ++ new /\ Made x new) s) ->
  forall acc s, Inv s ->
  wp (foldM f l acc)
     (fun acc' s' =>
        Inv s' /\ exists new, acc' = acc ++ new /\ forall x, In x l -> Made x new) s.
Proof.
  intros Hmono. induction l as [|x l IH]; intros Hstep acc s HI; cbn [foldM].
  - apply wp_ret. split; [exact HI|]. exists []. rewrite app_nil_r.
    split; [reflexivity | intros x []].
  - apply wp_bind. eapply wp_mono; [apply Hstep; [by left | exact HI]|].
    intros acc1 s1 (HI1 & new1 & -> & Hm1).
    eapply wp_mono.
    + apply IH; [|exact HI1]. intros y acc' s' Hy. apply Hstep. by right.
    + intros acc2 s2 (HI2 & new2 & -> & Hm2). split; [exact HI2|].
      exists (new1 ++ new2). split; [by rewrite app_assoc|].
      intros y [<-|Hy].
      * apply (Hmono x [] new1 new2), Hm1.
      * specialize (Hmono y new1 new2 [] (Hm2 y Hy)).
        by rewrite app_nil_r in Hmono.
Qed.

Lemma find_edges_same_type (p p' : PlayerProp) (team_edges : list Edge) :
  prop_type p' = prop_type p ->
  _find_edges_for_prop p' team_edges = _find_edges_for_prop p team_edges.
Proof. unfold _find_edges_for_prop. by intros ->. Qed.

Lemma prop_evolves_type (env : Env) (p p' : PlayerProp) :
  prop_evolves env p p' -> prop_type p' = prop_type p.
Proof. intros (_ & _ & _ & H & _). exact H. Qed.

Lemma due_extends (s0 : Store) (team_edges : list Edge) (g : Game) (r : nat)
    (l1 l2 l3 : list PropAnalysis) :
  due s0 team_edges g r l2 -> due s0 team_edges g r (l1 ++ l2 ++ l3).
Proof.
  intros H p0 Hp0 Hne. destruct (H p0 Hp0 Hne) as (a & Ha & Hmade).
  exists a. split; [|exact Hmade]. rewrite !in_app_iff. auto.
Qed.

(** One prop: its analysis is appended whenever an edge is selected. *)
Lemma match_prop_makes (env : Env) (s0 : Store) (team_edges : list Edge)
    (g : Game) (opponent_abbr : string) (acc : list PropAnalysis)
    (r : nat) (s : Store) :
  evolves env s0 s -> (r < length (store_props s0))%nat ->
  wp (match_prop env team_edges g opponent_abbr acc r)
     (fun acc' s' =>
        evolves env s0 s'
        /\ exists new, acc' = acc ++ new /\ due s0 team_edges g r new) s.
Proof.
  intros Hev Hr. destruct (lookup_lt_is_Some_2 _ _ Hr) as [p0 Hp0].
  destruct (evolves_lookup env s0 s r p0 Hev Hp0) as (p & Hp & Hpp).
  apply prop_evolves_type in Hpp.
  unfold match_prop. apply wp_bind. eapply wp_get_prop; [exact Hp|].
  rewrite (find_edges_same_type p0 p team_edges Hpp).
  destruct (_find_edges_for_prop p0 team_edges) as [|e matched] eqn:Hm.
  - apply wp_ret. split; [exact Hev|]. exists []. rewrite app_nil_r.
    split; [reflexivity|]. intros q Hq Hne. rewrite Hp0 in Hq.
    injection Hq as <-. by rewrite Hm in Hne.
  - apply wp_bind.
    eapply wp_mono;
      [by apply (create_prop_analysis_spec env r (e :: matched) g opponent_abbr s p)|].
    intros res s' (Hev' & a & p' & -> & _ & Hra & Hea & Hga & _).
    apply wp_ret. split; [eapply evolves_trans; eassumption|].
    exists [a]. split; [reflexivity|]. intros q Hq _. rewrite Hp0 in Hq.
    injection Hq as <-. exists a. split; [by left|]. rewrite Hm. by split.
Qed.

(** The props of one player. *)
Lemma player_props_make (env : Env) (s0 : Store) (team_edges : list Edge)
    (g : Game) (opponent_abbr : string) (refs : list nat)
    (acc : list PropAnalysis) (s : Store) :
  evolves env s0 s ->
  Forall (fun r => (r < length (store_props s0))%nat) refs ->
  wp (foldM (match_prop env team_edges g opponent_abbr) refs acc)
     (fun acc' s' =>
        evolves env s0 s'
        /\ exists new, acc' = acc ++ new
             /\ forall r, In r refs -> due s0 team_edges g r new) s.
Proof.
  intros Hev Hrefs.
  apply (wp_foldM_appending (match_prop env team_edges g opponent_abbr)
           (evolves env s0) (due s0 team_edges g) refs);
    [apply due_extends | | exact Hev].
  intros r acc' s' Hin Hev'. apply match_prop_makes; [exact Hev'|].
  exact (proj1 (List.Forall_forall _ _) Hrefs r Hin).
Qed.

(** The players of one team. *)
Lemma team_players_make (env : Env) (s0 : Store) (team_edges : list Edge)
    (g : Game) (opponent_abbr : string)
    (players : list (string * list nat)) (acc : list PropAnalysis) (s : Store) :
  evolves env s0 s -> refs_valid s0 players ->
  wp (foldM (fun analyses entry =>
               foldM (match_prop env team_edges g opponent_abbr)
                     (snd entry) analyses) players acc)
     (fun acc' s' =>
        evolves env s0 s'
        /\ exists new, acc' = acc ++ new
             /\ forall player, In player players ->
                  forall r, In r (snd player) -> due s0 team_edges g r new) s.
Proof.
  intros Hev Hplayers.
  apply (wp_foldM_appending
           (fun analyses (entry : string * list nat) =>
              foldM (match_prop env team_edges g opponent_abbr)
                    (snd entry) analyses)
           (evolves env s0)
           (fun player new =>
              forall r, In r (snd player) -> due s0 team_edges g r new) players);
    [ | | exact Hev].
  - intros player l1 l2 l3 H r Hr. apply due_extends, H, Hr.
  - intros player acc' s' Hin Hev'.
    apply player_props_make; [exact Hev'|].
    exact (proj1 (List.Forall_forall _ _) Hplayers player Hin).
Qed.

(** The comprehension that picks a team's players keeps every player with
    a prop on the team, and only entries of the dictionary. *)
Lemma team_players_complete (team : option string)
    (d : list (string * list nat)) (s : Store) :
  refs_valid s d ->
  wp (filterM (fun entry => any_on_team team (snd entry)) d)
     (fun d' s' =>
        s' = s /\ refs_valid s d'
        /\ forall player, In player d -> on_team s team (snd player) ->
             In player d') s.
Proof.
  induction 1 as [|entry d Hentry _ IH]; simpl.
  - apply wp_ret. split; [reflexivity|]. split; [constructor|]. intros ? [].
  - apply wp_bind. eapply wp_mono; [by apply any_on_team_spec|].
    intros b s' [-> Hb]. apply wp_bind. eapply wp_mono; [exact IH|].
    intros d' s' (-> & Hd' & Hall). apply wp_ret. split; [reflexivity|].
    split; [destruct b; [constructor|]; assumption|].
    intros player [<-|Hin] Hon.
    + apply Hb in Hon. subst b. by left.
    + destruct b; [right|]; by apply Hall.
Qed.

(** One team. *)
Lemma match_team_makes (env : Env) (s0 : Store) (games : list Game)
    (props_by_player : list (string * list nat)) (acc : list PropAnalysis)
    (entry : option string * list Edge) (s : Store) :
  evolves env s0 s -> refs_valid s0 props_by_player ->
  wp (match_team env games props_by_player acc entry)
     (fun acc' s' =>
        evolves env s0 s'
        /\ exists new, acc' = acc ++ new
             /\ team_due s0 s games props_by_player entry new) s.
Proof.
  intros Hev Hrefs. unfold match_team. cbv zeta.
  destruct (_find_game_for_team (fst entry) games) as [g|] eqn:Hgame.
  2:{ apply wp_ret. split; [exact Hev|]. exists []. rewrite app_nil_r.
      split; [reflexivity|]. intros g Hg. rewrite Hgame in Hg. discriminate. }
  assert (Hrefs_s : refs_valid s props_by_player).
  { unfold refs_valid. rewrite (evolves_length env s0 s Hev). exact Hrefs. }
  apply wp_bind. eapply wp_mono; [by apply team_players_complete|].
  intros players s' (-> & Hplayers & Hall).
  eapply wp_mono.
  - apply (team_players_make env s0 (snd entry) g); [exact Hev|].
    unfold refs_valid. rewrite <- (evolves_length env s0 s Hev). exact Hplayers.
  - intros acc' s' (Hev' & new & -> & Hdue). split; [exact Hev'|].
    exists new. split; [reflexivity|].
    intros g' Hg' player Hin Hon r Hr. rewrite Hgame in Hg'.
    injection Hg' as <-. apply (Hdue player); [|exact Hr]. by apply Hall.
Qed.

Lemma prop_evolves_no_league_team (env : Env) (p p' : PlayerProp) :
  prop_evolves (no_league env) p p' -> team_abbr p' = team_abbr p.
Proof.
  intros (_ & _ & _ & _ & _ & _ & _ & _ & _ & _ & [Ht|[_ Ht]] & _); [exact Ht|].
  rewrite no_league_index in Ht. discriminate.
Qed.

Lemma on_team_evolves (env : Env) (s s' : Store) (team : option string)
    (refs : list nat) :
  evolves (no_league env) s s' -> on_team s team refs -> on_team s' team refs.
Proof.
  intros Hev (r & p & Hin & Hp & Ht).
  destruct (evolves_lookup _ s s' r p Hev Hp) as (p' & Hp' & Hpp).
  exists r, p'. split; [exact Hin|]. split; [exact Hp'|].
  by rewrite (prop_evolves_no_league_team env p p' Hpp).
Qed.

(** The loop over the teams with edges. *)
Lemma match_teams_make (env : Env) (games : list Game)
    (props_by_player : list (string * list nat))
    (edges_by_team : list (option string * list Edge)) (s1 : Store) :
  refs_valid s1 props_by_player ->
  wp (foldM (match_team env games props_by_player) edges_by_team [])
     (fun produced s' =>
        evolves (no_league env) s1 s'
        /\ forall entry, In entry edges_by_team ->
             team_due s1 s1 games props_by_player entry produced) s1.
Proof.
  intros Hrefs. eapply wp_mono.
  - apply (wp_foldM_appending (match_team env games props_by_player)
             (evolves (no_league env) s1)
             (team_due s1 s1 games props_by_player) edges_by_team);
      [ | | apply evolves_refl].
    + intros entry l1 l2 l3 H g Hg player Hin Hon r Hr.
      apply due_extends. exact (H g Hg player Hin Hon r Hr).
    + intros entry acc s _ Hev.
      change (match_team env games props_by_player acc entry)
        with (match_team (no_league env) games props_by_player acc entry).
      eapply wp_mono;
        [apply (match_team_makes (no_league env) s1); [exact Hev | exact Hrefs]|].
      intros acc' s' (Hev' & new & -> & Hdue). split; [exact Hev'|].
      exists new. split; [reflexivity|].
      intros g Hg player Hin Hon r Hr.
      apply (Hdue g Hg player Hin); [|exact Hr].
      eapply on_team_evolves; eassumption.
  - intros produced s' (Hev & new & -> & Hdue). split; [exact Hev|]. exact Hdue.
Qed.

(** ** Filing into the two dictionaries *)

Lemma filed_dict_append_old {K V} (eqb : K -> K -> bool) (k k' : K) (x x' : V)
    (d : list (K * list V)) :
  filed d k' x' -> filed (dict_append eqb k x d) k' x'.
Proof.
  induction d as [|[k0 vs] d IH]; intros (vs' & Hin & Hx); [destruct Hin|].
  cbn [dict_append]. destruct Hin as [Heq|Hin].
  - injection Heq as -> ->. destruct (eqb k' k).
    + exists (vs' ++ [x]). split; [by left|]. apply in_app_iff. by left.
    + exists vs'. split; [by left | exact Hx].
  - destruct (eqb k0 k).
    + exists vs'. split; [by right | exact Hx].
    + destruct IH as (vs'' & Hin'' & Hx''); [by exists vs'|].
      exists vs''. split; [by right | exact Hx''].
Qed.

Lemma filed_dict_append_new {K V} (eqb : K -> K -> bool) (k : K) (x : V)
    (d : list (K * list V)) :
  (forall k', eqb k' k = true -> k' = k) ->
  filed (dict_append eqb k x d) k x.
Proof.
  intros Heq. induction d as [|[k0 vs] d IH]; cbn [dict_append].
  - exists [x]. split; by left.
  - destruct (eqb k0 k) eqn:E.
    + apply Heq in E as ->. exists (vs ++ [x]). split; [by left|].
      apply in_app_iff. right. by left.
    + destruct IH as (vs' & Hin & Hx). exists vs'. split; [by right | exact Hx].
Qed.

Lemma dict_append_keys {K V} (eqb : K -> K -> bool) (k k' : K) (x : V)
    (d : list (K * list V)) :
  In k' (map fst (dict_append eqb k x d)) -> k' = k \/ In k' (map fst d).
Proof.
  induction d as [|[k0 vs] d IH]; cbn [dict_append].
  - intros [<-|[]]. by left.
  - destruct (eqb k0 k); cbn [map fst In]; [auto|].
    intros [<-|H]; [auto|]. destruct (IH H); auto.
Qed.

Lemma dict_append_keys_distinct {K V} (eqb : K -> K -> bool) (k : K) (x : V)
    (d : list (K * list V)) :
  (forall k', k' = k -> eqb k' k = true) ->
  List.NoDup (map fst d) -> List.NoDup (map fst (dict_append eqb k x d)).
Proof.
  intros Heq. induction d as [|[k0 vs] d IH]; cbn [dict_append]; intros Hd.
  - cbn. apply List.NoDup_cons; [intros [] | apply List.NoDup_nil].
  - destruct (eqb k0 k) eqn:E; [exact Hd|].
    cbn [map fst] in *. apply List.NoDup_cons_iff in Hd as [Hk0 Hd].
    apply List.NoDup_cons; [|by apply IH].
    intros H. apply dict_append_keys in H as [->|H]; [|by apply Hk0].
    rewrite Heq in E by reflexivity. discriminate.
Qed.

Lemma distinct_keys_one_entry {K V} (k : K) (vs1 vs2 : list V)
    (d : list (K * list V)) :
  List.NoDup (map fst d) -> In (k, vs1) d -> In (k, vs2) d -> vs1 = vs2.
Proof.
  induction d as [|[k0 vs] d IH]; [intros _ []|].
  cbn [map fst]. intros Hd. apply List.NoDup_cons_iff in Hd as [Hk0 Hd].
  intros [H1|H1] [H2|H2].
  - congruence.
  - injection H1 as -> ->. contradict Hk0.
    apply in_map_iff. by exists (k, vs2).
  - injection H2 as -> ->. contradict Hk0.
    apply in_map_iff. by exists (k, vs1).
  - by apply IH.
Qed.

(** Every edge is on file under its benefiting team. *)
Lemma group_edges_by_team_files (edges : list Edge) (e : Edge) :
  In e edges -> filed (group_edges_by_team edges) (edge_team_abbr e) e.
Proof.
  unfold group_edges_by_team.
  assert (H : forall l acc,
    filed acc (edge_team_abbr e) e \/ In e l ->
    filed (fold_left (fun edges_by_team edge =>
             dict_append (option_eqb String.eqb) (edge_team_abbr edge) edge
               edges_by_team) l acc) (edge_team_abbr e) e).
  { induction l as [|e0 l IH]; intros acc Hcase; cbn [fold_left].
    - destruct Hcase as [H|[]]. exact H.
    - apply IH. destruct Hcase as [H|[<-|H]].
      + left. by apply filed_dict_append_old.
      + left. apply filed_dict_append_new. intros k'. apply option_string_eqb_eq.
      + by right. }
  intros Hin. apply H. by right.
Qed.

(** The grouping loop files every prop under the name of its player, and
    a name heads one entry only. *)
Lemma group_props_files (env : Env) (s : Store) :
  wp (foldM (group_prop env) (seq 0 (length (store_props s))) [])
     (fun d _ =>
        List.NoDup (map fst d)
        /\ forall r p, store_props s !! r = Some p -> filed d (player_name p) r) s.
Proof.
  set (n := length (store_props s)).
  eapply wp_mono.
  - apply (wp_foldM (group_prop env)
             (fun rest d s' =>
                evolves env s s' /\ List.NoDup (map fst d)
                /\ exists k, rest = seq k (n - k) /\ (k <= n)%nat
                   /\ forall r p, (r < k)%nat -> store_props s !! r = Some p ->
                        filed d (player_name p) r)).
    + split; [apply evolves_refl|]. split; [apply List.NoDup_nil|].
      exists 0%nat. rewrite Nat.sub_0_r. split; [reflexivity|].
      split; [lia|]. intros r p Hr. lia.
    + intros x rest d s' (Hev & Hnd & k & Hrest & Hk & Hfiled).
      apply seq_cons_inv in Hrest as (-> & -> & Hpos).
      assert (Hlt : (k < length (store_props s))%nat) by (fold n; lia).
      destruct (lookup_lt_is_Some_2 _ _ Hlt) as [p0 Hp0].
      destruct (evolves_lookup env s s' k p0 Hev Hp0) as (p1 & Hp1 & Hpp).
      eapply wp_mono.
      * apply group_prop_spec. rewrite (evolves_length env s s' Hev). exact Hlt.
      * intros d' s'' (Hev' & p & Hp & ->). rewrite Hp1 in Hp.
        injection Hp as <-. destruct Hpp as (Hname & _).
        split; [eapply evolves_trans; eassumption|].
        split.
        { apply dict_append_keys_distinct; [|exact Hnd].
          intros k' ->. apply String.eqb_refl. }
        exists (S k). split; [f_equal; lia|]. split; [lia|].
        intros r p Hr Hp. destruct (decide (r = k)) as [->|Hne].
        -- rewrite Hp0 in Hp. injection Hp as <-. rewrite <- Hname.
           apply filed_dict_append_new. intros k'. apply String.eqb_eq.
        -- apply filed_dict_append_old, (Hfiled r p); [lia | exact Hp].
  - intros d s' (_ & Hnd & k & Hrest & Hk & Hfiled). split; [exact Hnd|].
    assert (k = n) as ->.
    { destruct (n - k)%nat eqn:E; [lia | discriminate]. }
    intros r p Hp. apply (Hfiled r p); [|exact Hp].
    apply lookup_lt_Some in Hp. exact Hp.
Qed.

Lemma backfill_type (env : Env) (p : PlayerProp) :
  prop_type (backfill env p) = prop_type p.
Proof.
  unfold backfill. destruct (String.eqb (team_abbr p) "UNK"); [|reflexivity].
  by destruct (player_name_to_team env !! player_name p).
Qed.

(** The engine as a whole: a prop of a player who has a prop on a team,
    with a game of the team on the slate and an edge of the team that
    applies to the prop's type, has an analysis in the output, built from
    the selection among the team's edges. *)
Lemma engine_produces (env : Env) (games : list Game) (s : Store) :
  wp (match_edges_to_props env games)
     (fun produced _ =>
        forall r q r2 q2 t g e,
          store_props s !! r = Some q ->
          store_props s !! r2 = Some q2 ->
          player_name q2 = player_name q ->
          team_abbr (backfill env q2) = t ->
          _find_game_for_team (Some t) games = Some g ->
          In e (store_edges s) -> edge_team_abbr e = Some t ->
          edge_applies (prop_type q) e = true ->
          exists a es,
            In a produced
            /\ made_for r g (_find_edges_for_prop q es) a
            /\ In e es
            /\ Forall (fun e' => In e' (store_edges s)
                                 /\ edge_team_abbr e' = Some t) es) s.
Proof.
  unfold match_edges_to_props.
  apply wp_bind. unfold wp at 1, read_edges.
  apply wp_bind. unfold wp at 1, prop_refs. cbv zeta.
  apply wp_bind.
  eapply wp_mono;
    [exact (wp_conj _ _ _ _ (group_props_spec env s)
              (wp_conj _ _ _ _ (group_props_backfill env s)
                 (group_props_files env s)))|].
  intros props_by_player s1 ((Hev1 & Hrefs) & (Hprops & Hedges) & Hnd & Hfiled).
  eapply wp_mono; [apply match_teams_make, Hrefs|].
  intros produced s' (_ & Hdue) r q r2 q2 t g e Hq Hq2 Hname Ht Hg He Hte Happ.
  destruct (group_edges_by_team_files (store_edges s) e He) as (es & Hentry & Hes).
  rewrite Hte in Hentry.
  destruct (Hfiled r q Hq) as (refs & Hplayer & Hr).
  destruct (Hfiled r2 q2 Hq2) as (refs2 & Hplayer2 & Hr2).
  rewrite Hname in Hplayer2.
  rewrite (distinct_keys_one_entry _ _ _ _ Hnd Hplayer2 Hplayer) in Hr2.
  assert (Hlook : forall i p, store_props s !! i = Some p ->
                    store_props s1 !! i = Some (backfill env p)).
  { intros i p Hi. by rewrite Hprops, list_lookup_fmap, Hi. }
  destruct (find_edges_for_prop_spec (backfill env q) es) as [_ Hiff].
  destruct (Hdue (Some t, es) Hentry g Hg (player_name q, refs) Hplayer
              (ex_intro _ r2 (ex_intro _ (backfill env q2)
                 (conj Hr2 (conj (Hlook r2 q2 Hq2)
                    (eq_ind_r (fun x => String.eqb x t = true)
                       (String.eqb_refl t) Ht)))))
              r Hr (backfill env q) (Hlook r q Hq))
    as (a & Ha & Hmade).
  { apply Hiff. exists e. split; [exact Hes|]. by rewrite backfill_type. }
  exists a, es. split; [exact Ha|].
  rewrite <- (find_edges_same_type q (backfill env q) es (backfill_type env q)).
  split; [exact Hmade|]. split; [exact Hes|].
  pose proof (group_edges_by_team_from (store_edges s)) as Hfrom.
  rewrite List.Forall_forall in Hfrom.
  exact (Hfrom (Some t, es) Hentry).
Qed.

(** C4: for a prop of category [c] the innermost loop appends an analysis
    exactly when some edge of the benefiting team satisfies [c] under the
    compound-category policy, and the analysis carries a non-empty
    selection of such edges; an edge affecting only assists satisfies
    [pts_asts] and not [rebounds]; every analysis the engine returns
    carries at least one edge, and each of its edges is an input edge
    that benefits one team of the analysis's game and applies to its
    prop; and for a prop of category [c'] whose player has a prop on the
    team [t] (after the back-fill of unknown teams), with [g'] the game
    found for [t] on the slate, the engine's output holds an analysis of
    the prop in [g'] built from edges of [t] exactly when some input edge
    benefiting [t] satisfies [c']. *)
Theorem analysis_iff_edge_satisfies (env : Env) (c : StatCategory)
    (team_edges : list Edge) (g : Game) (opponent_abbr : string)
    (analyses : list PropAnalysis) (r : nat) (s : Store) (p : PlayerProp)
    (games : list Game) :
  store_props s !! r = Some p ->
  prop_type p = category_name c ->
  (exists analyses' s',
     match_prop env team_edges g opponent_abbr analyses r s = Some (analyses', s')
     /\ ((exists a, analyses' = analyses ++ [a] /\ prop a = r)
         <-> exists e, In e team_edges /\ spec_edge_satisfies c e)
     /\ (analyses' = analyses
         <-> ~ exists e, In e team_edges /\ spec_edge_satisfies c e)
     /\ (forall a, analyses' = analyses ++ [a] ->
           edges a <> []
           /\ Forall (fun e => In e team_edges /\ spec_edge_satisfies c e)
                     (edges a)))
  /\ (forall e, affected_stats e = ["assists"] ->
        spec_edge_satisfies CatPtsAsts e /\ ~ spec_edge_satisfies CatRebounds e)
  /\ (exists produced s',
        match_edges_to_props env games s = Some (produced, s')
        /\ Forall (fun a =>
             exists q team,
               store_props s' !! prop a = Some q
               /\ _find_game_for_team team games = Some (game a)
               /\ edges a <> []
               /\ Forall (fun e => In e (store_edges s)
                                   /\ edge_team_abbr e = team
                                   /\ edge_applies (prop_type q) e = true)
                         (edges a)) produced
        /\ (forall r' q c' t g',
              store_props s !! r' = Some q ->
              prop_type q = category_name c' ->
              (exists r2 q2, store_props s !! r2 = Some q2
                             /\ player_name q2 = player_name q
                             /\ team_abbr (backfill env q2) = t) ->
              _find_game_for_team (Some t) games = Some g' ->
              ((exists a, In a produced /\ prop a = r' /\ game a = g'
                          /\ Forall (fun e => edge_team_abbr e = Some t) (edges a))
               <-> exists e, In e (store_edges s) /\ edge_team_abbr e = Some t
                             /\ spec_edge_satisfies c' e))).
Proof.
  intros Hp Hc. split; [|split].
  - destruct (wp_run _ _ _
                (match_prop_produces env team_edges g opponent_abbr analyses r s p Hp))
      as (analyses' & s' & Hrun & Hcases).
    exists analyses', s'. split; [exact Hrun|].
    assert (Hsat : (exists e, In e team_edges
                              /\ edge_applies (prop_type p) e = true)
                   <-> exists e, In e team_edges /\ spec_edge_satisfies c e).
    { rewrite Hc. split; intros (e & He & Ha); exists e; (split; [exact He|]);
        by apply edge_applies_spec. }
    destruct (find_edges_for_prop_spec p team_edges) as [Hall Hiff].
    destruct Hcases as [[Hno ->]|[Hyes (a & -> & Hr & He)]].
    + split; [|split].
      * split; [|intros H; contradict Hno; by apply Hsat].
        intros (a & Ha & _). apply (f_equal length) in Ha.
        rewrite length_app in Ha. simpl in Ha. lia.
      * split; [intros _ H; apply Hno; by apply Hsat | reflexivity].
      * intros a Ha. apply (f_equal length) in Ha.
        rewrite length_app in Ha. simpl in Ha. lia.
    + split; [|split].
      * split; [intros _; by apply Hsat | intros _; eauto].
      * split; [|intros H; contradict H; by apply Hsat].
        intros Ha. apply (f_equal length) in Ha.
        rewrite length_app in Ha. simpl in Ha. lia.
      * intros a' Ha'. apply app_inj_tail in Ha' as [_ <-]. rewrite He.
        split; [apply Hiff, Hyes|].
        eapply List.Forall_impl; [|exact Hall]. intros e [Hin Ha].
        split; [exact Hin|]. apply edge_applies_spec. by rewrite <- Hc.
  - apply assists_edge_example.
  - destruct (wp_run _ _ _
                (wp_conj _ _ _ _ (match_edges_to_props_spec env games s)
                   (engine_produces env games s)))
      as (produced & s' & Hrun & (Hev & Hok) & Hmakes).
    exists produced, s'. split; [exact Hrun|]. split.
    + eapply List.Forall_impl; [|exact Hok].
      intros a (q & Hq & Hne & Hed & (team & Hgame & Hteam) & _).
      exists q, team. destruct Hev as [Hedges _]. rewrite <- Hedges.
      split; [exact Hq|]. split; [exact Hgame|]. split; [exact Hne|].
      rewrite List.Forall_forall in *. intros e He.
      destruct (Hed e He). auto.
    + intros r' q c' t g' Hq Hqc (r2 & q2 & Hq2 & Hname & Ht) Hg'. split.
      * intros (a & Ha & Hra & _ & Hteam).
        rewrite List.Forall_forall in Hok.
        destruct (Hok a Ha) as (q' & Hq' & Hne & Hed & _).
        destruct (evolves_lookup env s s' r' q Hev Hq) as (q1 & Hq1 & Hqq).
        rewrite Hra, Hq1 in Hq'. injection Hq' as <-.
        apply prop_evolves_type in Hqq.
        destruct (edges a) as [|e rest]; [contradiction|].
        apply List.Forall_cons_iff in Hed as [[Hin Happ] _].
        apply List.Forall_cons_iff in Hteam as [Hte _].
        exists e. destruct Hev as [Hedges _]. rewrite <- Hedges.
        split; [exact Hin|]. split; [exact Hte|].
        apply edge_applies_spec. by rewrite <- Hqc, <- Hqq.
      * intros (e & He & Hte & Hsat).
        destruct (Hmakes r' q r2 q2 t g' e Hq Hq2 Hname Ht Hg' He Hte)
          as (a & es & Ha & (Hra & Hga & Hea) & _ & Hes).
        { rewrite Hqc. by apply edge_applies_spec. }
        exists a. split; [exact Ha|]. split; [exact Hra|]. split; [exact Hga|].
        rewrite Hea.
        destruct (find_edges_for_prop_spec q es) as [Hall _].
        rewrite List.Forall_forall in *. intros e' He'.
        destruct (Hall e' He') as [Hin _]. exact (proj2 (Hes e' Hin)).
Qed.

Lemma analysis_iff_edge_satisfies_witness :
  store_props sample_store !! 0%nat
  = Some {| player_id := 0; player_name := "LeBron James"; team_abbr := "UNK";
            prop_game_id := "0022400001"; opponent_abbr := "BOS";
            prop_type := "pts_asts"; line := 33.5; over_odds := -110;
            under_odds := -110; book := "FanDuel"; is_home := true;
            fetched_at := 0 |}
  /\ (exists e, In e [sample_edge] /\ spec_edge_satisfies CatPtsAsts e)
  /\ (exists analyses' s',
        match_prop sample_env [sample_edge] sample_game "BOS" [] 0 sample_store
        = Some (analyses', s')
        /\ exists a, analyses' = [] ++ [a] /\ prop a = 0%nat)
  /\ (exists produced s',
        match_edges_to_props sample_env [sample_game] sample_store
        = Some (produced, s')
        /\ (exists a, In a produced /\ prop a = 0%nat /\ game a = sample_game
                      /\ Forall (fun e => edge_team_abbr e = Some "LAL") (edges a))
        /\ ~ (exists a, In a produced /\ prop a = 1%nat /\ game a = sample_game
                        /\ Forall (fun e => edge_team_abbr e = Some "LAL")
                                  (edges a))).
Proof.
  split; [reflexivity|].
  assert (Hsat : exists e, In e [sample_edge] /\ spec_edge_satisfies CatPtsAsts e).
  { exists sample_edge. split; [by left|]. by apply assists_edge_example. }
  split; [exact Hsat|].
  destruct (analysis_iff_edge_satisfies sample_env CatPtsAsts [sample_edge]
              sample_game "BOS" [] 0 sample_store _ [sample_game]
              eq_refl eq_refl)
    as [(analyses' & s' & Hrun & Hiff & _) [_ (produced & s'' & Hrun' & _ & Hengine)]].
  split; [exists analyses', s'; split; [exact Hrun | apply Hiff, Hsat]|].
  exists produced, s''. split; [exact Hrun'|]. split.
  - apply (Hengine 0%nat _ CatPtsAsts "LAL" sample_game eq_refl eq_refl).
    + eexists 0%nat, _. split; [reflexivity|]. split; [reflexivity|].
      vm_compute. reflexivity.
    + reflexivity.
    + exists sample_edge. split; [by left|]. split; [reflexivity|].
      by apply assists_edge_example.
  - intros Hmade.
    apply (Hengine 1%nat _ CatRebounds "LAL" sample_game eq_refl eq_refl) in Hmade.
    + destruct Hmade as (e & [<-|[]] & _ & Hsat').
      by apply (assists_edge_example sample_edge).
    + eexists 1%nat, _. split; [reflexivity|]. split; reflexivity.
    + reflexivity.
Defined.
